(** * Fill or Bust: the turn engine of [main.py], embedded and verified

    The development follows the layout of the script:
    - [Py]      : the few Python built-ins the script relies on
                  (str.strip / lower / split / replace / startswith, int());
    - [RandomSource] : the interface of [random.Random] the script uses
                  (seeding, [randint], [shuffle]), with a small concrete
                  generator to run the model;
    - [CardDeckSpecial], [score_dice], [Game.roll], [Game.play_turn],
      [Game.run], [main] : the script's own code;
    - the theorems.

    Integers are Python integers, hence [Z].  Text written by [print] and
    [_info] is not modelled; text read by [input] or typed into a dialog is
    a list of ASCII lines.  Seeds are integers: with [seed=None] Python
    seeds from the operating system and nothing is reproducible.  The two
    [while True] loops take fuel. *)

From Stdlib Require Import ZArith Lia String Ascii List Permutation.
From stdpp Require Import base gmap sets list strings pretty.

Local Open Scope string_scope.
Local Open Scope Z_scope.
Local Open Scope list_scope.

(** ** Python built-ins *)

Module Py.

(** Whitespace for [str.strip] and [str.split] (ASCII range). *)
Definition is_space (c : ascii) : bool :=
  let n := nat_of_ascii c in
  ((9 <=? n)%nat && (n <=? 13)%nat) || ((28 <=? n)%nat && (n <=? 32)%nat).

Definition is_digit (c : ascii) : bool :=
  let n := nat_of_ascii c in (48 <=? n)%nat && (n <=? 57)%nat.

Definition digit_val (c : ascii) : Z := Z.of_nat (nat_of_ascii c) - 48.

Definition lower_ascii (c : ascii) : ascii :=
  let n := nat_of_ascii c in
  if (65 <=? n)%nat && (n <=? 90)%nat then ascii_of_nat (n + 32) else c.

Fixpoint lstrip_chars (s : list ascii) : list ascii :=
  match s with
  | c :: s' => if is_space c then lstrip_chars s' else s
  | [] => []
  end.

Definition strip_chars (s : list ascii) : list ascii :=
  rev (lstrip_chars (rev (lstrip_chars s))).

(** [s.strip()] *)
Definition strip (s : string) : string :=
  string_of_list_ascii (strip_chars (list_ascii_of_string s)).

(** [s.lower()] *)
Definition lower (s : string) : string :=
  string_of_list_ascii (map lower_ascii (list_ascii_of_string s)).

Fixpoint split_chars (cur : list ascii) (s : list ascii) : list (list ascii) :=
  match s with
  | [] => match cur with [] => [] | _ => [rev cur] end
  | c :: s' =>
      if is_space c
      then match cur with [] => split_chars [] s' | _ => rev cur :: split_chars [] s' end
      else split_chars (c :: cur) s'
  end.

(** [s.split()] : maximal runs of non-whitespace. *)
Definition split (s : string) : list string :=
  map string_of_list_ascii (split_chars [] (list_ascii_of_string s)).

(** Digits of a decimal literal; a single underscore may sit between two
    digits.  ASCII digits only, and of any length: CPython refuses a
    literal of more than 4300 digits with the [ValueError] it raises for
    any other malformed one. *)
Fixpoint int_digits (acc : Z) (after_digit : bool) (s : list ascii) : option Z :=
  match s with
  | [] => if after_digit then Some acc else None
  | c :: s' =>
      if is_digit c then int_digits (10 * acc + digit_val c) true s'
      else if Ascii.eqb c "_"%char
           then (if after_digit then int_digits acc false s' else None)
           else None
  end.

(** [int(s)] in base 10; [None] stands for [ValueError]. *)
Definition int (s : string) : option Z :=
  match strip_chars (list_ascii_of_string s) with
  | c :: s' =>
      if Ascii.eqb c "-"%char then Z.opp <$> int_digits 0 false s'
      else if Ascii.eqb c "+"%char then int_digits 0 false s'
      else int_digits 0 false (c :: s')
  | [] => None
  end.

Fixpoint starts_chars (p s : list ascii) : bool :=
  match p, s with
  | [], _ => true
  | a :: p', b :: s' => Ascii.eqb a b && starts_chars p' s'
  | _ :: _, [] => false
  end.

(** [s.startswith(p)] *)
Definition startswith (s p : string) : bool :=
  starts_chars (list_ascii_of_string p) (list_ascii_of_string s).

(** Left-to-right, non-overlapping replacement; [skip] counts the
    characters of a match still to be dropped. *)
Fixpoint replace_chars (old new : list ascii) (skip : nat) (s : list ascii)
  : list ascii :=
  match s with
  | [] => []
  | c :: s' =>
      match skip with
      | S k => replace_chars old new k s'
      | O =>
          if starts_chars old s
          then new ++ replace_chars old new (Nat.pred (length old)) s'
          else c :: replace_chars old new O s'
      end
  end.

(** [s.replace(old, new)] for a non-empty [old]. *)
Definition replace (s old new : string) : string :=
  string_of_list_ascii
    (replace_chars (list_ascii_of_string old) (list_ascii_of_string new) O
       (list_ascii_of_string s)).

(** [range(n)] as the script uses it: empty when [n <= 0]. *)
Definition range (n : Z) : list Z := Z.of_nat <$> seq 0 (Z.to_nat n).

(** Exceptions the script can let escape. *)
Inductive exn := ValueError | EOFError | IndexError.

End Py.

(** ** The random source

    [random.Random] is the standard library's generator; the script uses
    three of its operations.  They are taken as an interface, with the two
    facts about them that the script relies on. *)

Class RandomSource (rng_state : Type) := {
  (** [random.Random(seed)] for an integer seed *)
  Random : Z -> rng_state;
  (** [rng.randint(a, b)] *)
  randint : Z -> Z -> rng_state -> Z * rng_state;
  (** [rng.shuffle(x)], returning the shuffled list *)
  shuffle : forall {A : Type}, list A -> rng_state -> list A * rng_state;
  randint_range :
    forall a b s, a <= b -> a <= fst (randint a b s) <= b;
  shuffle_perm :
    forall (A : Type) (l : list A) s, Permutation (fst (shuffle l s)) l
}.

(** ** Results of code that may raise or run without end *)

Inductive result (A : Type) : Type :=
| Ok (a : A)
| Raise (e : Py.exn)
| OutOfFuel.
Arguments Ok {A} a.
Arguments Raise {A} e.
Arguments OutOfFuel {A}.

(** ** [collections.Counter] over die faces *)

Module Counter.

(** [cnt.get(k, 0)], also [cnt[k]] of a Counter (missing keys read 0). *)
Definition get (m : gmap Z Z) (k : Z) : Z := default 0 (m !! k).

(** [cnt[k] += n] *)
Definition add (m : gmap Z Z) (k n : Z) : gmap Z Z := <[k := get m k + n]> m.

(** [Counter(dice)] *)
Definition of_list (dice : list Z) : gmap Z Z :=
  foldl (fun m v => add m v 1) ∅ dice.

(** [sum(cnt.values())] *)
Definition total (m : gmap Z Z) : Z :=
  foldr Z.add 0 (snd <$> map_to_list m).

End Counter.

(** ** [score_dice] *)

(** Loop state of [score_dice]: [cnt], [score], [used]. *)
Record scoring := {
  sc_cnt : gmap Z Z;
  sc_score : Z;
  sc_used : gmap Z Z
}.

(** Body of [for face in range(1, 7)]. *)
Definition three_of_a_kind (st : scoring) (face : Z) : scoring :=
  let c := Counter.get (sc_cnt st) face in
  if 3 <=? c then
    let base := if face =? 1 then 1000 else face * 100 in
    {| sc_cnt := <[face := c - 3]> (sc_cnt st);
       sc_score := sc_score st + base;
       sc_used := Counter.add (sc_used st) face 3 |}
  else st.

(** The two [if cnt.get(f, 0) > 0] blocks, for [f = 1] worth 100 and
    [f = 5] worth 50. *)
Definition singles (face worth : Z) (st : scoring) : scoring :=
  if 0 <? Counter.get (sc_cnt st) face then
    {| sc_cnt := sc_cnt st;
       sc_score := sc_score st + Counter.get (sc_cnt st) face * worth;
       sc_used := Counter.add (sc_used st) face (Counter.get (sc_cnt st) face) |}
  else st.

(** [score_dice(dice)] : the score and the [used] counter. *)
Definition score_dice (dice : list Z) : Z * gmap Z Z :=
  let st0 := {| sc_cnt := Counter.of_list dice; sc_score := 0; sc_used := ∅ |} in
  let st1 := foldl three_of_a_kind st0 [1; 2; 3; 4; 5; 6] in
  let st2 := singles 1 100 st1 in
  let st3 := singles 5 50 st2 in
  (sc_score st3, sc_used st3).

Definition is_scoring_roll (dice : list Z) : bool := 0 <? fst (score_dice dice).

(** [face in (1, 5)] *)
Definition one_or_five (face : Z) : bool := (face =? 1) || (face =? 5).

(** The scoring rule in the words of the specification, face by face. *)
Module ScoreSpec.

Definition occurrences (face : Z) (dice : list Z) : Z :=
  Z.of_nat (count_occ Z.eq_dec dice face).

Definition three_worth (face : Z) : Z := if face =? 1 then 1000 else face * 100.

Definition single_worth (face : Z) : Z :=
  if face =? 1 then 100 else if face =? 5 then 50 else 0.

(** Points a face with [c] occurrences brings. *)
Definition face_points (face c : Z) : Z :=
  if 3 <=? c then three_worth face + (c - 3) * single_worth face
  else c * single_worth face.

(** Dice of a face with [c] occurrences that are consumed. *)
Definition face_consumed (face c : Z) : Z :=
  (if 3 <=? c then 3 else 0)
  + (if one_or_five face then (if 3 <=? c then c - 3 else c) else 0).

Definition points (dice : list Z) : Z :=
  foldr Z.add 0 ((fun face => face_points face (occurrences face dice)) <$> [1; 2; 3; 4; 5; 6]).

Definition consumed (dice : list Z) (face : Z) : Z :=
  if bool_decide (face ∈ [1; 2; 3; 4; 5; 6])
  then face_consumed face (occurrences face dice) else 0.

End ScoreSpec.

(** The score is zero exactly when nothing was entered into [used]. *)
Definition unscored (st : scoring) : Prop :=
  0 <= sc_score st /\ (sc_score st = 0 <-> sc_used st = ∅).

(** ** [CardDeckSpecial] *)

Section Engine.
Context {rng_state : Type} `{RS : !RandomSource rng_state}.

Record CardDeckSpecial := {
  seed : Z;
  deck_rng : rng_state;
  cards : list string
}.

(** The list built in [__init__] before shuffling. *)
Definition deck_composition : list string :=
  repeat "bonus300" 6 ++ repeat "bonus400" 4 ++ repeat "bonus500" 2
  ++ repeat "no_dice" 3 ++ repeat "must_bust" 3 ++ repeat "double_trouble" 2.

(** [CardDeckSpecial(seed)] : a generator of its own, seeded with [seed],
    shuffles the deck. *)
Definition CardDeckSpecial_init (sd : Z) : CardDeckSpecial :=
  let '(cs, r) := shuffle deck_composition (Random sd) in
  {| seed := sd; deck_rng := r; cards := cs |}.

(** [list.pop()] : the last element; [None] stands for [IndexError]. *)
Definition pop {A : Type} (l : list A) : option (A * list A) :=
  match last l with
  | Some x => Some (x, removelast l)
  | None => None
  end.

(** [CardDeckSpecial.draw] *)
Definition draw (d : CardDeckSpecial) : result (string * CardDeckSpecial) :=
  let d1 := match cards d with
            | [] => CardDeckSpecial_init (seed d)
            | _ => d
            end in
  match pop (cards d1) with
  | Some (c, rest) =>
      Ok (c, {| seed := seed d1; deck_rng := deck_rng d1; cards := rest |})
  | None => Raise Py.IndexError
  end.

(** ** Players and the game object *)

Record Player := {
  name : string;
  is_ai : bool;
  points : Z
}.

(** [Game].  [use_gui] stands for [self.use_gui and TK_AVAILABLE]; the
    [verbose] flag only selects what is printed and is left out. *)
Record Game := {
  players : list Player;
  points_to_win : Z;
  ai_threshold_points : Z;
  rng : rng_state;
  card_deck : CardDeckSpecial;
  use_gui : bool
}.

(** [Game.__init__] : the dice generator and the deck are each built from
    [seed]. *)
Definition Game_init (ps : list Player) (ptw thr sd : Z) (gui : bool) : Game :=
  {| players := ps; points_to_win := ptw; ai_threshold_points := thr;
     rng := Random sd; card_deck := CardDeckSpecial_init sd; use_gui := gui |}.

(** [make_players] *)
Definition make_players (n ai_count : Z) : list Player :=
  (fun i =>
     {| name := ("P" ++ pretty i)%string;
        is_ai := if 0 <? ai_count then n - ai_count <? i else false;
        points := 0 |}) <$> ((fun k => k + 1) <$> Py.range n).

(** [[rng.randint(1, 6) for _ in range(n)]] *)
Fixpoint roll_dice (n : nat) (r : rng_state) : list Z * rng_state :=
  match n with
  | O => ([], r)
  | S k =>
      let '(v, r1) := randint 1 6 r in
      let '(vs, r2) := roll_dice k r1 in
      (v :: vs, r2)
  end.

(** ** The state a turn runs in

    A turn reads and writes the game (its generator and deck), the player
    whose turn it is, and the lines still to be read from the keyboard or
    the dialogs. *)

Record world := {
  w_game : Game;
  w_player : Player;
  w_stdin : list string
}.

Definition M (A : Type) : Type := world -> result (A * world).

Definition ret {A} (a : A) : M A := fun w => Ok (a, w).

Definition bind {A B} (m : M A) (k : A -> M B) : M B :=
  fun w =>
    match m w with
    | Ok (a, w1) => k a w1
    | Raise e => Raise e
    | OutOfFuel => OutOfFuel
    end.

Definition raise {A} (e : Py.exn) : M A := fun _ => Raise e.

Notation "'let*' x ':=' m 'in' k" := (bind m (fun x => k))
  (at level 10, x pattern, m at level 100, k at level 200).
Notation "m1 ;;; m2" := (bind m1 (fun _ => m2))
  (at level 100, right associativity).

Definition get_player : M Player := fun w => Ok (w_player w, w).
Definition get_game : M Game := fun w => Ok (w_game w, w).

(** [player.points += n] *)
Definition add_points (n : Z) : M unit := fun w =>
  let p := w_player w in
  Ok (tt, {| w_game := w_game w;
             w_player := {| name := name p; is_ai := is_ai p; points := points p + n |};
             w_stdin := w_stdin w |}).

(** [Game.roll] *)
Definition roll (n : Z) : M (list Z) := fun w =>
  let g := w_game w in
  let '(vs, r) := roll_dice (Z.to_nat n) (rng g) in
  Ok (vs, {| w_game := {| players := players g; points_to_win := points_to_win g;
                          ai_threshold_points := ai_threshold_points g;
                          rng := r; card_deck := card_deck g; use_gui := use_gui g |};
             w_player := w_player w; w_stdin := w_stdin w |}).

(** [self.card_deck.draw()] *)
Definition draw_card : M string := fun w =>
  let g := w_game w in
  match draw (card_deck g) with
  | Ok (c, d) =>
      Ok (c, {| w_game := {| players := players g; points_to_win := points_to_win g;
                             ai_threshold_points := ai_threshold_points g;
                             rng := rng g; card_deck := d; use_gui := use_gui g |};
                w_player := w_player w; w_stdin := w_stdin w |})
  | Raise e => Raise e
  | OutOfFuel => OutOfFuel
  end.

(** [input(...)] and [Game._prompt] : the next line; at end of input
    Python raises [EOFError].  In dialog mode the lines are the answers
    given in the dialogs, a cancelled dialog being the empty line; a
    dialog never raises, so there the end of the list stands for nothing
    the program can meet, and a statement that rests on it is made for the
    keyboard only. *)
Definition _prompt : M string := fun w =>
  match w_stdin w with
  | l :: ls => Ok (l, {| w_game := w_game w; w_player := w_player w; w_stdin := ls |})
  | [] => Raise Py.EOFError
  end.

(** [while ack.lower() != 'y': ack = input(prompt).strip()] *)
Fixpoint ack_lines (ls : list string) : option (list string) :=
  match ls with
  | l :: ls' => if String.eqb (Py.lower (Py.strip l)) "y" then Some ls' else ack_lines ls'
  | [] => None
  end.

(** [Game._ack] : a dialog in GUI mode, otherwise lines are read until one
    is [y]. *)
Definition _ack : M unit := fun w =>
  if use_gui (w_game w) then Ok (tt, w)
  else match ack_lines (w_stdin w) with
       | Some ls => Ok (tt, {| w_game := w_game w; w_player := w_player w; w_stdin := ls |})
       | None => Raise Py.EOFError
       end.

(** The two prompt loops: read, [strip().lower()], until the answer is one
    of [allowed]. *)
Fixpoint choice_lines (allowed : list string) (ls : list string)
  : option (string * list string) :=
  match ls with
  | l :: ls' =>
      let c := Py.lower (Py.strip l) in
      if existsb (String.eqb c) allowed then Some (c, ls') else choice_lines allowed ls'
  | [] => None
  end.

Definition read_choice (allowed : list string) : M string := fun w =>
  match choice_lines allowed (w_stdin w) with
  | Some (c, ls) => Ok (c, {| w_game := w_game w; w_player := w_player w; w_stdin := ls |})
  | None => Raise Py.EOFError
  end.

(** ** [Game.play_turn] *)

(** The [special_state] dictionary; the key [bonus_added] is absent until
    it is set, and an absent key reads as false. *)
Record special_state := {
  bonus : Z;
  no_dice : bool;
  must_bust : bool;
  double_trouble : bool;
  bonus_added : bool
}.

Definition no_special : special_state :=
  {| bonus := 0; no_dice := false; must_bust := false;
     double_trouble := false; bonus_added := false |}.

(** The [if special.startswith('bonus') ... elif ...] chain. *)
Definition read_card (special : string) : M special_state :=
  if Py.startswith special "bonus" then
    match Py.int (Py.replace special "bonus" "") with
    | Some n => ret {| bonus := n; no_dice := false; must_bust := false;
                       double_trouble := false; bonus_added := false |}
    | None => raise Py.ValueError
    end
  else if String.eqb special "no_dice" then
    ret {| bonus := 0; no_dice := true; must_bust := false;
           double_trouble := false; bonus_added := false |}
  else if String.eqb special "must_bust" then
    ret {| bonus := 0; no_dice := false; must_bust := true;
           double_trouble := false; bonus_added := false |}
  else if String.eqb special "double_trouble" then
    ret {| bonus := 0; no_dice := false; must_bust := false;
           double_trouble := true; bonus_added := false |}
  else ret no_special.

(** One accepted pick, as the script reports it: the roll it was taken
    from, [taken_score], the number of dice taken, and the turn total
    after it. *)
Record pick := {
  pk_roll : list Z;
  pk_score : Z;
  pk_count : Z;
  pk_total : Z
}.

(** The local variables of the turn loop, with the picks made so far
    (latest first). *)
Record turn := {
  dice_left : Z;
  turn_points : Z;
  fills : Z;
  special : special_state;
  picks : list pick
}.

Definition turn_start (sp : special_state) : turn :=
  {| dice_left := 6; turn_points := 0; fills := 0; special := sp; picks := [] |}.

(** [turn_points += taken_score; dice_left -= taken_count] and the
    [if dice_left == 0] block that follows; the script has this text twice,
    once for the automatic policy and once for the interactive player. *)
Definition keep (rl : list Z) (taken_score taken_count : Z) (t : turn) : turn :=
  let tp := turn_points t + taken_score in
  let dl := dice_left t - taken_count in
  let sp := special t in
  let t1 :=
    if dl =? 0 then
      if negb (bonus sp =? 0) && negb (bonus_added sp) then
        {| dice_left := 6; turn_points := tp + bonus sp; fills := fills t + 1;
           special := {| bonus := bonus sp; no_dice := no_dice sp;
                         must_bust := must_bust sp;
                         double_trouble := double_trouble sp;
                         bonus_added := true |};
           picks := picks t |}
      else
        {| dice_left := 6; turn_points := tp; fills := fills t + 1;
           special := sp; picks := picks t |}
    else
      {| dice_left := dl; turn_points := tp; fills := fills t;
         special := sp; picks := picks t |} in
  {| dice_left := dice_left t1; turn_points := turn_points t1; fills := fills t1;
     special := special t1;
     picks := {| pk_roll := rl; pk_score := taken_score; pk_count := taken_count;
                 pk_total := turn_points t1 |} :: picks t1 |}.

(** [face_positions] : face -> positions of that face, in increasing
    order. *)
Definition face_positions (rl : list Z) : gmap Z (list Z) :=
  foldl (fun (m : gmap Z (list Z)) (iv : Z * Z) =>
           <[iv.2 := default [] (m !! iv.2) ++ [iv.1]]> m) ∅
        (zip (Py.range (Z.of_nat (length rl))) rl).

(** [scoring_indices] *)
Definition scoring_indices (rl : list Z) : gset Z :=
  map_fold
    (fun face positions acc =>
       if (3 <=? length positions)%nat then
         let acc1 := acc ∪ list_to_set (take 3 positions) in
         if one_or_five face && (3 <? length positions)%nat
         then acc1 ∪ list_to_set (drop 3 positions)
         else acc1
       else if one_or_five face then acc ∪ list_to_set positions else acc)
    ∅ (face_positions rl).

(** How a pass through the loop body ends. *)
Inductive exit := Skipped | Busted | BankedByAI | BankedAtMenu | BankedAfterPick.

Inductive step :=
| Continue (t : turn)
| Return (v : Z) (t : turn) (how : exit).

(** The [else] branch of the menu: the indices typed by the player.
    [None] is any of the four rejections. *)
Definition choose_indices (rl : list Z) (line : string) : result (option (Z * Z)) :=
  match mapM Py.int (Py.split (Py.strip line)) with
  | None => Ok None
  | Some ns =>
      let idx := (fun n => n - 1) <$> ns in
      if existsb (fun i => (i <? 0) || (Z.of_nat (length rl) <=? i)) idx then Ok None
      else if negb (forallb (fun i => bool_decide (i ∈ scoring_indices rl)) idx) then Ok None
      else match mapM (fun i => rl !! Z.to_nat i) idx with
           | None => Raise Py.IndexError
           | Some chosen =>
               let taken_score := fst (score_dice chosen) in
               if taken_score =? 0 then Ok None
               else Ok (Some (taken_score, Z.of_nat (length chosen)))
           end
  end.

Definition lift {A} (r : result A) : M A := fun w =>
  match r with
  | Ok a => Ok (a, w)
  | Raise e => Raise e
  | OutOfFuel => OutOfFuel
  end.

Definition when (b : bool) (m : M unit) : M unit := if b then m else ret tt.

(** One pass through the body of [while True]. *)
Definition loop_body (interactive : bool) (t : turn) : M step :=
  let* rl := roll (dice_left t) in
  let '(score, breakdown) := score_dice rl in
  let* player := get_player in
  let* game := get_game in
  if score =? 0 then
    when (must_bust (special t)) (add_points (turn_points t)) ;;;
    when (interactive && negb (is_ai player)) _ack ;;;
    ret (Return 0 t Busted)
  else if is_ai player || negb interactive then
    let t1 := keep rl score (Counter.total breakdown) t in
    if is_ai player && (ai_threshold_points game <=? turn_points t1) then
      add_points (turn_points t1) ;;;
      when (negb (bonus (special t1) =? 0) && (0 <? fills t1))
           (add_points (bonus (special t1))) ;;;
      ret (Return (turn_points t1) t1 BankedByAI)
    else ret (Continue t1)
  else
    let* choice := read_choice ["k"; "b"; "c"] in
    if String.eqb choice "b" then
      if double_trouble (special t) && (fills t <? 2) then ret (Continue t)
      else
        add_points (turn_points t) ;;;
        ret (Return (turn_points t) t BankedAtMenu)
    else
      let* taken :=
        (if String.eqb choice "k" then ret (Some (score, Counter.total breakdown))
         else let* line := _prompt in lift (choose_indices rl line)) in
      match taken with
      | None => ret (Continue t)
      | Some (taken_score, taken_count) =>
          let t1 := keep rl taken_score taken_count t in
          let* cont := read_choice ["r"; "b"] in
          if String.eqb cont "b" then
            add_points (turn_points t1) ;;;
            ret (Return (turn_points t1) t1 BankedAfterPick)
          else ret (Continue t1)
      end.

(** What a finished turn leaves behind: the value returned, the locals at
    the [return], and which [return] it was. *)
Record outcome := {
  returned : Z;
  final : turn;
  how_ended : exit
}.

(** [while True] : at most [fuel] passes. *)
Fixpoint turn_loop (fuel : nat) (interactive : bool) (t : turn) : M outcome :=
  match fuel with
  | O => fun _ => OutOfFuel
  | S k =>
      let* s := loop_body interactive t in
      match s with
      | Continue t1 => turn_loop k interactive t1
      | Return v t1 how => ret {| returned := v; final := t1; how_ended := how |}
      end
  end.

(** [Game.play_turn(player, interactive)] : the card is drawn and read,
    NoDice returns at once, otherwise the loop runs from six dice. *)
Definition play_turn (fuel : nat) (interactive : bool) : M outcome :=
  let* card := draw_card in
  let* sp := read_card card in
  if no_dice sp then
    let* player := get_player in
    when (negb (is_ai player) && interactive) _ack ;;;
    ret {| returned := 0; final := turn_start sp; how_ended := Skipped |}
  else turn_loop fuel interactive (turn_start sp).

(** ** [Game.run] *)

Definition set_players (g : Game) (ps : list Player) : Game :=
  {| players := ps; points_to_win := points_to_win g;
     ai_threshold_points := ai_threshold_points g;
     rng := rng g; card_deck := card_deck g; use_gui := use_gui g |}.

(** [for player in self.players] over the positions [todo]: the player
    object at a position is handed to [play_turn] and what the turn did to
    it is visible in the list afterwards.  [Some p] is [return player].
    Each seat holds a player of its own, as in the tables [make_players]
    builds; one object seated twice, whose points would move at both
    seats, is not represented. *)
Fixpoint play_round (fuel : nat) (interactive : bool) (todo : list nat)
    (g : Game) (stdin : list string) : result (option Player * Game * list string) :=
  match todo with
  | [] => Ok (None, g, stdin)
  | i :: todo' =>
      match players g !! i with
      | None => Ok (None, g, stdin)
      | Some p =>
          match play_turn fuel interactive
                  {| w_game := g; w_player := p; w_stdin := stdin |} with
          | Ok (_, w) =>
              let g1 := set_players (w_game w) (<[i := w_player w]> (players (w_game w))) in
              if points_to_win g1 <=? points (w_player w)
              then Ok (Some (w_player w), g1, w_stdin w)
              else play_round fuel interactive todo' g1 (w_stdin w)
          | Raise e => Raise e
          | OutOfFuel => OutOfFuel
          end
      end
  end.

(** The outer [while True] of [run] : at most [rounds] rounds. *)
Fixpoint run (rounds fuel : nat) (interactive : bool) (g : Game) (stdin : list string)
  : result (Player * Game * list string) :=
  match rounds with
  | O => OutOfFuel
  | S r =>
      match play_round fuel interactive (seq 0 (length (players g))) g stdin with
      | Ok (Some p, g1, stdin1) => Ok (p, g1, stdin1)
      | Ok (None, g1, stdin1) => run r fuel interactive g1 stdin1
      | Raise e => Raise e
      | OutOfFuel => OutOfFuel
      end
  end.

(** [n] successive [draw()] calls, oldest first. *)
Fixpoint draws (n : nat) (d : CardDeckSpecial) : result (list string * CardDeckSpecial) :=
  match n with
  | O => Ok ([], d)
  | S k =>
      match draw d with
      | Ok (c, d1) =>
          match draws k d1 with
          | Ok (cs, d2) => Ok (c :: cs, d2)
          | Raise e => Raise e
          | OutOfFuel => OutOfFuel
          end
      | Raise e => Raise e
      | OutOfFuel => OutOfFuel
      end
  end.

(** The deck built from seed [sd] once [20 - j] cards have been popped. *)
Definition deck_at (sd : Z) (j : nat) : CardDeckSpecial :=
  {| seed := sd;
     deck_rng := deck_rng (CardDeckSpecial_init sd);
     cards := take j (cards (CardDeckSpecial_init sd)) |}.

(** Position in the shuffled list of the card that the next [draw] takes. *)
Definition next_pos (j : nat) : nat := match j with O => 19%nat | S j' => j' end.

(** ** Vocabulary of the statements about a turn *)

(** Sum of the [taken_score] of the picks. *)
Definition sum_scores (ps : list pick) : Z := foldr Z.add 0 (pk_score <$> ps).

(** [sp'] is [sp] up to the [bonus_added] key. *)
Definition same_card (sp sp' : special_state) : Prop :=
  bonus sp' = bonus sp /\ no_dice sp' = no_dice sp
  /\ must_bust sp' = must_bust sp /\ double_trouble sp' = double_trouble sp.

(** Invariant of the turn loop: the bonus is inside [turn_points] exactly
    when it has been added, which is exactly when a Bonus card is active
    and a fill has happened. *)
Definition bonus_once (t : turn) : Prop :=
  0 <= fills t
  /\ (bonus_added (special t) = true <-> bonus (special t) <> 0 /\ 0 < fills t)
  /\ turn_points t
     = sum_scores (picks t)
       + (if bonus_added (special t) then bonus (special t) else 0).

(** The turn ended at one of the three [return turn_points]. *)
Definition banked (e : exit) : bool :=
  match e with
  | BankedByAI | BankedAtMenu | BankedAfterPick => true
  | Skipped | Busted => false
  end.

(** What one pass through the loop body can do. *)
Definition body_post (interactive : bool) (t : turn) (w : world)
    (s : step) (w' : world) : Prop :=
  let p := w_player w in
  let p' := w_player w' in
  let g := w_game w in
  let g' := w_game w' in
  let thr := ai_threshold_points g in
  name p' = name p /\ is_ai p' = is_ai p
  /\ players g' = players g /\ points_to_win g' = points_to_win g
  /\ ai_threshold_points g' = thr /\ card_deck g' = card_deck g
  /\ use_gui g' = use_gui g
  /\ exists rl,
      roll_dice (Z.to_nat (dice_left t)) (rng g) = (rl, rng g')
      /\ let score := fst (score_dice rl) in
         let used := Counter.total (snd (score_dice rl)) in
         match s with
         | Continue t' =>
             points p' = points p /\ score <> 0
             /\ (t' = t /\ is_ai p = false /\ interactive = true
                 \/ exists ts tc,
                      t' = keep rl ts tc t
                      /\ (is_ai p || negb interactive = true ->
                          ts = score /\ tc = used))
             /\ (is_ai p = true -> turn_points t' < thr)
         | Return v t' Busted =>
             t' = t /\ v = 0 /\ score = 0
             /\ points p' = points p
                            + (if must_bust (special t) then turn_points t else 0)
         | Return v t' BankedByAI =>
             is_ai p = true /\ score <> 0
             /\ t' = keep rl score used t
             /\ thr <= turn_points t' /\ v = turn_points t'
             /\ points p'
                = points p + turn_points t'
                  + (if negb (bonus (special t') =? 0) && (0 <? fills t')
                     then bonus (special t') else 0)
         | Return v t' BankedAtMenu =>
             is_ai p = false /\ interactive = true /\ score <> 0
             /\ t' = t /\ v = turn_points t
             /\ points p' = points p + turn_points t
             /\ double_trouble (special t) && (fills t <? 2) = false
         | Return v t' BankedAfterPick =>
             is_ai p = false /\ interactive = true /\ score <> 0
             /\ (exists ts tc, t' = keep rl ts tc t)
             /\ v = turn_points t'
             /\ points p' = points p + turn_points t'
         | Return _ _ Skipped => False
         end.

(** A pick that takes every scoring die of its roll. *)
Definition full_pick (pk : pick) : Prop :=
  pk_score pk = fst (score_dice (pk_roll pk))
  /\ pk_count pk = Counter.total (snd (score_dice (pk_roll pk)))
  /\ pk_score pk <> 0.

(** Points the turn adds to the player's cumulative score, by the way it
    ended. *)
Definition credited (how : exit) (t : turn) : Z :=
  match how with
  | Skipped => 0
  | Busted => if must_bust (special t) then turn_points t else 0
  | BankedByAI =>
      turn_points t
      + (if negb (bonus (special t) =? 0) && (0 <? fills t)
         then bonus (special t) else 0)
  | BankedAtMenu | BankedAfterPick => turn_points t
  end.

(** The value [play_turn] returns, by the way the turn ended. *)
Definition returned_by (how : exit) (t : turn) : Z :=
  match how with
  | Skipped | Busted => 0
  | BankedByAI | BankedAtMenu | BankedAfterPick => turn_points t
  end.

(** What the automatic policy leaves in the log of picks. *)
Definition threshold_rule (thr : Z) (how : exit) (t : turn) : Prop :=
  match how with
  | BankedByAI =>
      exists last earlier,
        picks t = last :: earlier
        /\ Forall (fun pk => pk_total pk < thr) earlier
        /\ pk_total last = turn_points t
        /\ thr <= turn_points t
  | Busted => Forall (fun pk => pk_total pk < thr) (picks t)
  | Skipped => picks t = []
  | BankedAtMenu | BankedAfterPick => False
  end.

(** A turn changes neither who plays nor the settings of the game. *)
Definition same_seat (w w' : world) : Prop :=
  name (w_player w') = name (w_player w)
  /\ is_ai (w_player w') = is_ai (w_player w)
  /\ players (w_game w') = players (w_game w)
  /\ points_to_win (w_game w') = points_to_win (w_game w)
  /\ ai_threshold_points (w_game w') = ai_threshold_points (w_game w)
  /\ use_gui (w_game w') = use_gui (w_game w).

(** What a finished turn loop started from the locals [t] guarantees. *)
Definition turn_post (interactive : bool) (t : turn) (w : world)
    (out : outcome) (w' : world) : Prop :=
  let tf := final out in
  let how := how_ended out in
  bonus_once tf
  /\ same_card (special t) (special tf)
  /\ same_seat w w'
  /\ points (w_player w') = points (w_player w) + credited how tf
  /\ returned out = returned_by how tf
  /\ (is_ai (w_player w) || negb interactive = true -> Forall full_pick (picks tf))
  /\ (is_ai (w_player w) = true ->
      threshold_rule (ai_threshold_points (w_game w)) how tf).

(** At most one card effect is active. *)
Definition one_card (sp : special_state) : Prop :=
  (bonus sp <> 0 ->
   no_dice sp = false /\ must_bust sp = false /\ double_trouble sp = false)
  /\ (no_dice sp = true -> must_bust sp = false /\ double_trouble sp = false)
  /\ (must_bust sp = true -> double_trouble sp = false).

(** The result of a computation with the unread input replaced. *)
Definition with_stdin {A} (s : list string) (r : result (A * world)) : result (A * world) :=
  match r with
  | Ok (a, w) => Ok (a, {| w_game := w_game w; w_player := w_player w; w_stdin := s |})
  | Raise e => Raise e
  | OutOfFuel => OutOfFuel
  end.

(** A computation that neither reads the input nor depends on it. *)
Definition quiet {A} (m : M A) (g : Game) (p : Player) : Prop :=
  forall s1 s2,
    m {| w_game := g; w_player := p; w_stdin := s2 |}
    = with_stdin s2 (m {| w_game := g; w_player := p; w_stdin := s1 |}).

(** The result of a round or of a match with the unread input replaced. *)
Definition replace_input {A} (s : list string) (r : result (A * list string))
  : result (A * list string) :=
  match r with
  | Ok (a, _) => Ok (a, s)
  | Raise e => Raise e
  | OutOfFuel => OutOfFuel
  end.

(** Every player is driven by the automatic policy. *)
Definition automatic (interactive : bool) (ps : list Player) : Prop :=
  Forall (fun p => is_ai p || negb interactive = true) ps.

(** ** The passes of a turn *)

(** The roll made by a pass of the loop that starts with the locals [t] in
    the world [w]: [self.roll(dice_left)]. *)
Definition rolled (t : turn) (w : world) : list Z :=
  fst (roll_dice (Z.to_nat (dice_left t)) (rng (w_game w))).

(** The locals a pass leaves behind. *)
Definition locals (s : step) : turn :=
  match s with
  | Continue t => t
  | Return _ t _ => t
  end.

(** The loop started with the locals [t] in the world [w] has made the
    rolls [rls], oldest first, each in a pass that went on to another
    roll, and now stands at the locals [tn] in the world [wn]: each pass
    starts where the one before it ended. *)
Inductive passes (interactive : bool)
  : turn -> world -> list (list Z) -> turn -> world -> Prop :=
| passes_here t w : passes interactive t w [] t w
| passes_next t w t1 w1 rls tn wn :
    loop_body interactive t w = Ok (Continue t1, w1) ->
    passes interactive t1 w1 rls tn wn ->
    passes interactive t w (rolled t w :: rls) tn wn.

(** The same for the turn that starts in the world [w]: its card is drawn
    and read, it is not NoDice, and the loop has run from six dice. *)
Definition at_pass (interactive : bool) (w : world) (rls : list (list Z))
    (t : turn) (w1 : world) : Prop :=
  exists c w0 sp,
    draw_card w = Ok (c, w0)
    /\ read_card c w0 = Ok (sp, w0)
    /\ no_dice sp = false
    /\ passes interactive (turn_start sp) w0 rls t w1.

(** What a pick of [tc] dice worth [ts] out of the roll [rl] does to the
    locals, in numbers: the dice taken leave the hand, a hand that falls to
    0 is a fill and is made 6 again, the score joins the turn total, and
    the bonus of the card joins it at the first fill and at no other. *)
Definition picked (rl : list Z) (ts tc : Z) (t t' : turn) : Prop :=
  let d := dice_left t - tc in
  dice_left t' = (if d =? 0 then 6 else d)
  /\ fills t' = fills t + (if d =? 0 then 1 else 0)
  /\ turn_points t'
     = turn_points t + ts
       + (if (d =? 0) && (fills t =? 0) then bonus (special t) else 0)
  /\ same_card (special t) (special t')
  /\ picks t'
     = {| pk_roll := rl; pk_score := ts; pk_count := tc;
          pk_total := turn_points t' |} :: picks t.

(** The acknowledgement of a bust goes through: nobody is asked (an AI
    player, a game that is not interactive), a dialog is shown, or a line
    reading [y] waits on the keyboard. *)
Definition acknowledged (interactive : bool) (w : world) : Prop :=
  interactive && negb (is_ai (w_player w)) = false
  \/ use_gui (w_game w) = true
  \/ is_Some (ack_lines (w_stdin w)).

(** [passes], run: the locals and the world reached through passes that
    make the rolls [rls] and go on, if there are such. *)
Fixpoint follow (interactive : bool) (t : turn) (w : world) (rls : list (list Z))
  : option (turn * world) :=
  match rls with
  | [] => Some (t, w)
  | rl :: rls' =>
      if bool_decide (rolled t w = rl) then
        match loop_body interactive t w with
        | Ok (Continue t1, w1) => follow interactive t1 w1 rls'
        | _ => None
        end
      else None
  end.

(** [at_pass], run. *)
Definition turn_at (interactive : bool) (w : world) (rls : list (list Z))
  : option (turn * world) :=
  match draw_card w with
  | Ok (c, w0) =>
      match read_card c w0 with
      | Ok (sp, w0') =>
          if no_dice sp then None else follow interactive (turn_start sp) w0' rls
      | _ => None
      end
  | _ => None
  end.

(** ** [main] *)

(** The parsed command line.  [a_gui] stands for [args.gui and
    TK_AVAILABLE]; the seed is an integer. *)
Record Args := {
  a_players : Z;
  a_gui : bool;
  a_ai : bool;
  a_ai_count : Z;
  a_ai_threshold_points : Z;
  a_points_to_win : Z;
  a_simulate : Z;
  a_seed : Z
}.

(** [ai_count = args.players if args.ai else args.ai_count] *)
Definition ai_count_of (a : Args) : Z :=
  if a_ai a then a_players a else a_ai_count a.

(** [l[:k]] : the first [k] elements, or all but the last [-k]. *)
Definition slice_to {A : Type} (k : Z) (l : list A) : list A :=
  if 0 <=? k then take (Z.to_nat k) l
  else take (Z.to_nat (Z.of_nat (length l) + k)) l.

(** [newname = input(...).strip(); if newname: p.name = newname] *)
Definition rename (line : string) (p : Player) : Player :=
  let newname := Py.strip line in
  if String.eqb newname "" then p
  else {| name := newname; is_ai := is_ai p; points := points p |}.

(** The name prompts, for the first [k] players of the list; the players
    renamed are those of the list itself. *)
Fixpoint ask_names (k : nat) (ps : list Player) (stdin : list string)
  : result (list Player * list string) :=
  match k, ps with
  | S k', p :: ps' =>
      match stdin with
      | [] => Raise Py.EOFError
      | line :: stdin' =>
          match ask_names k' ps' stdin' with
          | Ok (qs, rest) => Ok (rename line p :: qs, rest)
          | Raise e => Raise e
          | OutOfFuel => OutOfFuel
          end
      end
  | _, _ => Ok (ps, stdin)
  end.

(** [players = make_players(...)] followed by the loop over
    [players[:human_count]]. *)
Definition name_prompts (n ai_count : Z) (stdin : list string)
  : result (list Player * list string) :=
  let ps := make_players n ai_count in
  let human_count := n - ai_count in
  ask_names (length (slice_to human_count ps)) ps stdin.

(** The loop [for s in range(args.simulate)] with its tally [wins]. *)
Fixpoint simulate (n rounds fuel : nat) (a : Args) (wins : gmap string Z)
    (stdin : list string) : result (gmap string Z * list string) :=
  match n with
  | O => Ok (wins, stdin)
  | S n' =>
      let ps := make_players (a_players a) (ai_count_of a) in
      let game := Game_init ps (a_points_to_win a) (a_ai_threshold_points a)
                    (a_seed a) false in
      match run rounds fuel false game stdin with
      | Ok (winner, _, stdin1) =>
          simulate n' rounds fuel a
            (<[name winner := default 0 (wins !! name winner) + 1]> wins) stdin1
      | Raise e => Raise e
      | OutOfFuel => OutOfFuel
      end
  end.

(** What [main] has done when it returns: the tally it prints, or the
    match it played. *)
Inductive ended :=
| Simulated (wins : gmap string Z)
| Played (winner : Player) (g : Game).

(** [main], after [parse_args]. *)
Definition main (rounds fuel : nat) (a : Args) (stdin : list string)
  : result (ended * list string) :=
  if 0 <? a_simulate a then
    match simulate (Z.to_nat (a_simulate a)) rounds fuel a ∅ stdin with
    | Ok (wins, stdin1) => Ok (Simulated wins, stdin1)
    | Raise e => Raise e
    | OutOfFuel => OutOfFuel
    end
  else
    match name_prompts (a_players a) (ai_count_of a) stdin with
    | Ok (ps, stdin1) =>
        let game := Game_init ps (a_points_to_win a) (a_ai_threshold_points a)
                      (a_seed a) (a_gui a) in
        match run rounds fuel true game stdin1 with
        | Ok (winner, g, stdin2) => Ok (Played winner g, stdin2)
        | Raise e => Raise e
        | OutOfFuel => OutOfFuel
        end
    | Raise e => Raise e
    | OutOfFuel => OutOfFuel
    end.

(** ** Vocabulary of the further properties *)

(** Every card of the deck is one of the six names. *)
Definition good_deck (d : CardDeckSpecial) : Prop :=
  Forall (fun c => c ∈ deck_composition) (cards d).

(** Picks of positive score only. *)
Definition scoring_picks (t : turn) : Prop :=
  Forall (fun pk => 0 < pk_score pk /\ 1 <= pk_count pk) (picks t).


(** Between one and six dice are in hand, and every pick took at least one
    die and at most the dice of its roll, itself of at most six dice. *)
Definition dice_in_hand (t : turn) : Prop :=
  1 <= dice_left t <= 6
  /\ Forall (fun pk => 1 <= pk_count pk <= Z.of_nat (length (pk_roll pk))
                       /\ Z.of_nat (length (pk_roll pk)) <= 6) (picks t).

End Engine.

(** ** A concrete generator

    A linear congruential generator with a selection shuffle: enough to
    run the model on concrete seeds. *)

Module Lcg.

Definition next (s : Z) : Z := (s * 1103515245 + 12345) mod 2147483648.

Definition below (n : Z) (s : Z) : Z * Z :=
  let s1 := next s in ((s1 / 65536) mod n, s1).

Definition between (a b : Z) (s : Z) : Z * Z :=
  let '(v, s1) := below (b - a + 1) s in (a + v, s1).

Fixpoint shuffle_aux {A : Type} (n : nat) (l : list A) (s : Z) : list A * Z :=
  match n with
  | O => (l, s)
  | S k =>
      let '(j, s1) := below (Z.of_nat (length l)) s in
      match l !! Z.to_nat j with
      | Some x =>
          let '(rest, s2) := shuffle_aux k (delete (Z.to_nat j) l) s1 in
          (x :: rest, s2)
      | None => (l, s1)
      end
  end.

Definition select_shuffle {A : Type} (l : list A) (s : Z) : list A * Z :=
  shuffle_aux (length l) l s.

Lemma between_range a b s : a <= b -> a <= fst (between a b s) <= b.
Proof.
  intros Hab. unfold between, below. cbn.
  pose proof (Z.mod_pos_bound (next s / 65536) (b - a + 1)). lia.
Qed.

Lemma shuffle_aux_perm {A : Type} (n : nat) :
  forall (l : list A) s, Permutation (fst (shuffle_aux n l s)) l.
Proof.
  induction n as [|k IH]; intros l s; cbn; [reflexivity|].
  destruct (l !! Z.to_nat ((next s / 65536) mod Z.of_nat (length l))) as [x|] eqn:E;
    [|reflexivity].
  specialize (IH (delete (Z.to_nat ((next s / 65536) mod Z.of_nat (length l))) l) (next s)).
  destruct (shuffle_aux k _ (next s)) as [rest s2]. cbn in *.
  rewrite IH. symmetry. by apply delete_Permutation.
Qed.

#[export] Instance source : RandomSource Z := {|
  Random := fun sd => sd mod 2147483648;
  randint := between;
  shuffle := @select_shuffle;
  randint_range := between_range;
  shuffle_perm := fun A l s => shuffle_aux_perm (length l) l s
|}.

(** A seat at a two-player table: the player [P1] about to take the first
    turn of a game built from seed [sd], with [inp] waiting on the
    keyboard. *)
Definition seat (thr sd : Z) (ai : bool) (inp : list string) : @world Z :=
  {| w_game := Game_init (make_players 2 (if ai then 2 else 0)) 2000 thr sd false;
     w_player := {| name := "P1"; is_ai := ai; points := 0 |};
     w_stdin := inp |}.

(** What a turn leaves when it returns (the start of the turn stands in
    for a turn that raises or runs out of fuel). *)
Definition finished (w : @world Z) (r : result (outcome * @world Z))
  : outcome * @world Z :=
  match r with
  | Ok ow => ow
  | _ => ({| returned := 0; final := turn_start no_special; how_ended := Skipped |}, w)
  end.

(** Seed 9, AI player: Bonus 500 is drawn, the roll [1;2;2;2;5;5] uses all
    six dice. *)
Definition filled_turn : outcome * @world Z :=
  Eval vm_compute in
    finished (seat 500 9 true []) (play_turn 10 false (seat 500 9 true [])).

(** Seed 30, AI player: MustBust is drawn, [4;5;3;1;2;2] gives 150, the
    next four dice score nothing. *)
Definition must_bust_turn : outcome * @world Z :=
  Eval vm_compute in
    finished (seat 500 30 true []) (play_turn 10 false (seat 500 30 true [])).

(** The turn of seed 1 (Bonus 300, first roll [3;5;4;2;2;6]) when the
    player answers [c], then [line], then [k] and [b]: the rolls the picks
    were taken from and the value returned. *)
Definition after_choice (line : string) : option (list (list Z) * Z) :=
  match play_turn 10 true (seat 500 1 false ["c"; line; "k"; "b"]) with
  | Ok (out, _) => Some (pk_roll <$> picks (final out), returned out)
  | _ => None
  end.

(** The match of seed 1 between two AI players, to 2000 points: the
    winner, the game and the input it leaves. *)
Definition ai_match : @Player * @Game Z * list string :=
  Eval vm_compute in
    match run 50 50 false (Game_init (make_players 2 2) 2000 500 1 false) [] with
    | Ok r => r
    | _ => ({| name := ""; is_ai := false; points := 0 |},
            Game_init [] 0 0 0 false, [])
    end.

(** The command line [--players 2 --ai --simulate 3 --seed 1]. *)
Definition simulation : Args :=
  {| a_players := 2; a_gui := false; a_ai := true; a_ai_count := 0;
     a_ai_threshold_points := 500; a_points_to_win := 2000;
     a_simulate := 3; a_seed := 1 |}.

(** Three turns of an AI player, stopped before their last pass: where
    the turn stands, and what its next pass gives.

    Seed 83 with the threshold at 2000: Bonus 500; [6;1;1;5;6;6] uses six
    dice, the first fill; [6;4;2;2;5;2] uses four; the turn stands at two
    dice and 1600 points, and [1;1] is the second fill. *)
Definition ai_83 : @world Z := seat 2000 83 true [].

Definition reached (w : @world Z) (rls : list (list Z)) : turn * @world Z :=
  match turn_at false w rls with
  | Some x => x
  | None => (turn_start no_special, w)
  end.

Definition passed (x : turn * @world Z) : step * @world Z :=
  match loop_body false x.1 x.2 with
  | Ok y => y
  | _ => (Continue x.1, x.2)
  end.

Definition at_83 : turn * @world Z :=
  Eval vm_compute in reached ai_83 [[6; 1; 1; 5; 6; 6]; [6; 4; 2; 2; 5; 2]].

Definition after_83 : step * @world Z := Eval vm_compute in passed at_83.

(** Seed 30: MustBust; [4;5;3;1;2;2] gives 150 with two dice, and the
    four dice left roll [6;2;3;6]. *)
Definition ai_30 : @world Z := seat 500 30 true [].

Definition at_30 : turn * @world Z :=
  Eval vm_compute in reached ai_30 [[4; 5; 3; 1; 2; 2]].

Definition after_30 : step * @world Z := Eval vm_compute in passed at_30.

(** Seed 40: Bonus 300; [5;1;6;1;4;5] gives 300 with four dice, and the
    two dice left roll [1;5], a fill. *)
Definition ai_40 : @world Z := seat 500 40 true [].

Definition at_40 : turn * @world Z :=
  Eval vm_compute in reached ai_40 [[5; 1; 6; 1; 4; 5]].

Definition after_40 : step * @world Z := Eval vm_compute in passed at_40.

End Lcg.

(** * Theorems *)

(** ** Python built-ins *)

Example strip_lower_example : Py.lower (Py.strip "  K ") = "k".
Proof. reflexivity. Qed.

Example split_example : Py.split " 1  3 x" = ["1"; "3"; "x"].
Proof. reflexivity. Qed.

Example int_example :
  Py.int "12" = Some 12 /\ Py.int "-1" = Some (-1) /\ Py.int "1_0" = Some 10
  /\ Py.int "x" = None /\ Py.int "1__0" = None /\ Py.int "" = None.
Proof. repeat split; reflexivity. Qed.

Example replace_example : Py.replace "bonus300" "bonus" "" = "300".
Proof. reflexivity. Qed.

Example scoring_indices_example :
  scoring_indices [1; 5; 5; 5; 5; 2] = {[0; 1; 2; 3; 4]}
  /\ scoring_indices [6; 6; 6; 6; 2; 1] = {[0; 1; 2; 5]}.
Proof. split; vm_compute; reflexivity. Qed.


(** ** Scoring *)

Lemma counter_get_add m k n j :
  Counter.get (Counter.add m k n) j
  = if bool_decide (j = k) then Counter.get m k + n else Counter.get m j.
Proof.
  unfold Counter.add, Counter.get. case_bool_decide as E.
  - subst. by rewrite lookup_insert_eq.
  - by rewrite lookup_insert_ne.
Qed.

Lemma counter_get_insert (m : gmap Z Z) k n j :
  Counter.get (<[k := n]> m) j = if bool_decide (j = k) then n else Counter.get m j.
Proof.
  unfold Counter.get. case_bool_decide as E.
  - subst. by rewrite lookup_insert_eq.
  - by rewrite lookup_insert_ne.
Qed.

Lemma counter_of_list_get_from dice : forall m face,
  Counter.get (foldl (fun m v => Counter.add m v 1) m dice) face
  = Counter.get m face + ScoreSpec.occurrences face dice.
Proof.
  unfold ScoreSpec.occurrences.
  induction dice as [|v dice IH]; intros m face; cbn [foldl count_occ].
  - lia.
  - rewrite IH, counter_get_add.
    destruct (Z.eq_dec v face) as [->|Hne].
    + rewrite bool_decide_eq_true_2 by done. lia.
    + rewrite bool_decide_eq_false_2 by congruence. lia.
Qed.

Lemma counter_of_list_get dice face :
  Counter.get (Counter.of_list dice) face = ScoreSpec.occurrences face dice.
Proof.
  unfold Counter.of_list. rewrite counter_of_list_get_from.
  unfold Counter.get. by rewrite lookup_empty.
Qed.

(** What the [for face in range(1, 7)] loop has done after the faces [fs]. *)
Lemma three_of_a_kind_fold fs : forall st,
  NoDup fs ->
  let st' := foldl three_of_a_kind st fs in
  (forall g, Counter.get (sc_cnt st') g
             = if bool_decide (g ∈ fs) && (3 <=? Counter.get (sc_cnt st) g)
               then Counter.get (sc_cnt st) g - 3 else Counter.get (sc_cnt st) g)
  /\ sc_score st'
     = sc_score st
       + foldr Z.add 0
           ((fun f => if 3 <=? Counter.get (sc_cnt st) f
                      then ScoreSpec.three_worth f else 0) <$> fs)
  /\ (forall g, Counter.get (sc_used st') g
                = Counter.get (sc_used st) g
                  + if bool_decide (g ∈ fs) && (3 <=? Counter.get (sc_cnt st) g)
                    then 3 else 0).
Proof.
  induction fs as [|f fs IH]; intros st Hnd; cbn [foldl].
  - cbn. repeat split; intros;
      try rewrite bool_decide_eq_false_2 by apply not_elem_of_nil; cbn; lia.
  - apply NoDup_cons in Hnd as [Hf Hnd].
    destruct (IH (three_of_a_kind st f) Hnd) as (Hc & Hs & Hu). clear IH.
    assert (Hcf : forall g, Counter.get (sc_cnt (three_of_a_kind st f)) g
                 = if bool_decide (g = f) && (3 <=? Counter.get (sc_cnt st) f)
                   then Counter.get (sc_cnt st) f - 3 else Counter.get (sc_cnt st) g).
    { intros g. unfold three_of_a_kind.
      destruct (3 <=? Counter.get (sc_cnt st) f) eqn:E; cbn [sc_cnt].
      - rewrite counter_get_insert. by rewrite andb_true_r.
      - by rewrite andb_false_r. }
    assert (Huf : forall g, Counter.get (sc_used (three_of_a_kind st f)) g
                 = Counter.get (sc_used st) g
                   + if bool_decide (g = f) && (3 <=? Counter.get (sc_cnt st) f)
                     then 3 else 0).
    { intros g. unfold three_of_a_kind.
      destruct (3 <=? Counter.get (sc_cnt st) f) eqn:E; cbn [sc_used].
      - rewrite counter_get_add, andb_true_r. case_bool_decide; subst; lia.
      - rewrite andb_false_r. lia. }
    assert (Hsf : sc_score (three_of_a_kind st f)
                 = sc_score st + if 3 <=? Counter.get (sc_cnt st) f
                                 then ScoreSpec.three_worth f else 0).
    { unfold three_of_a_kind, ScoreSpec.three_worth.
      destruct (3 <=? Counter.get (sc_cnt st) f); cbn [sc_score]; lia. }
    split; [|split].
    + intros g. rewrite Hc, !Hcf.
      destruct (decide (g = f)) as [->|Hne].
      * rewrite (bool_decide_eq_false_2 (f ∈ fs)) by done.
        rewrite (bool_decide_eq_true_2 (f ∈ f :: fs)) by (apply elem_of_cons; by left).
        rewrite bool_decide_eq_true_2 by done. cbn.
        by destruct (3 <=? Counter.get (sc_cnt st) f).
      * rewrite (bool_decide_eq_false_2 (g = f)) by done. cbn [andb].
        destruct (decide (g ∈ fs)).
        -- rewrite !bool_decide_eq_true_2 by (by try (apply elem_of_cons; right)). done.
        -- rewrite !bool_decide_eq_false_2 by (rewrite ?not_elem_of_cons; try split; done). done.
    + rewrite Hs, Hsf. cbn [fmap list_fmap foldr].
      assert (Heq : (fun f0 => if 3 <=? Counter.get (sc_cnt (three_of_a_kind st f)) f0
                               then ScoreSpec.three_worth f0 else 0) <$> fs
                    = (fun f0 => if 3 <=? Counter.get (sc_cnt st) f0
                               then ScoreSpec.three_worth f0 else 0) <$> fs).
      { apply list_fmap_ext. intros i x Hx. cbn. rewrite Hcf.
        rewrite bool_decide_eq_false_2; [done|].
        intros ->. apply Hf. by eapply list_elem_of_lookup_2. }
      rewrite Heq. lia.
    + intros g. rewrite Hu, Huf, !Hcf.
      destruct (decide (g = f)) as [->|Hne].
      * rewrite (bool_decide_eq_false_2 (f ∈ fs)) by done.
        rewrite (bool_decide_eq_true_2 (f ∈ f :: fs)) by (apply elem_of_cons; by left).
        rewrite bool_decide_eq_true_2 by done. cbn.
        destruct (3 <=? Counter.get (sc_cnt st) f); lia.
      * rewrite (bool_decide_eq_false_2 (g = f)) by done. cbn [andb].
        destruct (decide (g ∈ fs)).
        -- rewrite !bool_decide_eq_true_2 by (by try (apply elem_of_cons; right)). lia.
        -- rewrite !bool_decide_eq_false_2 by (rewrite ?not_elem_of_cons; try split; done). lia.
Qed.

Lemma singles_cnt face worth st : sc_cnt (singles face worth st) = sc_cnt st.
Proof. unfold singles. by destruct (0 <? _). Qed.

Lemma singles_score face worth st :
  0 <= Counter.get (sc_cnt st) face ->
  sc_score (singles face worth st)
  = sc_score st + Counter.get (sc_cnt st) face * worth.
Proof.
  intros Hc. unfold singles.
  destruct (0 <? Counter.get (sc_cnt st) face) eqn:E; cbn [sc_score]; [done|].
  apply Z.ltb_ge in E. replace (Counter.get (sc_cnt st) face) with 0 by lia. lia.
Qed.

Lemma singles_used face worth st g :
  0 <= Counter.get (sc_cnt st) face ->
  Counter.get (sc_used (singles face worth st)) g
  = Counter.get (sc_used st) g
    + if bool_decide (g = face) then Counter.get (sc_cnt st) face else 0.
Proof.
  intros Hc. unfold singles.
  destruct (0 <? Counter.get (sc_cnt st) face) eqn:E; cbn [sc_used].
  - rewrite counter_get_add. case_bool_decide; subst; lia.
  - apply Z.ltb_ge in E. case_bool_decide; lia.
Qed.

Lemma occurrences_nonneg face dice : 0 <= ScoreSpec.occurrences face dice.
Proof. unfold ScoreSpec.occurrences. lia. Qed.

Lemma faces_nodup : NoDup [1; 2; 3; 4; 5; 6].
Proof.
  repeat (apply NoDup_cons; split;
          [rewrite ?elem_of_cons, elem_of_nil; lia|]).
  apply NoDup_nil_2.
Qed.

Lemma face_cases (face : Z) :
  face ∈ [1; 2; 3; 4; 5; 6] <-> 1 <= face <= 6.
Proof. rewrite !elem_of_cons, elem_of_nil. lia. Qed.

Lemma face_in_range face :
  1 <= face <= 6 -> bool_decide (face ∈ [1; 2; 3; 4; 5; 6]) = true.
Proof. intros H. apply bool_decide_eq_true_2. by apply face_cases. Qed.

(** [score_dice] computes the specification's per-face rule. *)
Lemma score_dice_points dice : fst (score_dice dice) = ScoreSpec.points dice.
Proof.
  unfold score_dice. cbn [fst].
  set (st0 := {| sc_cnt := Counter.of_list dice; sc_score := 0; sc_used := ∅ |}).
  destruct (three_of_a_kind_fold [1; 2; 3; 4; 5; 6] st0 faces_nodup) as (Hc & Hs & _).
  set (st1 := foldl three_of_a_kind st0 [1; 2; 3; 4; 5; 6]) in *.
  assert (H1 : 0 <= Counter.get (sc_cnt st1) 1).
  { rewrite Hc. cbn [sc_cnt st0]. rewrite counter_of_list_get.
    pose proof (occurrences_nonneg 1 dice).
    destruct (_ && _) eqn:E; [|lia]. apply andb_prop in E as [_ E]. lia. }
  assert (H5 : 0 <= Counter.get (sc_cnt st1) 5).
  { rewrite Hc. cbn [sc_cnt st0]. rewrite counter_of_list_get.
    pose proof (occurrences_nonneg 5 dice).
    destruct (_ && _) eqn:E; [|lia]. apply andb_prop in E as [_ E]. lia. }
  rewrite singles_score by (by rewrite singles_cnt).
  rewrite singles_cnt, singles_score by done.
  rewrite Hs, !Hc. cbn [sc_cnt sc_score st0]. rewrite !counter_of_list_get.
  unfold ScoreSpec.points. cbn [fmap list_fmap foldr].
  rewrite !counter_of_list_get.
  rewrite !face_in_range by lia. cbn [andb].
  unfold ScoreSpec.face_points, ScoreSpec.single_worth, ScoreSpec.three_worth.
  cbn [Z.eqb Pos.eqb].
  repeat match goal with |- context [3 <=? ?c] => destruct (3 <=? c) end; lia.
Qed.

Lemma score_dice_consumed dice face :
  Counter.get (snd (score_dice dice)) face = ScoreSpec.consumed dice face.
Proof.
  unfold score_dice. cbn [snd].
  set (st0 := {| sc_cnt := Counter.of_list dice; sc_score := 0; sc_used := ∅ |}).
  destruct (three_of_a_kind_fold [1; 2; 3; 4; 5; 6] st0 faces_nodup) as (Hc & _ & Hu).
  set (st1 := foldl three_of_a_kind st0 [1; 2; 3; 4; 5; 6]) in *.
  assert (Hpos : forall f, 0 <= Counter.get (sc_cnt st1) f).
  { intros f. rewrite Hc. cbn [sc_cnt st0]. rewrite counter_of_list_get.
    pose proof (occurrences_nonneg f dice).
    destruct (_ && _) eqn:E; [|lia]. apply andb_prop in E as [_ E]. lia. }
  rewrite singles_used by (rewrite singles_cnt; apply Hpos).
  rewrite singles_cnt, singles_used by apply Hpos.
  rewrite Hu, !Hc. cbn [sc_cnt sc_used st0]. rewrite !counter_of_list_get.
  rewrite !(face_in_range 1), !(face_in_range 5) by lia.
  cbn [andb].
  replace (Counter.get ∅ face) with 0 by (unfold Counter.get; by rewrite lookup_empty).
  unfold ScoreSpec.consumed, ScoreSpec.face_consumed.
  destruct (bool_decide (face ∈ [1; 2; 3; 4; 5; 6])) eqn:Hin.
  - apply bool_decide_eq_true_1, face_cases in Hin.
    assert (Hf : face = 1 \/ face = 2 \/ face = 3 \/ face = 4 \/ face = 5 \/ face = 6)
      by lia.
    destruct Hf as [->|[->|[->|[->|[->| ->]]]]]; cbn;
      repeat case_bool_decide; try lia;
      repeat match goal with |- context [3 <=? ?c] => destruct (3 <=? c) end; lia.
  - apply bool_decide_eq_false_1 in Hin. rewrite face_cases in Hin.
    rewrite !bool_decide_eq_false_2 by lia. cbn. lia.
Qed.

(** C1. For every roll, [score_dice] returns the sum over the faces 1 to 6
    of the per-face rule: a face with at least three occurrences has
    exactly three dice consumed for 1000 (face 1) or face*100, whatever
    the number of extra dice; every remaining 1 scores 100 and every
    remaining 5 scores 50; remaining 2s, 3s, 4s and 6s score nothing.  The
    consumed counts follow the same rule, and the four examples of the
    specification hold. *)
Theorem C1_score_dice_rule :
  (forall dice : list Z,
     fst (score_dice dice) = ScoreSpec.points dice
     /\ forall face, Counter.get (snd (score_dice dice)) face
                     = ScoreSpec.consumed dice face)
  /\ fst (score_dice [1; 1; 1; 1]) = 1100
  /\ fst (score_dice [6; 6; 6; 6]) = 600
  /\ fst (score_dice [2; 3; 4; 6]) = 0
  /\ score_dice [1; 5] = (150, {[1 := 1; 5 := 1]}).
Proof.
  split; [|repeat split; vm_compute; reflexivity].
  intros dice. split; [apply score_dice_points|apply score_dice_consumed].
Qed.

(** ** The deck *)

Section DeckFacts.
Context {rng_state : Type} `{RS : !RandomSource rng_state}.

Lemma deck_composition_length : length deck_composition = 20%nat.
Proof. reflexivity. Qed.

Lemma init_cards_perm sd : Permutation (cards (CardDeckSpecial_init sd)) deck_composition.
Proof.
  unfold CardDeckSpecial_init.
  pose proof (shuffle_perm _ deck_composition (Random sd)) as Hp.
  destruct (shuffle deck_composition (Random sd)) as [cs r]. exact Hp.
Qed.

Lemma init_cards_length sd : length (cards (CardDeckSpecial_init sd)) = 20%nat.
Proof. rewrite (Permutation_length (init_cards_perm sd)). reflexivity. Qed.

Lemma init_seed sd : seed (CardDeckSpecial_init sd) = sd.
Proof.
  unfold CardDeckSpecial_init.
  by destruct (shuffle deck_composition (Random sd)).
Qed.

Lemma init_is_full sd : CardDeckSpecial_init sd = deck_at sd 20.
Proof.
  unfold deck_at. rewrite firstn_all2 by (rewrite init_cards_length; lia).
  pose proof (init_seed sd) as Hs.
  destruct (CardDeckSpecial_init sd) as [s r c]. cbn in *. by subst.
Qed.

Lemma pop_snoc {A} (l : list A) x : pop (l ++ [x]) = Some (x, l).
Proof. unfold pop. by rewrite last_snoc, removelast_last. Qed.

Lemma draw_nonempty d l x :
  cards d = l ++ [x] ->
  draw d = Ok (x, {| seed := seed d; deck_rng := deck_rng d; cards := l |}).
Proof.
  intros E. destruct d as [s r c]. cbn in E. subst c.
  unfold draw. cbn [cards seed deck_rng].
  destruct l as [|a l]; cbn [app cards seed deck_rng].
  - reflexivity.
  - pose proof (pop_snoc (a :: l) x) as Hp. cbn [app] in Hp. by rewrite Hp.
Qed.

Lemma draw_empty d l x :
  cards d = [] ->
  cards (CardDeckSpecial_init (seed d)) = l ++ [x] ->
  draw d = Ok (x, {| seed := seed (CardDeckSpecial_init (seed d));
                     deck_rng := deck_rng (CardDeckSpecial_init (seed d));
                     cards := l |}).
Proof.
  intros E0 E. unfold draw. rewrite E0, E. by rewrite pop_snoc.
Qed.

Lemma draw_deck_at sd j :
  (j <= 20)%nat ->
  exists c, cards (CardDeckSpecial_init sd) !! next_pos j = Some c
            /\ draw (deck_at sd j) = Ok (c, deck_at sd (next_pos j)).
Proof.
  intros Hj.
  assert (Hlt : (next_pos j < length (cards (CardDeckSpecial_init sd)))%nat).
  { rewrite init_cards_length. destruct j; cbn; lia. }
  destruct (lookup_lt_is_Some_2 _ _ Hlt) as [c Hc].
  exists c. split; [done|].
  pose proof (take_S_r _ _ _ Hc) as Ht.
  destruct j as [|j']; cbn [next_pos] in *.
  - rewrite (draw_empty _ (take 19 (cards (CardDeckSpecial_init sd))) c).
    + cbn [deck_at seed]. by rewrite init_seed.
    + reflexivity.
    + cbn [deck_at seed]. rewrite <- Ht.
      symmetry. apply firstn_all2. rewrite init_cards_length. lia.
  - by rewrite (draw_nonempty _ (take j' (cards (CardDeckSpecial_init sd))) c).
Qed.

Lemma draws_deck_at sd k : forall j,
  (j <= 20)%nat ->
  exists cs j',
    (j' <= 20)%nat
    /\ draws k (deck_at sd j) = Ok (cs, deck_at sd j')
    /\ length cs = k
    /\ forall i, (i < k)%nat ->
         cs !! i = cards (CardDeckSpecial_init sd)
                     !! Z.to_nat ((Z.of_nat j - 1 - Z.of_nat i) mod 20).
Proof.
  induction k as [|k IH]; intros j Hj.
  - exists [], j. cbn. repeat split; [done|]. intros i Hi. lia.
  - destruct (draw_deck_at sd j Hj) as (c & Hc & Hd).
    assert (Hn : (next_pos j <= 20)%nat) by (destruct j; cbn; lia).
    destruct (IH (next_pos j) Hn) as (cs & j' & Hj' & Hds & Hlen & Hcs).
    exists (c :: cs), j'. cbn [draws]. rewrite Hd, Hds.
    repeat split; [done|cbn; lia|].
    intros [|i] Hi; cbn [lookup list_lookup].
    + rewrite <- Hc. f_equal. destruct j as [|j0]; cbn [next_pos].
      * reflexivity.
      * rewrite Z.mod_small by lia. lia.
    + change ((c :: cs) !! S i) with (cs !! i).
      rewrite Hcs by lia. f_equal. f_equal.
      destruct j as [|j0]; cbn [next_pos].
      * replace (Z.of_nat 0 - 1 - Z.of_nat (S i)) with (19 - 1 - Z.of_nat i + (-1) * 20) by lia.
        by rewrite Z.mod_add.
      * f_equal. lia.
Qed.

(** C8. For every seed and every number of draws [k], the [k] calls to
    [draw()] on a deck built from that seed all succeed: an empty deck is
    rebuilt from the seed, never raising.  The sequence drawn is fixed by
    the seed: draw number [i] is the card at position [19 - i mod 20] of
    the seed's shuffle, so draw [i + 20] repeats draw [i] across every
    reshuffle, and every full pass of 20 draws is a permutation of the
    fixed 20-card composition. *)
Theorem C8_deck_draws_forever (sd : Z) (k : nat) :
  exists cs d,
    draws k (CardDeckSpecial_init sd) = Ok (cs, d)
    /\ length cs = k
    /\ (forall i, (i < k)%nat ->
          cs !! i = cards (CardDeckSpecial_init sd) !! (19 - i mod 20)%nat)
    /\ (forall i, (i + 20 < k)%nat -> cs !! (i + 20)%nat = cs !! i)
    /\ (forall m, (20 * (m + 1) <= k)%nat ->
          Permutation (take 20 (drop (20 * m) cs)) deck_composition).
Proof.
  destruct (draws_deck_at sd k 20 (le_n 20)) as (cs & j' & Hj' & Hd & Hlen & Hcs).
  exists cs, (deck_at sd j'). rewrite init_is_full at 1.
  assert (Hpos : forall i, (i < k)%nat ->
            cs !! i = cards (CardDeckSpecial_init sd) !! (19 - i mod 20)%nat).
  { intros i Hi. rewrite Hcs by done. f_equal.
    pose proof (Nat.mod_upper_bound i 20 ltac:(lia)) as Hb.
    pose proof (Nat.div_mod_eq i 20) as Hdm.
    set (q := (i / 20)%nat) in *. set (r := (i mod 20)%nat) in *.
    replace (Z.of_nat 20 - 1 - Z.of_nat i)
      with (Z.of_nat (19 - r) + (- Z.of_nat q) * 20) by lia.
    rewrite Z.mod_add by lia. rewrite Z.mod_small by lia. apply Nat2Z.id. }
  split; [exact Hd|]. split; [exact Hlen|]. split; [exact Hpos|]. split.
  - intros i Hi. rewrite !Hpos by lia. do 2 f_equal.
    replace (i + 20)%nat with (i + 1 * 20)%nat by lia. by rewrite Nat.Div0.mod_add.
  - intros m Hm.
    assert (Heq : take 20 (drop (20 * m) cs) = reverse (cards (CardDeckSpecial_init sd))).
    { apply list_eq. intros i.
      destruct (decide (i < 20)%nat) as [Hi|Hi].
      - rewrite lookup_take_lt, lookup_drop by done.
        rewrite Hpos by lia.
        rewrite reverse_lookup by (rewrite init_cards_length; lia).
        rewrite init_cards_length. f_equal.
        replace (20 * m + i)%nat with (i + m * 20)%nat by lia.
        rewrite Nat.Div0.mod_add. rewrite Nat.mod_small by lia. lia.
      - rewrite lookup_take_ge by lia. symmetry.
        apply lookup_ge_None. rewrite length_reverse, init_cards_length. lia. }
    rewrite Heq, reverse_Permutation. apply init_cards_perm.
Qed.

End DeckFacts.

(** ** One turn *)

Section TurnFacts.
Context {rng_state : Type} `{RS : !RandomSource rng_state}.

Lemma keep_same_card rl ts tc t : same_card (special t) (special (keep rl ts tc t)).
Proof.
  unfold keep, same_card.
  destruct (dice_left t - tc =? 0); [|done].
  by destruct (negb (bonus (special t) =? 0) && negb (bonus_added (special t))).
Qed.

Lemma keep_picks rl ts tc t :
  picks (keep rl ts tc t)
  = {| pk_roll := rl; pk_score := ts; pk_count := tc;
       pk_total := turn_points (keep rl ts tc t) |} :: picks t.
Proof.
  unfold keep. cbn [picks turn_points].
  destruct (dice_left t - tc =? 0); [|done].
  by destruct (negb (bonus (special t) =? 0) && negb (bonus_added (special t))).
Qed.

Lemma keep_bonus_once rl ts tc t : bonus_once t -> bonus_once (keep rl ts tc t).
Proof.
  intros (Hf & Hb & Hp). unfold bonus_once. rewrite keep_picks.
  unfold sum_scores in *. cbn [fmap list_fmap foldr pk_score].
  unfold keep. cbn [fills special turn_points].
  destruct (dice_left t - tc =? 0);
    [destruct (bonus (special t) =? 0) eqn:Eb;
     [apply Z.eqb_eq in Eb|apply Z.eqb_neq in Eb];
     destruct (bonus_added (special t)) eqn:Ea|];
    cbn [negb andb fills special turn_points bonus bonus_added];
    rewrite ?Ea; intuition (try discriminate; try lia).
Qed.

Lemma bonus_once_start sp : bonus_added sp = false -> bonus_once (turn_start sp).
Proof.
  intros H. unfold bonus_once, turn_start. cbn. rewrite H.
  intuition (try discriminate; try lia).
Qed.

Ltac unfold_turn_in H :=
  cbv beta iota zeta delta
    [loop_body bind ret raise roll get_player get_game when add_points
     read_choice _prompt _ack lift w_game w_player w_stdin
     rng players points_to_win ai_threshold_points card_deck use_gui
     name is_ai points] in H.

#[local] Opaque keep score_dice.

Lemma loop_body_post interactive t w s w' :
  loop_body interactive t w = Ok (s, w') -> body_post interactive t w s w'.
Proof.
  intros H. destruct w as [g p stdin]. destruct g as [ps ptw thr r d gui].
  destruct p as [nm ai pts].
  unfold_turn_in H.
  destruct (roll_dice (Z.to_nat (dice_left t)) r) as [rl r'] eqn:Er.
  destruct (score_dice rl) as [score used] eqn:Es.
  repeat (case_match; cbv beta iota in H; simplify_eq);
    unfold body_post;
    cbn [w_game w_player w_stdin name is_ai points players points_to_win
         ai_threshold_points rng card_deck use_gui];
    do 7 (split; [reflexivity|]); exists rl; (split; [done|]);
    rewrite Es; cbn [fst snd].
  all: repeat match goal with
       | H : _ && _ = true |- _ => apply andb_prop in H as [? ?]
       | H : _ || _ = false |- _ => apply orb_false_elim in H as [? ?]
       | H : negb _ = true |- _ => apply negb_true_iff in H
       | H : negb _ = false |- _ => apply negb_false_iff in H
       | H : (_ =? _) = true |- _ => apply Z.eqb_eq in H
       | H : (_ =? _) = false |- _ => apply Z.eqb_neq in H
       | H : (_ <=? _) = true |- _ => apply Z.leb_le in H
       | H : (_ <=? _) = false |- _ => apply Z.leb_gt in H
       end; subst.
  all: repeat match goal with
       | H : ?x = _ |- context [?x] => rewrite H
       end.
  all: repeat split; try done; try lia; eauto 10.
  - by rewrite (proj2 (Z.eqb_neq _ _) H).
  - intros ->. cbn [andb] in *. by apply Z.leb_gt.
  - right. eexists _, _. split; [reflexivity|]. by intros [=].
Qed.

#[local] Transparent keep score_dice.

Lemma same_card_trans a b c : same_card a b -> same_card b c -> same_card a c.
Proof. unfold same_card. intuition congruence. Qed.

Lemma turn_loop_post interactive fuel : forall t w out w',
  turn_loop fuel interactive t w = Ok (out, w') ->
  bonus_once t ->
  (is_ai (w_player w) || negb interactive = true -> Forall full_pick (picks t)) ->
  (is_ai (w_player w) = true ->
   Forall (fun pk => pk_total pk < ai_threshold_points (w_game w)) (picks t)) ->
  how_ended out <> Skipped /\ card_deck (w_game w') = card_deck (w_game w)
  /\ turn_post interactive t w out w'.
Proof.
  induction fuel as [|k IH]; intros t w out w' H Hb Hfull Hthr; [done|].
  cbn [turn_loop] in H. unfold bind at 1 in H.
  destruct (loop_body interactive t w) as [[s w1]| |] eqn:Hbody; try done.
  apply loop_body_post in Hbody.
  destruct Hbody as (Hn & Hai & Hps & Hptw & Hth & Hdeck & Hgui & rl & Hroll & Hs).
  cbv zeta in Hs.
  destruct s as [t1|v t1 how].
  - destruct Hs as (Hpts & Hsc & Hkeep & Hlow).
    assert (Hb1 : bonus_once t1).
    { destruct Hkeep as [(-> & _)|(ts & tc & -> & _)]; [done|by apply keep_bonus_once]. }
    assert (Hc1 : same_card (special t) (special t1)).
    { destruct Hkeep as [(-> & _)|(ts & tc & -> & _)];
        [by unfold same_card|apply keep_same_card]. }
    assert (Hfull1 : is_ai (w_player w1) || negb interactive = true ->
                     Forall full_pick (picks t1)).
    { rewrite Hai. intros Hpol.
      destruct Hkeep as [(-> & _)|(ts & tc & -> & Hp)]; [by apply Hfull|].
      destruct (Hp Hpol) as [-> ->]. rewrite keep_picks.
      apply Forall_cons; split; [by unfold full_pick|by apply Hfull]. }
    assert (Hthr1 : is_ai (w_player w1) = true ->
              Forall (fun pk => pk_total pk < ai_threshold_points (w_game w1)) (picks t1)).
    { rewrite Hai, Hth. intros Hisai.
      destruct Hkeep as [(-> & _)|(ts & tc & -> & Hp)]; [by apply Hthr|].
      rewrite keep_picks. apply Forall_cons; split; [by apply Hlow|by apply Hthr]. }
    destruct (IH t1 w1 out w' H Hb1 Hfull1 Hthr1) as (Hne & Hd' & Hpost).
    split; [done|]. split; [congruence|].
    destruct Hpost as (P1 & P2 & P3 & P4 & P5 & P6 & P7).
    unfold turn_post. cbv zeta.
    split; [done|]. split; [by eapply same_card_trans|].
    split; [unfold same_seat in *; intuition congruence|].
    split; [congruence|]. split; [done|].
    split; [by rewrite <- Hai|]. rewrite <- Hai, <- Hth. done.
  - unfold ret in H. simplify_eq. cbn [how_ended final returned].
    assert (Hseat : same_seat w w') by (by unfold same_seat).
    unfold turn_post. cbn [how_ended final returned].
    destruct how; try done.
    + destruct Hs as (-> & -> & Hsc & Hpts).
      split; [done|]. split; [done|]. split; [done|].
      split; [by unfold same_card|]. split; [done|]. split; [rewrite Hpts; cbn [credited]; lia|].
      split; [done|]. split; [done|]. intros Hisai. by apply Hthr.
    + destruct Hs as (Hisai & Hsc & -> & Hge & -> & Hpts).
      split; [done|]. split; [done|]. split; [by apply keep_bonus_once|].
      split; [apply keep_same_card|]. split; [done|]. split; [rewrite Hpts; cbn [credited]; lia|].
      split; [done|]. split.
      * intros _. rewrite keep_picks. apply Forall_cons; split;
          [by unfold full_pick|apply Hfull; by rewrite Hisai].
      * intros _. cbn [threshold_rule]. rewrite keep_picks. eexists _, _.
        split; [reflexivity|]. split; [by apply Hthr|]. split; [reflexivity|].
        exact Hge.
    + destruct Hs as (Hisai & -> & Hsc & -> & -> & Hpts & Hdt).
      split; [done|]. split; [done|]. split; [done|].
      split; [by unfold same_card|]. split; [done|]. split; [rewrite Hpts; cbn [credited]; lia|].
      split; [done|]. rewrite Hisai. split; intros [=].
    + destruct Hs as (Hisai & -> & Hsc & (ts & tc & ->) & -> & Hpts).
      split; [done|]. split; [done|]. split; [by apply keep_bonus_once|].
      split; [apply keep_same_card|]. split; [done|]. split; [rewrite Hpts; cbn [credited]; lia|].
      split; [done|]. rewrite Hisai. split; intros [=].
Qed.

Lemma read_card_ok c (w : @world rng_state) sp w' :
  read_card c w = Ok (sp, w') ->
  w' = w /\ bonus_added sp = false /\ one_card sp.
Proof.
  unfold read_card, ret, raise, no_special, one_card. intros H.
  repeat (case_match; simplify_eq); cbn; intuition congruence.
Qed.

Lemma same_card_one a b : same_card a b -> one_card a -> one_card b.
Proof.
  unfold same_card, one_card. intros (-> & -> & -> & ->). tauto.
Qed.

Lemma draw_card_ok w c w' :
  draw_card w = Ok (c, w') ->
  exists d, draw (card_deck (w_game w)) = Ok (c, d)
            /\ card_deck (w_game w') = d
            /\ rng (w_game w') = rng (w_game w)
            /\ w_player w' = w_player w /\ w_stdin w' = w_stdin w
            /\ same_seat w w'.
Proof.
  unfold draw_card. intros H.
  destruct (draw (card_deck (w_game w))) as [[c0 d]| |]; simplify_eq.
  exists d. cbn. by unfold same_seat.
Qed.

Lemma same_seat_trans (a b c : @world rng_state) :
  same_seat a b -> same_seat b c -> same_seat a c.
Proof. unfold same_seat. intuition congruence. Qed.

Lemma play_turn_post interactive fuel w out w' :
  play_turn fuel interactive w = Ok (out, w') ->
  exists c d sp (w1 : @world rng_state),
    draw (card_deck (w_game w)) = Ok (c, d)
    /\ card_deck (w_game w') = d
    /\ read_card c w1 = Ok (sp, w1)
    /\ one_card (special (final out))
    /\ (how_ended out = Skipped <-> no_dice sp = true)
    /\ turn_post interactive (turn_start sp) w out w'.
Proof.
  unfold play_turn. unfold bind at 1. intros H.
  destruct (draw_card w) as [[c w1]| |] eqn:Hd; try done.
  apply draw_card_ok in Hd as (d & Hd & Hdeck & Hrng & Hpl & Hin & Hseat).
  unfold bind at 1 in H.
  destruct (read_card c w1) as [[sp w2]| |] eqn:Hr; try done.
  pose proof Hr as Hr'.
  apply read_card_ok in Hr' as (-> & Hadded & Hone).
  exists c, d, sp, w1. split; [done|].
  destruct (no_dice sp) eqn:Hnd.
  - assert (Hw : w_game w' = w_game w1 /\ w_player w' = w_player w1
                 /\ out = {| returned := 0; final := turn_start sp; how_ended := Skipped |}).
    { unfold bind, get_player, when, _ack, ret in H.
      repeat (case_match; simplify_eq); done. }
    destruct Hw as (Hg & Hp & ->). cbn [final how_ended returned].
    rewrite Hg. split; [done|]. split; [done|]. split; [done|]. split; [done|].
    unfold turn_post. cbn [final how_ended returned credited returned_by].
    rewrite Hp, Hpl.
    repeat split; try done; try (by apply bonus_once_start); try lia;
      try (cbn; by constructor); unfold same_seat in *; rewrite ?Hg, ?Hp, ?Hpl; tauto.
  - assert (Hpre1 : is_ai (w_player w1) || negb interactive = true ->
                    Forall full_pick (picks (turn_start sp))) by (intros; constructor).
    assert (Hpre2 : is_ai (w_player w1) = true ->
              Forall (fun pk => pk_total pk < ai_threshold_points (w_game w1))
                     (picks (turn_start sp))) by (intros; constructor).
    destruct (turn_loop_post _ _ _ _ _ _ H (bonus_once_start sp Hadded) Hpre1 Hpre2)
      as (Hne & Hdk & Hpost).
    split; [congruence|]. split; [done|].
    destruct Hpost as (P1 & P2 & P3 & P4 & P5 & P6 & P7).
    split; [by eapply same_card_one|].
    split; [split; [done|intros [=]]|].
    unfold turn_post. cbv zeta.
    split; [done|]. split; [done|].
    split; [by eapply same_seat_trans|].
    split; [by rewrite <- Hpl|]. split; [done|].
    destruct Hseat as (_ & _ & _ & _ & Hth & _).
    rewrite <- Hpl, <- Hth. done.
Qed.

End TurnFacts.

(** ** Turns and matches that never read the input *)

Section MatchFacts.
Context {rng_state : Type} `{RS : !RandomSource rng_state}.

Ltac unfold_turn :=
  cbv beta iota zeta delta
    [loop_body bind ret raise roll get_player get_game when add_points
     read_choice _prompt _ack lift w_game w_player w_stdin with_stdin
     rng players points_to_win ai_threshold_points card_deck use_gui
     name is_ai points].

Lemma bind_eq {A B} (m : M A) (k : A -> M B) (w : @world rng_state) :
  bind m k w = match m w with
               | Ok (a, w1) => k a w1
               | Raise e => Raise e
               | OutOfFuel => OutOfFuel
               end.
Proof. reflexivity. Qed.

#[local] Opaque keep score_dice.

Lemma loop_body_quiet interactive t g p :
  is_ai p || negb interactive = true -> quiet (loop_body interactive t) g p.
Proof.
  intros Hq s1 s2. destruct g as [ps ptw thr r d gui]. destruct p as [nm ai pts].
  cbn [is_ai] in Hq. unfold_turn.
  destruct (roll_dice (Z.to_nat (dice_left t)) r) as [rl r'].
  destruct (score_dice rl) as [score used].
  destruct ai, interactive; try discriminate Hq; cbn [andb orb negb];
    repeat (match goal with
            | |- context [if ?c then _ else _] => destruct c
            end; cbv beta iota);
    reflexivity.
Qed.

#[local] Transparent keep score_dice.

Lemma turn_loop_quiet interactive fuel : forall t g p,
  is_ai p || negb interactive = true -> quiet (turn_loop fuel interactive t) g p.
Proof.
  induction fuel as [|k IH]; intros t g p Hq s1 s2; [done|].
  cbn [turn_loop]. rewrite !bind_eq.
  rewrite (loop_body_quiet interactive t g p Hq s1 s2).
  destruct (loop_body interactive t {| w_game := g; w_player := p; w_stdin := s1 |})
    as [[s w1]| |] eqn:Hbody; [|done|done].
  apply loop_body_post in Hbody. destruct Hbody as (_ & Hai & _).
  cbn [w_player] in Hai. cbn [with_stdin].
  destruct s as [t1|v t1 how]; [|done].
  destruct w1 as [g1 p1 s1']. cbn [w_game w_player w_stdin] in *.
  apply IH. by rewrite Hai.
Qed.

Lemma play_turn_quiet interactive fuel g p :
  is_ai p || negb interactive = true -> quiet (play_turn fuel interactive) g p.
Proof.
  intros Hq s1 s2. unfold play_turn. rewrite !bind_eq. unfold draw_card.
  cbn [w_game w_player w_stdin].
  destruct (draw (card_deck g)) as [[c d]| |]; [|done|done].
  rewrite !bind_eq.
  set (g1 := {| players := players g; points_to_win := points_to_win g;
                ai_threshold_points := ai_threshold_points g; rng := rng g;
                card_deck := d; use_gui := use_gui g |}).
  assert (Hrc : forall s, read_card c {| w_game := g1; w_player := p; w_stdin := s |}
                = match read_card c {| w_game := g1; w_player := p; w_stdin := [] |} with
                  | Ok (sp, _) => Ok (sp, {| w_game := g1; w_player := p; w_stdin := s |})
                  | Raise e => Raise e
                  | OutOfFuel => OutOfFuel
                  end).
  { intros s. unfold read_card, ret, raise. repeat case_match; simplify_eq; done. }
  rewrite (Hrc s1), (Hrc s2).
  destruct (read_card c {| w_game := g1; w_player := p; w_stdin := [] |})
    as [[sp w]| |]; [|done|done].
  destruct (no_dice sp).
  - rewrite !bind_eq. unfold get_player, when, ret. cbn [w_player w_game w_stdin].
    rewrite !bind_eq.
    assert (Hno : negb (is_ai p) && interactive = false)
      by (destruct (is_ai p), interactive; done).
    by rewrite Hno.
  - by apply turn_loop_quiet.
Qed.

Lemma play_round_automatic interactive fuel todo : forall g s r g1 s',
  play_round fuel interactive todo g s = Ok (r, g1, s') ->
  automatic interactive (players g) -> automatic interactive (players g1).
Proof.
  induction todo as [|i todo IH]; intros g s r g1 s' H Hauto; cbn [play_round] in H.
  - by simplify_eq.
  - destruct (players g !! i) as [p|] eqn:Hp; [|by simplify_eq].
    destruct (play_turn fuel interactive {| w_game := g; w_player := p; w_stdin := s |})
      as [[o w]| |] eqn:Ht; [|done|done].
    apply play_turn_post in Ht as (_ & _ & _ & _ & _ & _ & _ & _ & _ & _ & _ & Hseat & _).
    destruct Hseat as (_ & Hai & Hps & _). cbn [w_game w_player] in *.
    assert (Hauto1 : automatic interactive (<[i := w_player w]> (players (w_game w)))).
    { rewrite Hps. apply Forall_insert; [done|]. rewrite Hai.
      by eapply (Forall_lookup_1 _ _ _ _ Hauto). }
    destruct (points_to_win _ <=? points (w_player w)).
    + by simplify_eq.
    + by eapply IH.
Qed.

Lemma play_round_quiet interactive fuel todo : forall g s1 s2,
  automatic interactive (players g) ->
  play_round fuel interactive todo g s2
  = replace_input s2 (play_round fuel interactive todo g s1).
Proof.
  induction todo as [|i todo IH]; intros g s1 s2 Hauto; cbn [play_round]; [done|].
  destruct (players g !! i) as [p|] eqn:Hp; [|done].
  assert (Hq : is_ai p || negb interactive = true)
    by (by eapply (Forall_lookup_1 _ _ _ _ Hauto)).
  rewrite (play_turn_quiet interactive fuel g p Hq s1 s2).
  destruct (play_turn fuel interactive {| w_game := g; w_player := p; w_stdin := s1 |})
    as [[o w]| |] eqn:Ht; [|done|done].
  cbn [with_stdin w_game w_player w_stdin].
  destruct (points_to_win _ <=? points (w_player w)); [done|].
  apply IH.
  apply play_turn_post in Ht as (_ & _ & _ & _ & _ & _ & _ & _ & _ & _ & _ & Hseat & _).
  destruct Hseat as (_ & Hai & Hps & _). cbn [w_game w_player] in *.
  cbn [set_players players]. rewrite Hps. apply Forall_insert; [done|]. by rewrite Hai.
Qed.

Lemma run_quiet interactive fuel rounds : forall g s1 s2,
  automatic interactive (players g) ->
  run rounds fuel interactive g s2 = replace_input s2 (run rounds fuel interactive g s1).
Proof.
  induction rounds as [|k IH]; intros g s1 s2 Hauto; cbn [run]; [done|].
  rewrite (play_round_quiet interactive fuel _ g s1 s2 Hauto).
  destruct (play_round fuel interactive (seq 0 (length (players g))) g s1)
    as [[[r g1] s1']| |] eqn:Hr; [|done|done].
  cbn [replace_input]. destruct r as [p|]; [done|].
  apply IH. by eapply play_round_automatic.
Qed.

End MatchFacts.

(** ** The passes of a turn, one after the other *)

Section TurnPasses.
Context {rng_state : Type} `{RS : !RandomSource rng_state}.

Lemma keep_picked rl ts tc t : bonus_once t -> picked rl ts tc t (keep rl ts tc t).
Proof.
  intros (Hf & Hb & _). unfold picked. cbv zeta.
  split; [|split; [|split; [|split; [apply keep_same_card|apply keep_picks]]]].
  - unfold keep. cbn [dice_left].
    destruct (dice_left t - tc =? 0); [|done].
    by destruct (negb (bonus (special t) =? 0) && negb (bonus_added (special t))).
  - unfold keep. cbn [fills].
    destruct (dice_left t - tc =? 0); [|cbn [fills]; lia].
    by destruct (negb (bonus (special t) =? 0) && negb (bonus_added (special t))).
  - unfold keep. cbn [turn_points].
    destruct (dice_left t - tc =? 0); cbn [andb turn_points]; [|lia].
    destruct (Z.eqb_spec (bonus (special t)) 0) as [E0|Hne],
             (bonus_added (special t)) eqn:Ea,
             (Z.eqb_spec (fills t) 0) as [E1|Hn1];
      cbn [negb andb turn_points]; lia.
Qed.

Lemma bonus_once_closed t :
  bonus_once t ->
  turn_points t
  = sum_scores (picks t) + (if 0 <? fills t then bonus (special t) else 0).
Proof.
  intros (Hf & Hb & Htp). rewrite Htp.
  destruct (bonus_added (special t)) eqn:Ea;
    destruct (Z.ltb_spec 0 (fills t)) as [Hpos|Hle]; lia.
Qed.

Lemma roll_dice_length n : forall r : rng_state, length (fst (roll_dice n r)) = n.
Proof.
  induction n as [|k IH]; intros r; cbn [roll_dice]; [done|].
  destruct (randint 1 6 r) as [v r1]. specialize (IH r1).
  destruct (roll_dice k r1) as [vs r2]. cbn in *. by rewrite IH.
Qed.

Lemma rolled_eq t (w : @world rng_state) rl r :
  roll_dice (Z.to_nat (dice_left t)) (rng (w_game w)) = (rl, r) -> rolled t w = rl.
Proof. unfold rolled. by intros ->. Qed.

Lemma passes_snoc interactive t (w : @world rng_state) rls tn wn t2 w2 :
  passes interactive t w rls tn wn ->
  loop_body interactive tn wn = Ok (Continue t2, w2) ->
  passes interactive t w (rls ++ [rolled tn wn]) t2 w2.
Proof.
  induction 1 as [t w|t w t1 w1 rls tn wn Hb Hp IH]; intros Hn.
  - cbn [app]. eapply passes_next; [exact Hn|apply passes_here].
  - cbn [app]. eapply passes_next; [exact Hb|by apply IH].
Qed.

(** The loop follows the passes: it returns what the first pass that
    returns gives, as soon as the fuel covers the passes before it. *)
Lemma turn_loop_run interactive t (w : @world rng_state) rls tn wn v tf how w' :
  passes interactive t w rls tn wn ->
  loop_body interactive tn wn = Ok (Return v tf how, w') ->
  forall fuel, (length rls < fuel)%nat ->
    turn_loop fuel interactive t w
    = Ok ({| returned := v; final := tf; how_ended := how |}, w').
Proof.
  induction 1 as [t w|t w t1 w1 rls tn wn Hb Hp IH]; intros Hr fuel Hlen;
    (destruct fuel as [|k]; [cbn [length] in Hlen; lia|]); cbn [turn_loop];
    rewrite bind_eq.
  - by rewrite Hr.
  - rewrite Hb. apply IH; [done|]. cbn [length] in Hlen. lia.
Qed.

Lemma turn_loop_trace interactive fuel : forall t (w : @world rng_state) out w',
  turn_loop fuel interactive t w = Ok (out, w') ->
  exists rls tn wn,
    (length rls < fuel)%nat
    /\ passes interactive t w rls tn wn
    /\ loop_body interactive tn wn
       = Ok (Return (returned out) (final out) (how_ended out), w').
Proof.
  induction fuel as [|k IH]; intros t w out w' H; [done|].
  cbn [turn_loop] in H. rewrite bind_eq in H.
  destruct (loop_body interactive t w) as [[s w1]| |] eqn:Hb; [|done|done].
  destruct s as [t1|v t1 how].
  - destruct (IH _ _ _ _ H) as (rls & tn & wn & Hlen & Hp & Hr).
    exists (rolled t w :: rls), tn, wn. split; [cbn [length]; lia|].
    split; [by eapply passes_next|done].
  - unfold ret in H. injection H as <- <-. cbn [returned final how_ended].
    exists [], t, w. split; [cbn [length]; lia|]. split; [apply passes_here|done].
Qed.

Lemma play_turn_loop interactive fuel (w : @world rng_state) c w0 sp :
  draw_card w = Ok (c, w0) ->
  read_card c w0 = Ok (sp, w0) ->
  no_dice sp = false ->
  play_turn fuel interactive w = turn_loop fuel interactive (turn_start sp) w0.
Proof.
  intros Hd Hr Hn. unfold play_turn. rewrite bind_eq, Hd, bind_eq, Hr.
  by rewrite Hn.
Qed.

(** What the passes made so far leave: the invariant of the locals, the
    seat and the points untouched, and a log of picks taken from the rolls
    made, in order; under the automatic policy every roll made has its
    pick, which takes all the scoring dice. *)
Lemma passes_inv interactive t (w : @world rng_state) rls tn wn :
  passes interactive t w rls tn wn ->
  bonus_once t ->
  bonus_once tn
  /\ same_card (special t) (special tn)
  /\ same_seat w wn
  /\ points (w_player wn) = points (w_player w)
  /\ exists new,
       picks tn = new ++ picks t
       /\ sublist (reverse (pk_roll <$> new)) rls
       /\ (is_ai (w_player w) || negb interactive = true ->
           reverse (pk_roll <$> new) = rls /\ Forall full_pick new)
       /\ (is_ai (w_player w) = true ->
           Forall (fun pk => pk_total pk < ai_threshold_points (w_game w)) new).
Proof.
  induction 1 as [t w|t w t1 w1 rls tn wn Hb Hp IH]; intros Hinv.
  - split; [done|]. split; [by unfold same_card|]. split; [by unfold same_seat|].
    split; [done|]. exists []. split; [done|]. split; [constructor|].
    split; [intros _; split; [done|constructor]|intros _; constructor].
  - apply loop_body_post in Hb.
    destruct Hb as (Hn & Hai & Hps & Hptw & Hth & Hdeck & Hgui & rl & Hroll & Hs).
    cbv zeta in Hs. destruct Hs as (Hpts & Hsc & Hkeep & Hlow).
    rewrite (rolled_eq _ _ _ _ Hroll).
    assert (Hseat : same_seat w w1) by (by unfold same_seat).
    assert (Hinv1 : bonus_once t1).
    { destruct Hkeep as [(-> & _)|(ts & tc & -> & _)]; [done|by apply keep_bonus_once]. }
    destruct (IH Hinv1) as (Hinvn & Hcard & Hseatn & Hptsn & new & Hnew & Hsub & Hauto & Hthr).
    split; [done|]. split.
    { eapply same_card_trans; [|exact Hcard].
      destruct Hkeep as [(-> & _)|(ts & tc & -> & _)];
        [by unfold same_card|apply keep_same_card]. }
    split; [by eapply same_seat_trans|]. split; [congruence|].
    destruct Hkeep as [(-> & Hh & Hi)|(ts & tc & -> & Hp1)].
    + exists new. split; [done|]. split; [by apply sublist_cons|].
      split; [intros Ha; rewrite Hh, Hi in Ha; discriminate|].
      intros Ha. rewrite Hh in Ha. discriminate.
    + rewrite keep_picks in Hnew.
      set (pk := {| pk_roll := rl; pk_score := ts; pk_count := tc;
                    pk_total := turn_points (keep rl ts tc t) |}) in *.
      exists (new ++ [pk]).
      assert (Hrev : reverse (pk_roll <$> (new ++ [pk]))
                     = rl :: reverse (pk_roll <$> new)).
      { rewrite fmap_app, reverse_app. reflexivity. }
      split; [by rewrite <- app_assoc|]. rewrite Hrev.
      split; [by apply sublist_skip|]. split.
      * intros Ha. destruct (Hp1 Ha) as [-> ->].
        rewrite <- Hai in Ha. destruct (Hauto Ha) as [-> Hfull].
        split; [done|]. apply Forall_app. split; [done|].
        apply Forall_singleton. by unfold full_pick.
      * intros Ha. apply Forall_app. split.
        -- rewrite <- Hth. apply Hthr. by rewrite Hai.
        -- apply Forall_singleton. cbn [pk_total]. by apply Hlow.
Qed.

(** The same for a whole turn, with the closed form of the turn total. *)
Lemma at_pass_inv interactive (w : @world rng_state) rls t w1 :
  at_pass interactive w rls t w1 ->
  bonus_once t
  /\ one_card (special t)
  /\ same_seat w w1
  /\ points (w_player w1) = points (w_player w)
  /\ turn_points t
     = sum_scores (picks t) + (if 0 <? fills t then bonus (special t) else 0)
  /\ sublist (reverse (pk_roll <$> picks t)) rls
  /\ (is_ai (w_player w) || negb interactive = true ->
      reverse (pk_roll <$> picks t) = rls /\ Forall full_pick (picks t))
  /\ (is_ai (w_player w) = true ->
      Forall (fun pk => pk_total pk < ai_threshold_points (w_game w)) (picks t)).
Proof.
  intros (c & w0 & sp & Hd & Hr & Hn & Hp).
  apply draw_card_ok in Hd as (d & _ & _ & _ & Hpl & _ & Hseat0).
  apply read_card_ok in Hr as (_ & Hadd & Hone).
  destruct (passes_inv _ _ _ _ _ _ Hp (bonus_once_start sp Hadd))
    as (Hinv & Hcard & Hseat & Hpts & new & Hnew & Hsub & Hauto & Hthr).
  cbn [turn_start picks] in Hnew. rewrite app_nil_r in Hnew. subst new.
  cbn [turn_start special] in Hcard.
  destruct Hseat0 as (S1 & S2 & S3 & S4 & S5 & S6).
  split; [done|]. split; [by eapply same_card_one|].
  split; [eapply same_seat_trans; [|exact Hseat]; by unfold same_seat|].
  split; [by rewrite Hpts, Hpl|]. split.
  { destruct Hinv as (Hf & Hb & Htp). rewrite Htp.
    destruct (bonus_added (special t)) eqn:Ea;
      destruct (Z.ltb_spec 0 (fills t)) as [Hpos|Hle]; lia. }
  split; [done|]. rewrite <- S2, <- S5. by rewrite Hpl in *.
Qed.

(** What one pass does, in numbers. *)
Lemma pass_facts interactive t (w : @world rng_state) s w' :
  loop_body interactive t w = Ok (s, w') ->
  bonus_once t ->
  rng (w_game w') = snd (roll_dice (Z.to_nat (dice_left t)) (rng (w_game w)))
  /\ same_seat w w'
  /\ (locals s = t \/ exists ts tc, picked (rolled t w) ts tc t (locals s))
  /\ bonus_once (locals s)
  /\ match s with
     | Continue _ => points (w_player w') = points (w_player w)
     | Return v t1 how =>
         how <> Skipped /\ v = returned_by how t1
         /\ points (w_player w') = points (w_player w) + credited how t1
     end.
Proof.
  intros Hb Hinv. apply loop_body_post in Hb.
  destruct Hb as (Hn & Hai & Hps & Hptw & Hth & Hdeck & Hgui & rl & Hroll & Hs).
  cbv zeta in Hs. rewrite (rolled_eq _ _ _ _ Hroll). rewrite Hroll. cbn [snd].
  split; [done|]. split; [by unfold same_seat|].
  destruct s as [t1|v t1 how]; cbn [locals].
  - destruct Hs as (Hpts & Hsc & Hkeep & _).
    destruct Hkeep as [(-> & _)|(ts & tc & -> & Hp1)].
    + split; [by left|]. by split.
    + split; [|split; [by apply keep_bonus_once|done]].
      right. exists ts, tc. by apply keep_picked.
  - destruct how; try done.
    + destruct Hs as (-> & -> & Hsc & Hpts).
      split; [by left|]. split; [done|]. split; [done|]. split; [done|].
      by rewrite Hpts.
    + destruct Hs as (Hisai & Hsc & -> & Hge & -> & Hpts).
      split; [right; eexists _, _; by apply keep_picked|].
      split; [by apply keep_bonus_once|]. split; [done|]. split; [done|].
      rewrite Hpts. cbn [credited]. lia.
    + destruct Hs as (Hisai & -> & Hsc & -> & -> & Hpts & Hdt).
      split; [by left|]. split; [done|]. split; [done|]. split; [done|].
      by rewrite Hpts.
    + destruct Hs as (Hisai & -> & Hsc & (ts & tc & ->) & -> & Hpts).
      split; [right; eexists _, _; by apply keep_picked|].
      split; [by apply keep_bonus_once|]. split; [done|]. split; [done|].
      by rewrite Hpts.
Qed.

Lemma follow_passes interactive rls : forall t (w : @world rng_state) tn wn,
  follow interactive t w rls = Some (tn, wn) -> passes interactive t w rls tn wn.
Proof.
  induction rls as [|rl rls IH]; intros t w tn wn H; cbn [follow] in H.
  - injection H as <- <-. apply passes_here.
  - case_bool_decide as Hrl; [|done]. subst rl.
    destruct (loop_body interactive t w) as [[[t1|v t1 how] w1]| |] eqn:Hb;
      try discriminate H.
    eapply passes_next; [exact Hb|by apply IH].
Qed.

Lemma turn_at_pass interactive (w : @world rng_state) rls t w1 :
  turn_at interactive w rls = Some (t, w1) -> at_pass interactive w rls t w1.
Proof.
  unfold turn_at. intros H.
  destruct (draw_card w) as [[c w0]| |] eqn:Hd; try discriminate H.
  destruct (read_card c w0) as [[sp w0']| |] eqn:Hr; try discriminate H.
  pose proof Hr as Hr'. apply read_card_ok in Hr' as (-> & _).
  destruct (no_dice sp) eqn:Hn; [discriminate H|].
  exists c, w0, sp. split; [done|]. split; [done|]. split; [done|].
  by apply follow_passes.
Qed.

Ltac unfold_pass_body :=
  cbv beta iota zeta delta
    [loop_body bind ret raise roll get_player get_game when add_points
     read_choice _prompt _ack lift w_game w_player w_stdin
     rng players points_to_win ai_threshold_points card_deck use_gui
     name is_ai points].

#[local] Opaque keep score_dice.

(** Under the automatic policy a pass always goes through, and reads
    nothing. *)
Lemma loop_body_auto interactive t (w : @world rng_state) :
  is_ai (w_player w) || negb interactive = true ->
  exists s w2, loop_body interactive t w = Ok (s, w2) /\ w_stdin w2 = w_stdin w.
Proof.
  destruct w as [g p stdin]. destruct g as [ps ptw thr r d gui].
  destruct p as [nm ai pts]. cbn [w_player is_ai]. intros Hq. unfold_pass_body.
  destruct (roll_dice (Z.to_nat (dice_left t)) r) as [rl r'].
  destruct (score_dice rl) as [score used].
  destruct ai, interactive; try discriminate Hq; cbn [andb orb negb];
    repeat (match goal with
            | |- context [if ?c then _ else _] => destruct c
            end; cbv beta iota);
    eexists _, _; (split; [reflexivity|reflexivity]).
Qed.

(** A roll that scores nothing ends the turn there, once the bust is
    acknowledged. *)
Lemma loop_body_bust interactive t (w : @world rng_state) :
  fst (score_dice (rolled t w)) = 0 ->
  acknowledged interactive w ->
  exists w2, loop_body interactive t w = Ok (Return 0 t Busted, w2).
Proof.
  destruct w as [g p stdin]. destruct g as [ps ptw thr r d gui].
  destruct p as [nm ai pts]. unfold rolled, acknowledged.
  cbn [w_game w_player w_stdin rng is_ai use_gui]. intros Hz Hack. unfold_pass_body.
  destruct (roll_dice (Z.to_nat (dice_left t)) r) as [rl r'].
  cbn [fst] in Hz. destruct (score_dice rl) as [score used]. cbn [fst] in Hz.
  subst score. cbn [Z.eqb].
  destruct (must_bust (special t)); cbv beta iota;
    destruct interactive, ai; cbn [andb negb] in *; cbv beta iota;
    try (eexists; reflexivity);
    destruct gui; cbv beta iota; try (eexists; reflexivity);
    destruct (ack_lines stdin) as [ls|]; cbv beta iota; try (eexists; reflexivity);
    destruct Hack as [?|[?|[? ?]]]; discriminate.
Qed.

#[local] Transparent keep score_dice.

End TurnPasses.

(** ** Statements about every turn *)

Section TurnClaims.
Context {rng_state : Type} `{RS : !RandomSource rng_state}.


(** C5 (amended). A roll that scores nothing ends the turn there, MustBust
    or not, and [play_turn] returns 0, never the turn points: at whatever
    pass of a turn the roll of the [dice_left] dice scores 0, and once the
    bust is acknowledged, that pass returns 0 with the locals as they are
    and so does [play_turn].  With MustBust active the points accumulated
    so far, which are the scores of the picks made at the earlier rolls,
    are added to the player's cumulative score; without it nothing is
    added. *)
Theorem C5_bust_returns_zero interactive (w : @world rng_state) rls t w1 :
  at_pass interactive w rls t w1 ->
  fst (score_dice (rolled t w1)) = 0 ->
  acknowledged interactive w1 ->
  exists w2,
    loop_body interactive t w1 = Ok (Return 0 t Busted, w2)
    /\ (forall fuel, (length rls < fuel)%nat ->
          play_turn fuel interactive w
          = Ok ({| returned := 0; final := t; how_ended := Busted |}, w2))
    /\ points (w_player w2)
       = points (w_player w)
         + (if must_bust (special t) then turn_points t else 0)
    /\ turn_points t
       = sum_scores (picks t) + (if 0 <? fills t then bonus (special t) else 0)
    /\ (must_bust (special t) = true -> turn_points t = sum_scores (picks t))
    /\ sublist (reverse (pk_roll <$> picks t)) rls
    /\ (is_ai (w_player w) || negb interactive = true ->
        reverse (pk_roll <$> picks t) = rls /\ Forall full_pick (picks t)).
Proof.
  intros Hat Hz Hack.
  pose proof (at_pass_inv _ _ _ _ _ Hat)
    as (Hinv & Hone & Hseat & Hpts & Hclosed & Hsub & Hauto & _).
  destruct (loop_body_bust _ _ _ Hz Hack) as [w2 Hb].
  destruct (pass_facts _ _ _ _ _ Hb Hinv) as (_ & _ & _ & _ & Hs).
  destruct Hs as (_ & _ & Hcred). cbn [credited] in Hcred.
  exists w2. split; [done|]. split.
  { intros fuel Hlen. destruct Hat as (c & w0 & sp & Hd & Hr & Hn & Hp).
    rewrite (play_turn_loop _ _ _ _ _ _ Hd Hr Hn). by eapply turn_loop_run. }
  split; [lia|]. split; [done|]. split; [|by split].
  intros Hmb. rewrite Hclosed.
  destruct Hone as (Hex & _).
  destruct (Z.eq_dec (bonus (special t)) 0) as [->|Hne];
    [destruct (0 <? fills t); lia|].
  destruct (Hex Hne) as (_ & Hmb' & _). congruence.
Qed.

(** C6. The turn of an AI player, pass by pass.  Every roll made so far
    has its pick, which took all the scoring dice of the roll and left the
    turn total below the threshold.  The next pass reads nothing: a roll
    that scores nothing ends the turn as a bust; otherwise the AI takes all
    the scoring dice of the roll, and banks at once if the turn total has
    reached the threshold, else rolls again.  At the bank the cumulative
    score grows by [turn_points], and by the bonus once more when a Bonus
    card is active and a fill happened, the bonus being inside
    [turn_points] since the fill; [play_turn] returns [turn_points]. *)
Theorem C6_ai_policy interactive (w : @world rng_state) rls t w1 :
  is_ai (w_player w) = true ->
  at_pass interactive w rls t w1 ->
  let thr := ai_threshold_points (w_game w) in
  let b := bonus (special t) in
  let rl := rolled t w1 in
  let score := fst (score_dice rl) in
  let used := Counter.total (snd (score_dice rl)) in
  reverse (pk_roll <$> picks t) = rls
  /\ Forall full_pick (picks t)
  /\ Forall (fun pk => pk_total pk < thr) (picks t)
  /\ exists s w2,
       loop_body interactive t w1 = Ok (s, w2)
       /\ w_stdin w2 = w_stdin w1
       /\ (if score =? 0 then
             s = Return 0 t Busted
             /\ points (w_player w2)
                = points (w_player w)
                  + (if must_bust (special t) then turn_points t else 0)
           else
             let t' := locals s in
             picked rl score used t t'
             /\ turn_points t'
                = sum_scores (picks t') + (if 0 <? fills t' then b else 0)
             /\ if thr <=? turn_points t' then
                  s = Return (turn_points t') t' BankedByAI
                  /\ points (w_player w2)
                     = points (w_player w) + turn_points t'
                       + (if negb (b =? 0) && (0 <? fills t') then b else 0)
                else
                  s = Continue t'
                  /\ points (w_player w2) = points (w_player w)
                  /\ at_pass interactive w (rls ++ [rl]) t' w2)
       /\ forall v tf how, s = Return v tf how ->
            forall fuel, (length rls < fuel)%nat ->
              play_turn fuel interactive w
              = Ok ({| returned := v; final := tf; how_ended := how |}, w2).
Proof.
  intros Hai Hat. cbv zeta.
  pose proof (at_pass_inv _ _ _ _ _ Hat)
    as (Hinv & Hone & Hseat & Hpts & Hclosed & _ & Hauto & Hthr).
  destruct Hseat as (_ & Hai1 & _ & _ & Hth1 & _).
  assert (Hq : is_ai (w_player w) || negb interactive = true) by (by rewrite Hai).
  destruct (Hauto Hq) as [Hlog Hfull].
  split; [done|]. split; [done|]. split; [by apply Hthr|].
  assert (Hq1 : is_ai (w_player w1) || negb interactive = true)
    by (by rewrite Hai1, Hai).
  destruct (loop_body_auto interactive t w1 Hq1) as (s & w2 & Hb & Hin).
  exists s, w2. split; [done|]. split; [done|]. split.
  - pose proof Hb as Hpost. apply loop_body_post in Hpost.
    destruct Hpost as (_ & _ & _ & _ & _ & _ & _ & rl & Hroll & Hs).
    cbv zeta in Hs. rewrite (rolled_eq _ _ _ _ Hroll).
    assert (Hpicked : fst (score_dice rl) <> 0 ->
              let t1 := keep rl (fst (score_dice rl))
                          (Counter.total (snd (score_dice rl))) t in
              picked rl (fst (score_dice rl)) (Counter.total (snd (score_dice rl))) t t1
              /\ turn_points t1
                 = sum_scores (picks t1)
                   + (if 0 <? fills t1 then bonus (special t) else 0)).
    { intros _. cbv zeta. split; [by apply keep_picked|].
      pose proof (keep_same_card rl (fst (score_dice rl))
                    (Counter.total (snd (score_dice rl))) t) as (Hbon & _).
      rewrite <- Hbon. apply bonus_once_closed. by apply keep_bonus_once. }
    destruct s as [t1|v t1 how]; cbn [locals].
    + destruct Hs as (Hp2 & Hsc & Hkeep & Hlow).
      rewrite (proj2 (Z.eqb_neq _ _) Hsc).
      destruct Hkeep as [(_ & Hh & _)|(ts & tc & -> & Hp1)];
        [rewrite Hai1, Hai in Hh; discriminate Hh|].
      destruct (Hp1 Hq1) as [-> ->].
      destruct (Hpicked Hsc) as [Hpk Hcl]. split; [done|]. split; [done|].
      rewrite Hai1, Hai, Hth1 in Hlow. specialize (Hlow eq_refl).
      rewrite (proj2 (Z.leb_gt _ _) Hlow).
      split; [done|]. split; [lia|].
      destruct Hat as (c & w0 & sp & Hd & Hr & Hn & Hp).
      exists c, w0, sp. split; [done|]. split; [done|]. split; [done|].
      pose proof (passes_snoc _ _ _ _ _ _ _ _ Hp Hb) as Hp'.
      by rewrite (rolled_eq _ _ _ _ Hroll) in Hp'.
    + destruct how; [destruct Hs| | | |].
      * destruct Hs as (-> & -> & Hsc & Hp2). rewrite Hsc.
        change (0 =? 0) with true. cbv iota. split; [done|lia].
      * destruct Hs as (_ & Hsc & -> & Hge & -> & Hp2).
        rewrite (proj2 (Z.eqb_neq _ _) Hsc).
        destruct (Hpicked Hsc) as [Hpk Hcl]. split; [done|]. split; [done|].
        rewrite Hth1 in Hge. rewrite (proj2 (Z.leb_le _ _) Hge).
        split; [done|].
        pose proof (keep_same_card rl (fst (score_dice rl))
                      (Counter.total (snd (score_dice rl))) t) as (Hbon & _).
        rewrite Hp2, Hbon. lia.
      * destruct Hs as (Hh & _). rewrite Hai1, Hai in Hh. discriminate Hh.
      * destruct Hs as (Hh & _). rewrite Hai1, Hai in Hh. discriminate Hh.
  - intros v tf how -> fuel Hlen.
    destruct Hat as (c & w0 & sp & Hd & Hr & Hn & Hp).
    rewrite (play_turn_loop _ _ _ _ _ _ Hd Hr Hn). by eapply turn_loop_run.
Qed.

(** C9 (amended). A match between AI players built from a seed is replayed
    identically whatever waits on the keyboard: the winner and the final
    game are the same and the input is left unread.  The dice come from
    the game's generator and the shuffles from the deck's own generator;
    both are seeded with the same seed, rolling never touches the deck and
    drawing never touches the game's generator. *)
Theorem C9_ai_match_replays ps ptw thr sd gui rounds fuel interactive in1 in2 :
  Forall (fun p => is_ai p = true) ps ->
  let g := Game_init ps ptw thr sd gui in
  run rounds fuel interactive g in2
  = replace_input in2 (run rounds fuel interactive g in1)
  /\ rng g = Random sd
  /\ card_deck g = CardDeckSpecial_init sd
  /\ (forall n w vs w1,
        roll n w = Ok (vs, w1) -> card_deck (w_game w1) = card_deck (w_game w))
  /\ (forall w c w1,
        draw_card w = Ok (c, w1) -> rng (w_game w1) = rng (w_game w)).
Proof.
  intros Hai. cbv zeta. split; [|split; [done|split; [done|split]]].
  - apply run_quiet. unfold automatic. cbn [Game_init players].
    eapply Forall_impl; [exact Hai|]. intros p ->. done.
  - intros n w vs w1. unfold roll.
    destruct (roll_dice (Z.to_nat n) (rng (w_game w))). intros [= <- <-]. done.
  - intros w c w1 H. by apply draw_card_ok in H as (d & _ & _ & Hr & _).
Qed.

End TurnClaims.

(** ** Replays on the concrete generator *)

#[local] Existing Instance Lcg.source.

Lemma filled_turn_eq :
  play_turn 10 false (Lcg.seat 500 9 true [])
  = Ok (fst Lcg.filled_turn, snd Lcg.filled_turn).
Proof. vm_compute. reflexivity. Qed.

Lemma must_bust_turn_eq :
  play_turn 10 false (Lcg.seat 500 30 true [])
  = Ok (fst Lcg.must_bust_turn, snd Lcg.must_bust_turn).
Proof. vm_compute. reflexivity. Qed.

Lemma at_83_eq :
  turn_at false Lcg.ai_83 [[6; 1; 1; 5; 6; 6]; [6; 4; 2; 2; 5; 2]]
  = Some (fst Lcg.at_83, snd Lcg.at_83).
Proof. vm_compute. reflexivity. Qed.

Lemma after_83_eq :
  loop_body false (fst Lcg.at_83) (snd Lcg.at_83)
  = Ok (fst Lcg.after_83, snd Lcg.after_83).
Proof. vm_compute. reflexivity. Qed.

Lemma at_30_eq :
  turn_at false Lcg.ai_30 [[4; 5; 3; 1; 2; 2]] = Some (fst Lcg.at_30, snd Lcg.at_30).
Proof. vm_compute. reflexivity. Qed.

Lemma at_30_bust : fst (score_dice (rolled (fst Lcg.at_30) (snd Lcg.at_30))) = 0.
Proof. vm_compute. reflexivity. Qed.

Lemma at_40_eq :
  turn_at false Lcg.ai_40 [[5; 1; 6; 1; 4; 5]] = Some (fst Lcg.at_40, snd Lcg.at_40).
Proof. vm_compute. reflexivity. Qed.

Lemma after_40_eq :
  loop_body false (fst Lcg.at_40) (snd Lcg.at_40)
  = Ok (fst Lcg.after_40, snd Lcg.after_40).
Proof. vm_compute. reflexivity. Qed.


(** C5, as stated, fails: seed 30 deals MustBust to the first player; the
    first roll [4;5;3;1;2;2] gives 150, the next roll of four dice scores
    nothing.  The 150 points are credited, and the value returned is 0,
    not the 150 turn points. *)
Lemma C5_returns_turn_points_fails :
  match play_turn 10 false (Lcg.seat 500 30 true []) with
  | Ok (out, w') =>
      must_bust (special (final out)) = true
      /\ how_ended out = Busted
      /\ turn_points (final out) = 150
      /\ points (w_player w') = 150
      /\ returned out = 0
      /\ returned out <> turn_points (final out)
  | _ => False
  end.
Proof. vm_compute. repeat split; try reflexivity. discriminate. Qed.

(** The turn of seed 30, MustBust: after the pick of 150 the four dice
    left score nothing; the turn ends there, returns 0 and credits the
    150. *)
Lemma C5_bust_returns_zero_witness :
  at_pass false Lcg.ai_30 [[4; 5; 3; 1; 2; 2]] (fst Lcg.at_30) (snd Lcg.at_30)
  /\ fst (score_dice (rolled (fst Lcg.at_30) (snd Lcg.at_30))) = 0
  /\ acknowledged false (snd Lcg.at_30)
  /\ must_bust (special (fst Lcg.at_30)) = true
  /\ turn_points (fst Lcg.at_30) = 150
  /\ exists w2,
       loop_body false (fst Lcg.at_30) (snd Lcg.at_30)
       = Ok (Return 0 (fst Lcg.at_30) Busted, w2)
       /\ (forall fuel, (1 < fuel)%nat ->
             play_turn fuel false Lcg.ai_30
             = Ok ({| returned := 0; final := fst Lcg.at_30; how_ended := Busted |},
                   w2))
       /\ points (w_player w2) = points (w_player Lcg.ai_30) + 150.
Proof.
  assert (Hat : at_pass false Lcg.ai_30 [[4; 5; 3; 1; 2; 2]]
                  (fst Lcg.at_30) (snd Lcg.at_30))
    by exact (turn_at_pass _ _ _ _ _ at_30_eq).
  assert (Hack : acknowledged false (snd Lcg.at_30)) by (left; reflexivity).
  split; [exact Hat|]. split; [exact at_30_bust|]. split; [exact Hack|].
  split; [reflexivity|]. split; [reflexivity|].
  destruct (C5_bust_returns_zero false Lcg.ai_30 _ _ _ Hat at_30_bust Hack)
    as (w2 & H1 & H2 & H3 & _).
  exists w2. split; [exact H1|]. split; [exact H2|exact H3].
Defined.

(** The turn of seed 40, Bonus 300, threshold 500: the first roll was
    picked in full and left the total at 300; the pick of [1;5] fills,
    brings the total to 750 with the bonus, and the AI banks 750 and is
    credited 1050. *)
Lemma C6_ai_policy_witness :
  is_ai (w_player Lcg.ai_40) = true
  /\ at_pass false Lcg.ai_40 [[5; 1; 6; 1; 4; 5]] (fst Lcg.at_40) (snd Lcg.at_40)
  /\ loop_body false (fst Lcg.at_40) (snd Lcg.at_40)
     = Ok (fst Lcg.after_40, snd Lcg.after_40)
  /\ fst Lcg.after_40 = Return 750 (locals (fst Lcg.after_40)) BankedByAI
  /\ bonus (special (fst Lcg.at_40)) = 300
  /\ fills (locals (fst Lcg.after_40)) = 1
  /\ points (w_player (snd Lcg.after_40)) = 1050
  /\ reverse (pk_roll <$> picks (fst Lcg.at_40)) = [[5; 1; 6; 1; 4; 5]]
  /\ Forall full_pick (picks (fst Lcg.at_40))
  /\ Forall (fun pk => pk_total pk < 500) (picks (fst Lcg.at_40)).
Proof.
  assert (Hat : at_pass false Lcg.ai_40 [[5; 1; 6; 1; 4; 5]]
                  (fst Lcg.at_40) (snd Lcg.at_40))
    by exact (turn_at_pass _ _ _ _ _ at_40_eq).
  split; [reflexivity|]. split; [exact Hat|]. split; [exact after_40_eq|].
  split; [reflexivity|]. split; [reflexivity|]. split; [reflexivity|].
  split; [reflexivity|].
  pose proof (C6_ai_policy false Lcg.ai_40 _ _ _ eq_refl Hat) as H.
  cbv zeta in H. destruct H as (H1 & H2 & H3 & _).
  split; [exact H1|]. split; [exact H2|exact H3].
Defined.

(** C2. The code lets a MustBust turn be banked.  Seed 30 deals MustBust
    to the first player, who rolls [4;5;3;1;2;2].  Typing [k] then [b]
    banks the 150 points; typing [b] at the first menu ends the turn as
    banked at once.  Seed 16 also deals MustBust: after [k] and [r] the
    menu of the second roll accepts [b] and credits 50 points. *)
Theorem C2_must_bust_bank_goes_through :
  last (cards (CardDeckSpecial_init 30)) = Some "must_bust"
  /\ fst (roll_dice 6 (Random 30)) = [4; 5; 3; 1; 2; 2]
  /\ match play_turn 10 true (Lcg.seat 500 30 false ["k"; "b"]) with
     | Ok (out, w') =>
         must_bust (special (final out)) = true
         /\ how_ended out = BankedAfterPick
         /\ returned out = 150
         /\ points (w_player w') = 150
     | _ => False
     end
  /\ match play_turn 10 true (Lcg.seat 500 30 false ["b"]) with
     | Ok (out, w') =>
         must_bust (special (final out)) = true
         /\ how_ended out = BankedAtMenu
         /\ returned out = 0
     | _ => False
     end
  /\ match play_turn 10 true (Lcg.seat 500 16 false ["k"; "r"; "b"]) with
     | Ok (out, w') =>
         must_bust (special (final out)) = true
         /\ how_ended out = BankedAtMenu
         /\ returned out = 50
         /\ points (w_player w') = 50
     | _ => False
     end.
Proof. vm_compute. repeat split; reflexivity. Qed.

(** C4. The DoubleTrouble gate sits at the first menu only.  Seed 0 deals
    DoubleTrouble and the roll [1;1;5;2;1;2]: [k] followed by [b] at the
    roll-or-bank prompt banks 1050 points with no fill completed.  A [b]
    at the menu is refused, the turn goes on with a new roll
    [2;2;3;5;4;5], and [k] then [b] banks again without a fill. *)
Theorem C4_double_trouble_bank_after_pick :
  last (cards (CardDeckSpecial_init 0)) = Some "double_trouble"
  /\ fst (roll_dice 6 (Random 0)) = [1; 1; 5; 2; 1; 2]
  /\ match play_turn 10 true (Lcg.seat 500 0 false ["k"; "b"]) with
     | Ok (out, w') =>
         double_trouble (special (final out)) = true
         /\ fills (final out) = 0
         /\ how_ended out = BankedAfterPick
         /\ returned out = 1050
         /\ points (w_player w') = 1050
     | _ => False
     end
  /\ match play_turn 10 true (Lcg.seat 500 0 false ["b"; "k"; "b"]) with
     | Ok (out, w') =>
         (pk_roll <$> picks (final out)) = [[2; 2; 3; 5; 4; 5]]
         /\ fills (final out) = 0
         /\ how_ended out = BankedAfterPick
         /\ returned out = 100
         /\ points (w_player w') = 100
     | _ => False
     end.
Proof. vm_compute. repeat split; reflexivity. Qed.

(** C7. A rejected action does not put the player back on the same roll.
    At seed 1 the roll is [3;5;4;2;2;6], worth 50.  An index out of bounds
    ([9]), a die that does not score ([1], the 3), an empty selection and
    a selection that is not a number are all rejected; the next prompt is
    about a fresh roll, [1;4;1;1;2;6], drawn from the advanced generator,
    and keeping all of it banks 1000.  The refused DoubleTrouble bank of
    seed 0 likewise moves on from [1;1;5;2;1;2] to [2;2;3;5;4;5]. *)
Theorem C7_rejection_rolls_again :
  fst (roll_dice 6 (Random 1)) = [3; 5; 4; 2; 2; 6]
  /\ fst (score_dice [3; 5; 4; 2; 2; 6]) = 50
  /\ Lcg.after_choice "9" = Some ([[1; 4; 1; 1; 2; 6]], 1000)
  /\ Lcg.after_choice "1" = Some ([[1; 4; 1; 1; 2; 6]], 1000)
  /\ Lcg.after_choice "" = Some ([[1; 4; 1; 1; 2; 6]], 1000)
  /\ Lcg.after_choice "x" = Some ([[1; 4; 1; 1; 2; 6]], 1000)
  /\ fst (roll_dice 6 (Random 0)) = [1; 1; 5; 2; 1; 2]
  /\ match play_turn 10 true (Lcg.seat 500 0 false ["b"; "k"; "b"]) with
     | Ok (out, w') => (pk_roll <$> picks (final out)) = [[2; 2; 3; 5; 4; 5]]
     | _ => False
     end.
Proof. vm_compute. repeat split; reflexivity. Qed.

(** C10. Repeating an index drives [dice_left] below zero.  At seed 1 the
    roll is [3;5;4;2;2;6]; the selection [2 2 2 2 2 2 2] names the single
    5 seven times, is accepted as seven dice worth 700, and leaves
    [dice_left] at -1, with which the turn can be banked or go on to roll
    no dice at all. *)
Theorem C10_repeated_index_goes_negative :
  fst (roll_dice 6 (Random 1)) = [3; 5; 4; 2; 2; 6]
  /\ match play_turn 10 true
             (Lcg.seat 500 1 false ["c"; "2 2 2 2 2 2 2"; "b"]) with
     | Ok (out, w') =>
         dice_left (final out) = -1
         /\ how_ended out = BankedAfterPick
         /\ (pk_count <$> picks (final out)) = [7]
         /\ returned out = 700
         /\ points (w_player w') = 700
     | _ => False
     end
  /\ match play_turn 10 true
             (Lcg.seat 500 1 false ["c"; "2 2 2 2 2 2 2"; "r"; "y"]) with
     | Ok (out, w') => dice_left (final out) = -1 /\ how_ended out = Busted
     | _ => False
     end.
Proof. vm_compute. repeat split; reflexivity. Qed.

(** C9, as stated, fails: there is no single shared source.  In the game
    built from seed 1 the dice generator is the freshly seeded one, the
    deck holds a generator of its own that the shuffle has already
    advanced; rolling six dice moves the first and not the second, and
    21 draws, which rebuild and reshuffle the deck, leave the dice
    generator where it was. *)
Lemma C9_single_source_fails :
  let w := Lcg.seat 500 1 true [] in
  rng (w_game w) = Random 1
  /\ deck_rng (card_deck (w_game w)) <> rng (w_game w)
  /\ match roll 6 w with
     | Ok (vs, w1) =>
         vs = [3; 5; 4; 2; 2; 6]
         /\ rng (w_game w1) <> rng (w_game w)
         /\ deck_rng (card_deck (w_game w1)) = deck_rng (card_deck (w_game w))
     | _ => False
     end
  /\ match draws 21 (card_deck (w_game w)) with
     | Ok (cs, d) => length cs = 21%nat /\ deck_rng d = deck_rng (card_deck (w_game w))
     | _ => False
     end.
Proof. vm_compute. repeat split; try reflexivity; discriminate. Qed.

Lemma C9_ai_match_replays_witness :
  Forall (fun p => is_ai p = true) (make_players 2 2)
  /\ run 50 50 false (Game_init (make_players 2 2) 2000 500 1 false) ["b"]
     = replace_input ["b"]
         (run 50 50 false (Game_init (make_players 2 2) 2000 500 1 false) []).
Proof.
  assert (H : Forall (fun p => is_ai p = true) (make_players 2 2))
    by (vm_compute; repeat constructor).
  split; [exact H|].
  exact (proj1 (C9_ai_match_replays (make_players 2 2) 2000 500 1 false
                  50 50 false [] ["b"] H)).
Defined.

(** The match of seed 1 between two AI players ends: [P1] wins with 2250
    points against 1400. *)
Example ai_match_seed_1 :
  match run 50 50 false (Game_init (make_players 2 2) 2000 500 1 false) [] with
  | Ok (p, g, _) =>
      name p = "P1" /\ points p = 2250 /\ (points <$> players g) = [2250; 1400]
  | _ => False
  end.
Proof. vm_compute. repeat split; reflexivity. Qed.

(** * Further properties *)

(** ** More on scoring *)

Lemma face_points_nonneg face c :
  1 <= face <= 6 -> 0 <= c -> 0 <= ScoreSpec.face_points face c.
Proof.
  intros Hf Hc.
  unfold ScoreSpec.face_points, ScoreSpec.three_worth, ScoreSpec.single_worth.
  destruct (3 <=? c) eqn:E3; destruct (face =? 1) eqn:E1;
    destruct (face =? 5) eqn:E5; try apply Z.leb_le in E3; nia.
Qed.

Lemma face_consumed_bounds face c :
  0 <= c -> 0 <= ScoreSpec.face_consumed face c <= c.
Proof.
  intros Hc. unfold ScoreSpec.face_consumed.
  destruct (Z.leb_spec 3 c); destruct (one_or_five face); lia.
Qed.

(** A face that brings points has dice consumed. *)
Lemma face_points_consumed face c :
  1 <= face <= 6 -> 0 <= c ->
  0 < ScoreSpec.face_points face c -> 1 <= ScoreSpec.face_consumed face c.
Proof.
  intros Hf Hc.
  unfold ScoreSpec.face_points, ScoreSpec.face_consumed,
    ScoreSpec.three_worth, ScoreSpec.single_worth, one_or_five.
  destruct (Z.leb_spec 3 c); destruct (Z.eqb_spec face 1);
    destruct (Z.eqb_spec face 5); cbn [orb]; lia.
Qed.

Lemma foldr_add_perm (l l' : list Z) :
  Permutation l l' -> foldr Z.add 0 l = foldr Z.add 0 l'.
Proof. induction 1; cbn; lia. Qed.

Lemma counter_total_insert (m : gmap Z Z) k v :
  m !! k = None -> Counter.total (<[k := v]> m) = v + Counter.total m.
Proof.
  intros Hk. unfold Counter.total.
  rewrite (foldr_add_perm _ (snd <$> ((k, v) :: map_to_list m))).
  - reflexivity.
  - apply fmap_Permutation. by apply map_to_list_insert.
Qed.

Lemma counter_get_None (m : gmap Z Z) k : m !! k = None -> Counter.get m k = 0.
Proof. unfold Counter.get. by intros ->. Qed.

Lemma sum_get_insert_notin (m : gmap Z Z) k v ks :
  k ∉ ks ->
  foldr Z.add 0 (Counter.get (<[k := v]> m) <$> ks)
  = foldr Z.add 0 (Counter.get m <$> ks).
Proof.
  induction ks as [|j ks IH]; intros Hk; cbn; [done|].
  apply not_elem_of_cons in Hk as [Hne Hk].
  rewrite counter_get_insert, bool_decide_eq_false_2 by congruence.
  by rewrite IH.
Qed.

Lemma sum_get_insert_in (m : gmap Z Z) k v ks :
  NoDup ks -> k ∈ ks -> m !! k = None ->
  foldr Z.add 0 (Counter.get (<[k := v]> m) <$> ks)
  = v + foldr Z.add 0 (Counter.get m <$> ks).
Proof.
  induction ks as [|j ks IH]; intros Hnd Hk Hm; [by apply elem_of_nil in Hk|].
  apply NoDup_cons in Hnd as [Hj Hnd]. cbn. rewrite counter_get_insert.
  destruct (decide (j = k)) as [->|Hne].
  - rewrite bool_decide_eq_true_2 by done.
    rewrite sum_get_insert_notin by done.
    rewrite (counter_get_None m k Hm). lia.
  - rewrite bool_decide_eq_false_2 by done.
    apply elem_of_cons in Hk as [->|Hk]; [done|].
    rewrite IH by done. lia.
Qed.

(** [sum(cnt.values())] over keys known to lie in [ks]. *)
Lemma counter_total_keys (ks : list Z) : NoDup ks -> forall m : gmap Z Z,
  (forall k, k ∉ ks -> m !! k = None) ->
  Counter.total m = foldr Z.add 0 (Counter.get m <$> ks).
Proof.
  intros Hnd m. induction m as [|k v m Hk IH] using map_ind; intros Hdom.
  - unfold Counter.total. rewrite map_to_list_empty. cbn.
    clear Hnd Hdom. induction ks as [|j ks IHks]; cbn; [done|].
    unfold Counter.get at 1. rewrite lookup_empty. cbn. by rewrite <- IHks.
  - rewrite counter_total_insert by done.
    assert (Hin : k ∈ ks).
    { destruct (decide (k ∈ ks)) as [|Hn]; [done|].
      specialize (Hdom k Hn). by rewrite lookup_insert_eq in Hdom. }
    rewrite sum_get_insert_in by done. f_equal. apply IH.
    intros j Hj. specialize (Hdom j Hj).
    destruct (decide (j = k)) as [->|Hne]; [done|].
    by rewrite lookup_insert_ne in Hdom.
Qed.

Lemma three_of_a_kind_used_keys fs : forall st g,
  g ∉ fs -> sc_used (foldl three_of_a_kind st fs) !! g = sc_used st !! g.
Proof.
  induction fs as [|f fs IH]; intros st g Hg; cbn [foldl]; [done|].
  apply not_elem_of_cons in Hg as [Hne Hg]. rewrite IH by done.
  unfold three_of_a_kind. destruct (3 <=? _); [|done].
  cbn [sc_used]. unfold Counter.add. by rewrite lookup_insert_ne.
Qed.

Lemma singles_used_keys face worth st g :
  g <> face -> sc_used (singles face worth st) !! g = sc_used st !! g.
Proof.
  intros Hne. unfold singles. destruct (0 <? _); [|done].
  cbn [sc_used]. unfold Counter.add. by rewrite lookup_insert_ne.
Qed.

(** [used] has no key outside the faces 1 to 6. *)
Lemma score_dice_used_keys dice g :
  g ∉ [1; 2; 3; 4; 5; 6] -> snd (score_dice dice) !! g = None.
Proof.
  intros Hg. rewrite face_cases in Hg. unfold score_dice. cbn [snd].
  rewrite !singles_used_keys by lia.
  rewrite three_of_a_kind_used_keys by (rewrite face_cases; lia).
  apply lookup_empty.
Qed.

Lemma score_dice_total dice :
  Counter.total (snd (score_dice dice))
  = foldr Z.add 0 ((fun f => ScoreSpec.face_consumed f (ScoreSpec.occurrences f dice))
                     <$> [1; 2; 3; 4; 5; 6]).
Proof.
  rewrite (counter_total_keys [1; 2; 3; 4; 5; 6] faces_nodup)
    by apply score_dice_used_keys.
  cbn [fmap list_fmap foldr]. rewrite !score_dice_consumed.
  unfold ScoreSpec.consumed. rewrite !face_in_range by lia. reflexivity.
Qed.

Lemma occurrences_cons face v dice :
  ScoreSpec.occurrences face (v :: dice)
  = ScoreSpec.occurrences face dice + (if bool_decide (v = face) then 1 else 0).
Proof.
  unfold ScoreSpec.occurrences. cbn [count_occ].
  destruct (Z.eq_dec v face) as [->|Hne].
  - rewrite bool_decide_eq_true_2 by done. lia.
  - rewrite bool_decide_eq_false_2 by done. lia.
Qed.

Lemma occurrences_sum_le dice :
  foldr Z.add 0 ((fun f => ScoreSpec.occurrences f dice) <$> [1; 2; 3; 4; 5; 6])
  <= Z.of_nat (length dice).
Proof.
  induction dice as [|v dice IH]; cbn [fmap list_fmap foldr] in *.
  - unfold ScoreSpec.occurrences. cbn. lia.
  - rewrite !occurrences_cons. cbn [length].
    repeat case_bool_decide; lia.
Qed.

(** The facts about the six faces that the arithmetic below needs. *)
Ltac face_facts dice :=
  pose proof (occurrences_nonneg 1 dice); pose proof (occurrences_nonneg 2 dice);
  pose proof (occurrences_nonneg 3 dice); pose proof (occurrences_nonneg 4 dice);
  pose proof (occurrences_nonneg 5 dice); pose proof (occurrences_nonneg 6 dice);
  pose proof (face_points_nonneg 1 (ScoreSpec.occurrences 1 dice));
  pose proof (face_points_nonneg 2 (ScoreSpec.occurrences 2 dice));
  pose proof (face_points_nonneg 3 (ScoreSpec.occurrences 3 dice));
  pose proof (face_points_nonneg 4 (ScoreSpec.occurrences 4 dice));
  pose proof (face_points_nonneg 5 (ScoreSpec.occurrences 5 dice));
  pose proof (face_points_nonneg 6 (ScoreSpec.occurrences 6 dice));
  pose proof (face_consumed_bounds 1 (ScoreSpec.occurrences 1 dice));
  pose proof (face_consumed_bounds 2 (ScoreSpec.occurrences 2 dice));
  pose proof (face_consumed_bounds 3 (ScoreSpec.occurrences 3 dice));
  pose proof (face_consumed_bounds 4 (ScoreSpec.occurrences 4 dice));
  pose proof (face_consumed_bounds 5 (ScoreSpec.occurrences 5 dice));
  pose proof (face_consumed_bounds 6 (ScoreSpec.occurrences 6 dice));
  pose proof (face_points_consumed 1 (ScoreSpec.occurrences 1 dice));
  pose proof (face_points_consumed 2 (ScoreSpec.occurrences 2 dice));
  pose proof (face_points_consumed 3 (ScoreSpec.occurrences 3 dice));
  pose proof (face_points_consumed 4 (ScoreSpec.occurrences 4 dice));
  pose proof (face_points_consumed 5 (ScoreSpec.occurrences 5 dice));
  pose proof (face_points_consumed 6 (ScoreSpec.occurrences 6 dice)).

(** X1. The score is never negative, and the dice [score_dice] reports as
    used are at least none and at most the dice given. *)
Theorem X1_score_and_used_bounds (dice : list Z) :
  0 <= fst (score_dice dice)
  /\ 0 <= Counter.total (snd (score_dice dice)) <= Z.of_nat (length dice).
Proof.
  rewrite score_dice_points, score_dice_total.
  pose proof (occurrences_sum_le dice) as Hsum.
  unfold ScoreSpec.points. cbn [fmap list_fmap foldr] in *.
  face_facts dice. lia.
Qed.

(** A roll that scores uses at least one die. *)
Lemma score_dice_used_pos dice :
  fst (score_dice dice) <> 0 -> 1 <= Counter.total (snd (score_dice dice)).
Proof.
  rewrite score_dice_points, score_dice_total.
  unfold ScoreSpec.points. cbn [fmap list_fmap foldr].
  face_facts dice. lia.
Qed.

Lemma three_of_a_kind_unscored st face :
  1 <= face <= 6 -> unscored st -> unscored (three_of_a_kind st face).
Proof.
  intros Hf [Hs Hiff]. unfold three_of_a_kind.
  destruct (3 <=? Counter.get (sc_cnt st) face); [|done].
  unfold unscored. cbn [sc_score sc_used]. unfold Counter.add.
  assert (0 < (if face =? 1 then 1000 else face * 100))
    by (destruct (face =? 1); lia).
  split; [lia|]. split; [lia|]. intros E. by apply insert_non_empty in E.
Qed.

Lemma singles_unscored face worth st :
  0 < worth -> unscored st -> unscored (singles face worth st).
Proof.
  intros Hw [Hs Hiff]. unfold singles.
  destruct (Z.ltb_spec 0 (Counter.get (sc_cnt st) face)); [|done].
  unfold unscored. cbn [sc_score sc_used]. unfold Counter.add.
  split; [nia|]. split; [nia|]. intros E. by apply insert_non_empty in E.
Qed.

(** X2. [score_dice] returns the score 0 exactly when the [used] counter it
    returns is empty: a bust uses no die and a scoring roll reports the
    dice it used. *)
Theorem X2_bust_iff_nothing_used (dice : list Z) :
  fst (score_dice dice) = 0 <-> snd (score_dice dice) = ∅.
Proof.
  unfold score_dice. cbn [fst snd].
  apply singles_unscored; [lia|]. apply singles_unscored; [lia|].
  cbn [foldl].
  repeat (apply three_of_a_kind_unscored; [lia|]).
  unfold unscored. cbn [sc_score sc_used]. by split.
Qed.

Lemma occurrences_pos_elem_of face dice :
  0 < ScoreSpec.occurrences face dice <-> face ∈ dice.
Proof.
  unfold ScoreSpec.occurrences. rewrite list_elem_of_In.
  rewrite (count_occ_In Z.eq_dec). lia.
Qed.

Lemma scoring_roll_cases (dice : list Z) :
  is_scoring_roll dice = true
  <-> 1 ∈ dice \/ 5 ∈ dice
      \/ exists face, 1 <= face <= 6 /\ 3 <= ScoreSpec.occurrences face dice.
Proof.
  unfold is_scoring_roll. rewrite Z.ltb_lt, score_dice_points.
  rewrite <- !occurrences_pos_elem_of.
  assert (Hex : (exists face, 1 <= face <= 6 /\ 3 <= ScoreSpec.occurrences face dice)
                <-> 3 <= ScoreSpec.occurrences 1 dice \/ 3 <= ScoreSpec.occurrences 2 dice
                    \/ 3 <= ScoreSpec.occurrences 3 dice \/ 3 <= ScoreSpec.occurrences 4 dice
                    \/ 3 <= ScoreSpec.occurrences 5 dice \/ 3 <= ScoreSpec.occurrences 6 dice).
  { split.
    - intros (f & Hf & H3).
      assert (Hc : f = 1 \/ f = 2 \/ f = 3 \/ f = 4 \/ f = 5 \/ f = 6) by lia.
      destruct Hc as [->|[->|[->|[->|[->| ->]]]]]; tauto.
    - intros [H|[H|[H|[H|[H|H]]]]];
        [exists 1|exists 2|exists 3|exists 4|exists 5|exists 6]; (split; [lia|done]). }
  rewrite Hex. clear Hex.
  unfold ScoreSpec.points. cbn [fmap list_fmap foldr].
  pose proof (occurrences_nonneg 1 dice). pose proof (occurrences_nonneg 2 dice).
  pose proof (occurrences_nonneg 3 dice). pose proof (occurrences_nonneg 4 dice).
  pose proof (occurrences_nonneg 5 dice). pose proof (occurrences_nonneg 6 dice).
  unfold ScoreSpec.face_points, ScoreSpec.three_worth, ScoreSpec.single_worth.
  cbn [Z.eqb Pos.eqb].
  repeat match goal with
         | |- context [3 <=? ?c] => destruct (Z.leb_spec 3 c)
         end; lia.
Qed.

(** X3. A roll scores exactly when it holds a 1, a 5, or three dice of one
    face between 1 and 6; any other roll is a bust. *)
Theorem X3_scoring_roll_iff (dice : list Z) :
  is_scoring_roll dice = true
  <-> 1 ∈ dice \/ 5 ∈ dice
      \/ exists face, 1 <= face <= 6 /\ 3 <= ScoreSpec.occurrences face dice.
Proof. apply scoring_roll_cases. Qed.

Lemma counter_of_list_lookup dice face :
  Counter.of_list dice !! face
  = if bool_decide (ScoreSpec.occurrences face dice = 0) then None
    else Some (ScoreSpec.occurrences face dice).
Proof.
  unfold Counter.of_list.
  assert (Hgen : forall m : gmap Z Z,
            (forall f, m !! f = None \/ exists c, m !! f = Some c /\ 0 < c) ->
            foldl (fun m v => Counter.add m v 1) m dice !! face
            = if bool_decide (Counter.get m face + ScoreSpec.occurrences face dice = 0)
              then None
              else Some (Counter.get m face + ScoreSpec.occurrences face dice)).
  { induction dice as [|v dice IH]; intros m Hm; cbn [foldl].
    - unfold ScoreSpec.occurrences. cbn [count_occ]. unfold Counter.get.
      destruct (Hm face) as [->|(c & -> & Hc)]; cbn.
      + by rewrite bool_decide_eq_true_2.
      + rewrite bool_decide_eq_false_2 by lia. f_equal. lia.
    - rewrite IH.
      + rewrite counter_get_add, occurrences_cons.
        destruct (decide (face = v)) as [->|Hne].
        * rewrite !(bool_decide_eq_true_2 (v = v)) by done.
          replace (Counter.get m v + 1 + ScoreSpec.occurrences v dice)
            with (Counter.get m v + (ScoreSpec.occurrences v dice + 1)) by lia.
          done.
        * rewrite (bool_decide_eq_false_2 (face = v)) by done.
          rewrite (bool_decide_eq_false_2 (v = face)) by congruence.
          by rewrite Z.add_0_r.
      + intros f. unfold Counter.add.
        destruct (decide (f = v)) as [->|Hne].
        * right. rewrite lookup_insert_eq. eexists; split; [done|].
          unfold Counter.get. destruct (Hm v) as [->|(c & -> & Hc)]; cbn; lia.
        * rewrite lookup_insert_ne by congruence. apply Hm. }
  rewrite Hgen by (intros f; left; apply lookup_empty).
  unfold Counter.get. rewrite lookup_empty. cbn. done.
Qed.

(** X4. The order of the dice does not matter: two rolls that are
    permutations of each other get the same score and the same [used]
    counter. *)
Theorem X4_score_dice_permutation (dice dice' : list Z) :
  Permutation dice dice' -> score_dice dice = score_dice dice'.
Proof.
  intros Hp.
  assert (Hc : Counter.of_list dice = Counter.of_list dice').
  { apply map_eq. intros f. rewrite !counter_of_list_lookup.
    unfold ScoreSpec.occurrences.
    by rewrite (proj1 (Permutation_count_occ Z.eq_dec dice dice') Hp f). }
  unfold score_dice. by rewrite Hc.
Qed.

Lemma X4_score_dice_permutation_witness :
  Permutation [5; 1; 2] [1; 2; 5] /\ score_dice [5; 1; 2] = score_dice [1; 2; 5].
Proof.
  assert (Hp : Permutation [5; 1; 2] [1; 2; 5]).
  { apply (perm_trans (l' := [1; 5; 2])); [apply perm_swap|].
    apply perm_skip. apply perm_swap. }
  split; [exact Hp|]. exact (X4_score_dice_permutation _ _ Hp).
Defined.

Lemma face_points_mono face c :
  1 <= face <= 6 -> 0 <= c ->
  ScoreSpec.face_points face c <= ScoreSpec.face_points face (c + 1).
Proof.
  intros Hf Hc.
  unfold ScoreSpec.face_points, ScoreSpec.three_worth, ScoreSpec.single_worth.
  destruct (Z.leb_spec 3 c); destruct (Z.leb_spec 3 (c + 1));
    destruct (Z.eqb_spec face 1); destruct (Z.eqb_spec face 5); nia.
Qed.

(** X5. One more die never lowers the score, whatever the die. *)
Theorem X5_extra_die_never_hurts (v : Z) (dice : list Z) :
  fst (score_dice dice) <= fst (score_dice (v :: dice)).
Proof.
  rewrite !score_dice_points. unfold ScoreSpec.points.
  cbn [fmap list_fmap foldr]. rewrite !occurrences_cons.
  pose proof (face_points_mono 1 _ ltac:(lia) (occurrences_nonneg 1 dice)).
  pose proof (face_points_mono 2 _ ltac:(lia) (occurrences_nonneg 2 dice)).
  pose proof (face_points_mono 3 _ ltac:(lia) (occurrences_nonneg 3 dice)).
  pose proof (face_points_mono 4 _ ltac:(lia) (occurrences_nonneg 4 dice)).
  pose proof (face_points_mono 5 _ ltac:(lia) (occurrences_nonneg 5 dice)).
  pose proof (face_points_mono 6 _ ltac:(lia) (occurrences_nonneg 6 dice)).
  repeat case_bool_decide; rewrite ?Z.add_0_r; lia.
Qed.

(** ** More on the dice, the deck and the turn *)

Section MoreTurnFacts.
Context {rng_state : Type} `{RS : !RandomSource rng_state}.

Lemma score_dice_nonneg dice : 0 <= fst (score_dice dice).
Proof.
  rewrite score_dice_points. unfold ScoreSpec.points.
  cbn [fmap list_fmap foldr]. face_facts dice. lia.
Qed.

Lemma score_dice_total_le dice :
  Counter.total (snd (score_dice dice)) <= Z.of_nat (length dice).
Proof.
  rewrite score_dice_total. pose proof (occurrences_sum_le dice) as Hsum.
  cbn [fmap list_fmap foldr] in *. face_facts dice. lia.
Qed.

Lemma roll_dice_range n : forall r : rng_state,
  Forall (fun v => 1 <= v <= 6) (fst (roll_dice n r)).
Proof.
  induction n as [|k IH]; intros r; cbn [roll_dice]; [by constructor|].
  pose proof (randint_range 1 6 r ltac:(lia)) as Hv.
  destruct (randint 1 6 r) as [v r1]. specialize (IH r1).
  destruct (roll_dice k r1) as [vs r2]. cbn in *. by constructor.
Qed.

(** X6. [Game.roll(n)] never fails and returns exactly [n] dice ([n <= 0]
    gives none), each between 1 and 6; it advances the dice generator and
    leaves the deck, the players, the settings and the input as they
    were. *)
Theorem X6_roll_gives_n_dice (n : Z) (w : @world rng_state) :
  exists vs w',
    roll n w = Ok (vs, w')
    /\ length vs = Z.to_nat n
    /\ Forall (fun v => 1 <= v <= 6) vs
    /\ card_deck (w_game w') = card_deck (w_game w)
    /\ players (w_game w') = players (w_game w)
    /\ w_player w' = w_player w
    /\ w_stdin w' = w_stdin w.
Proof.
  unfold roll.
  pose proof (roll_dice_length (Z.to_nat n) (rng (w_game w))) as Hl.
  pose proof (roll_dice_range (Z.to_nat n) (rng (w_game w))) as Hr.
  destruct (roll_dice (Z.to_nat n) (rng (w_game w))) as [vs r].
  eexists _, _. split; [reflexivity|]. cbn in *. by repeat split.
Qed.

Lemma init_good_deck sd : good_deck (CardDeckSpecial_init sd).
Proof.
  unfold good_deck. rewrite (init_cards_perm sd). by apply Forall_forall.
Qed.

Lemma pop_nonempty {A} (l : list A) :
  l <> [] -> exists x l', l = l' ++ [x] /\ pop l = Some (x, l').
Proof.
  intros Hne. destruct (last l) as [x|] eqn:E.
  - apply last_Some in E as [l' ->]. exists x, l'. by rewrite pop_snoc.
  - by apply last_None in E.
Qed.

(** [draw] never raises, whatever the deck; from a deck of known cards it
    gives a known card and leaves such a deck. *)
Lemma draw_total (d : CardDeckSpecial) :
  exists c d',
    draw d = Ok (c, d')
    /\ seed d' = seed d
    /\ (good_deck d -> c ∈ deck_composition /\ good_deck d').
Proof.
  destruct (cards d) as [|c0 cs] eqn:E.
  - assert (Hne : cards (CardDeckSpecial_init (seed d)) <> []).
    { intros H0. pose proof (init_cards_length (seed d)) as Hl.
      by rewrite H0 in Hl. }
    destruct (pop_nonempty _ Hne) as (x & l' & Hl' & _).
    exists x, {| seed := seed (CardDeckSpecial_init (seed d));
                 deck_rng := deck_rng (CardDeckSpecial_init (seed d));
                 cards := l' |}.
    split; [by apply draw_empty|]. cbn [seed]. split; [apply init_seed|].
    intros _. pose proof (init_good_deck (seed d)) as Hg.
    unfold good_deck in *. rewrite Hl' in Hg. cbn [cards].
    apply Forall_app in Hg as [Hg1 Hg2]. split; [|done].
    exact (Forall_inv Hg2).
  - assert (Hne : cards d <> []) by (by rewrite E).
    destruct (pop_nonempty _ Hne) as (x & l' & Hl' & _).
    exists x, {| seed := seed d; deck_rng := deck_rng d; cards := l' |}.
    split; [by apply draw_nonempty|]. split; [done|].
    unfold good_deck. rewrite Hl'. cbn [cards]. intros Hg.
    apply Forall_app in Hg as [Hg1 Hg2]. split; [|done].
    exact (Forall_inv Hg2).
Qed.

Lemma deck_composition_cases c :
  c ∈ deck_composition ->
  c = "bonus300" \/ c = "bonus400" \/ c = "bonus500"
  \/ c = "no_dice" \/ c = "must_bust" \/ c = "double_trouble".
Proof.
  unfold deck_composition. cbn [repeat app].
  rewrite !elem_of_cons, elem_of_nil. tauto.
Qed.

(** The card strings of the deck are all read without error. *)
Lemma read_card_composition c :
  c ∈ deck_composition ->
  exists sp, (forall w : @world rng_state, read_card c w = Ok (sp, w))
             /\ 0 <= bonus sp.
Proof.
  intros Hc. apply deck_composition_cases in Hc.
  destruct Hc as [->|[->|[->|[->|[->| ->]]]]];
    eexists; (split; [intros w; reflexivity|vm_compute; intros ?; discriminate]).
Qed.

(** An accepted selection has a positive score and takes at least one
    die; the selection never raises. *)
Lemma choose_indices_ok rl line :
  exists o, choose_indices rl line = Ok o
            /\ match o with
               | Some (ts, tc) => 0 < ts /\ 1 <= tc
               | None => True
               end.
Proof.
  unfold choose_indices.
  destruct (mapM Py.int (Py.split (Py.strip line))) as [ns|]; [|by eexists].
  destruct (existsb _ _) eqn:Eb; [by eexists|].
  destruct (negb _); [by eexists|].
  destruct (mapM (fun i => rl !! Z.to_nat i) ((fun n => n - 1) <$> ns))
    as [chosen|] eqn:Em.
  - destruct (Z.eqb_spec (fst (score_dice chosen)) 0) as [E0|Hne]; [by eexists|].
    eexists. split; [reflexivity|]. cbv beta iota.
    pose proof (score_dice_nonneg chosen).
    pose proof (score_dice_used_pos chosen Hne).
    pose proof (score_dice_total_le chosen). lia.
  - exfalso. apply mapM_None in Em. apply Exists_exists in Em as (i & Hi & Hnone).
    assert (Hb : (i <? 0) || (Z.of_nat (length rl) <=? i) = false).
    { apply not_true_is_false. intros Ht.
      assert (existsb (fun i => (i <? 0) || (Z.of_nat (length rl) <=? i))
                ((fun n => n - 1) <$> ns) = true); [|congruence].
      apply existsb_exists. exists i. split; [by apply list_elem_of_In|done]. }
    apply orb_false_elim in Hb as [H1 H2].
    apply Z.ltb_ge in H1. apply Z.leb_gt in H2.
    apply lookup_ge_None in Hnone. lia.
Qed.

End MoreTurnFacts.

Section TurnErrors.
Context {rng_state : Type} `{RS : !RandomSource rng_state}.

Ltac unfold_body :=
  cbv beta iota zeta delta
    [loop_body bind ret raise roll get_player get_game when add_points
     read_choice _prompt _ack lift w_game w_player w_stdin
     rng players points_to_win ai_threshold_points card_deck use_gui
     name is_ai points].

#[local] Opaque keep score_dice choose_indices.

(** One pass of the loop body: it never runs out of fuel; it raises only
    [EOFError], and only for a human player asked at the keyboard; a pick
    it makes has a positive score and takes at least one die. *)
Lemma loop_body_cases interactive t (w : @world rng_state) :
  match loop_body interactive t w with
  | Ok (s, w') =>
      let t' := match s with Continue t1 => t1 | Return _ t1 _ => t1 end in
      t' = t \/ exists rl ts tc, t' = keep rl ts tc t /\ 0 < ts /\ 1 <= tc
  | Raise e =>
      e = Py.EOFError /\ is_ai (w_player w) = false /\ interactive = true
  | OutOfFuel => False
  end.
Proof.
  destruct w as [g p stdin]. destruct g as [ps ptw thr r d gui].
  destruct p as [nm ai pts]. unfold_body.
  destruct (roll_dice (Z.to_nat (dice_left t)) r) as [rl r'].
  pose proof (score_dice_nonneg rl) as Hnn.
  pose proof (score_dice_used_pos rl) as Hup.
  destruct (score_dice rl) as [score used]. cbn [fst snd] in *.
  destruct (Z.eqb_spec score 0) as [E0|Hne].
  - destruct (must_bust (special t)); cbv beta iota;
      destruct interactive, ai; cbn [andb negb]; cbv beta iota;
      try (by left);
      destruct gui; cbv beta iota; try (by left);
      destruct (ack_lines stdin); cbv beta iota; try (by left); done.
  - assert (Hpick : forall t1, t1 = keep rl score (Counter.total used) t ->
              t1 = t \/ exists rl0 ts tc, t1 = keep rl0 ts tc t /\ 0 < ts /\ 1 <= tc).
    { intros t1 ->. right. eexists _, _, _. split; [done|]. split; [lia|by apply Hup]. }
    destruct ai; cbn [orb andb negb].
    + destruct (thr <=? _); cbv beta iota; [|by apply Hpick].
      destruct (negb _ && _); cbv beta iota; by apply Hpick.
    + destruct interactive; cbn [negb]; [|by apply Hpick].
      destruct (choice_lines ["k"; "b"; "c"] stdin) as [[c stdin1]|]; cbv beta iota;
        [|done].
      destruct (String.eqb c "b"); cbv beta iota.
      { destruct (double_trouble (special t) && (fills t <? 2)); cbv beta iota;
          by left. }
      destruct (String.eqb c "k"); cbv beta iota.
      { destruct (choice_lines ["r"; "b"] stdin1) as [[c2 stdin2]|]; cbv beta iota;
          [|done].
        destruct (String.eqb c2 "b"); cbv beta iota; by apply Hpick. }
      destruct stdin1 as [|line stdin2]; cbv beta iota; [done|].
      destruct (choose_indices_ok rl line) as (o & -> & Ho). cbv beta iota.
      destruct o as [[ts tc]|]; cbv beta iota; [|by left].
      destruct (choice_lines ["r"; "b"] stdin2) as [[c2 stdin3]|]; cbv beta iota;
        [|done].
      destruct (String.eqb c2 "b"); cbv beta iota;
        right; eexists _, _, _; (split; [reflexivity|done]).
Qed.

#[local] Transparent keep score_dice choose_indices.

Lemma keep_scoring_picks rl ts tc t :
  0 < ts -> 1 <= tc -> scoring_picks t -> scoring_picks (keep rl ts tc t).
Proof.
  intros Hts Htc Ht. unfold scoring_picks. rewrite keep_picks.
  apply Forall_cons. by split.
Qed.

Lemma scoring_picks_start sp : scoring_picks (turn_start sp).
Proof. unfold scoring_picks. cbn. constructor. Qed.

Lemma turn_loop_cases interactive fuel : forall t (w : @world rng_state),
  scoring_picks t ->
  match turn_loop fuel interactive t w with
  | Ok (out, w') => scoring_picks (final out)
  | Raise e =>
      e = Py.EOFError /\ is_ai (w_player w) = false /\ interactive = true
  | OutOfFuel => True
  end.
Proof.
  induction fuel as [|k IH]; intros t w Ht; [done|].
  cbn [turn_loop]. rewrite bind_eq.
  pose proof (loop_body_cases interactive t w) as Hc.
  destruct (loop_body interactive t w) as [[s w1]| |] eqn:Hbody; [|done|done].
  apply loop_body_post in Hbody. destruct Hbody as (_ & Hai & _).
  assert (Hs : forall t1, (t1 = t \/ exists rl ts tc,
                 t1 = keep rl ts tc t /\ 0 < ts /\ 1 <= tc) -> scoring_picks t1).
  { intros t1 [->|(rl & ts & tc & -> & H1 & H2)]; [done|by apply keep_scoring_picks]. }
  destruct s as [t1|v t1 how]; cbv zeta in Hc.
  - specialize (IH t1 w1 (Hs _ Hc)).
    destruct (turn_loop k interactive t1 w1) as [[out w']| |]; [done| |done].
    by rewrite <- Hai.
  - unfold ret. cbn [final]. by apply Hs.
Qed.

Lemma play_turn_raises fuel interactive (w : @world rng_state) e :
  good_deck (card_deck (w_game w)) ->
  play_turn fuel interactive w = Raise e ->
  e = Py.EOFError /\ is_ai (w_player w) = false /\ interactive = true.
Proof.
  intros Hgood. unfold play_turn. rewrite bind_eq. unfold draw_card.
  destruct (draw_total (card_deck (w_game w))) as (c & d & -> & _ & Hc).
  destruct (Hc Hgood) as [Hcomp _]. rewrite bind_eq.
  destruct (read_card_composition (rng_state:=rng_state) c Hcomp) as (sp & -> & _).
  destruct (no_dice sp).
  - rewrite bind_eq. unfold get_player. cbn [w_player]. rewrite bind_eq.
    unfold when, _ack, ret. cbn [w_game w_player w_stdin use_gui].
    destruct (is_ai (w_player w)), interactive;
      cbn [negb andb w_game w_player w_stdin use_gui]; try done.
    destruct (use_gui (w_game w)); [done|].
    destruct (ack_lines (w_stdin w)); [done|]. by intros [= <-].
  - intros H.
    pose proof (turn_loop_cases interactive fuel (turn_start sp)
                  {| w_game := {| players := players (w_game w);
                                  points_to_win := points_to_win (w_game w);
                                  ai_threshold_points := ai_threshold_points (w_game w);
                                  rng := rng (w_game w); card_deck := d;
                                  use_gui := use_gui (w_game w) |};
                     w_player := w_player w; w_stdin := w_stdin w |}
                  (scoring_picks_start sp)) as Hl.
    rewrite H in Hl. exact Hl.
Qed.

(** X7. A turn played from a deck of known cards ends normally or with
    [EOFError], the end of the input; it never raises anything else, and
    [EOFError] only reaches a human player in an interactive game. *)
Theorem X7_turn_raises_only_eof fuel interactive (w : @world rng_state) e :
  good_deck (card_deck (w_game w)) ->
  play_turn fuel interactive w = Raise e ->
  e = Py.EOFError /\ is_ai (w_player w) = false /\ interactive = true.
Proof. apply play_turn_raises. Qed.

Lemma play_turn_points fuel interactive (w : @world rng_state) out w' :
  good_deck (card_deck (w_game w)) ->
  play_turn fuel interactive w = Ok (out, w') ->
  points (w_player w) <= points (w_player w')
  /\ 0 <= turn_points (final out)
  /\ 0 <= returned out.
Proof.
  intros Hgood H.
  assert (Hsp : scoring_picks (final out) /\ 0 <= bonus (special (final out))).
  { pose proof H as H'. apply play_turn_post in H'
      as (c & d & sp & w1 & Hd & _ & Hrc & _ & _ & Hpost).
    destruct Hpost as (_ & Hsame & _).
    destruct (draw_total (card_deck (w_game w))) as (c' & d' & Hd' & _ & Hc).
    rewrite Hd in Hd'. injection Hd' as <- <-.
    destruct (Hc Hgood) as [Hcomp _].
    destruct (read_card_composition (rng_state:=rng_state) c Hcomp) as (sp' & Hrc' & Hb).
    rewrite Hrc' in Hrc. injection Hrc as <-.
    destruct Hsame as (Hbonus & _). cbn [turn_start special] in Hbonus.
    split; [|by rewrite Hbonus].
    revert H. unfold play_turn. rewrite bind_eq. unfold draw_card. rewrite Hd.
    rewrite bind_eq, Hrc'.
    destruct (no_dice sp').
    - rewrite bind_eq. unfold get_player. rewrite bind_eq.
      unfold when, _ack, ret.
      repeat case_match; intros; simplify_eq; apply scoring_picks_start.
    - intros H.
      match type of H with
      | turn_loop _ _ _ ?w0 = _ =>
          pose proof (turn_loop_cases interactive fuel (turn_start sp') w0
                        (scoring_picks_start sp')) as Hl
      end.
      by rewrite H in Hl. }
  destruct Hsp as [Hpk Hb].
  apply play_turn_post in H as (c & d & sp & w1 & _ & _ & _ & _ & _ & Hpost).
  destruct Hpost as ((Hf & _ & Hp) & _ & _ & Hpts & Hret & _).
  assert (Hsum : 0 <= sum_scores (picks (final out))).
  { unfold scoring_picks in Hpk. unfold sum_scores. revert Hpk.
    generalize (picks (final out)). intros l Hl.
    induction Hl as [|pk pks [Hpos _] _ IH]; cbn [fmap list_fmap foldr]; lia. }
  assert (Htp : 0 <= turn_points (final out)).
  { rewrite Hp. destruct (bonus_added (special (final out))); lia. }
  rewrite Hpts, Hret. split; [|split; [done|]].
  - destruct (how_ended out); cbn [credited];
      repeat match goal with |- context [if ?b then _ else _] => destruct b end; lia.
  - destruct (how_ended out); cbn [returned_by]; lia.
Qed.

(** X8. A finished turn played from a deck of known cards never takes
    points away: the player's points do not decrease, the turn total is
    not negative, and neither is the value returned. *)
Theorem X8_turn_never_loses_points fuel interactive (w : @world rng_state) out w' :
  good_deck (card_deck (w_game w)) ->
  play_turn fuel interactive w = Ok (out, w') ->
  points (w_player w) <= points (w_player w')
  /\ 0 <= turn_points (final out)
  /\ 0 <= returned out.
Proof. apply play_turn_points. Qed.

End TurnErrors.

(** ** The dice in hand under the automatic policy *)

Section TurnDice.
Context {rng_state : Type} `{RS : !RandomSource rng_state}.

Lemma keep_dice_in_hand rl ts tc t :
  dice_in_hand t ->
  length rl = Z.to_nat (dice_left t) ->
  1 <= tc <= Z.of_nat (length rl) ->
  dice_in_hand (keep rl ts tc t).
Proof.
  intros [Hd Hp] Hl Htc. unfold dice_in_hand. rewrite keep_picks. split.
  - unfold keep. cbn [dice_left].
    destruct (Z.eqb_spec (dice_left t - tc) 0) as [E|E].
    + destruct (negb (bonus (special t) =? 0) && negb (bonus_added (special t)));
        cbn [dice_left]; lia.
    + cbn [dice_left]. lia.
  - apply Forall_cons. split; [|done]. cbn [pk_count pk_roll]. lia.
Qed.

(** A turn that returns went through the NoDice exit with the locals of
    the start, or through the loop started from them. *)
Lemma play_turn_final (I : turn -> Prop) fuel interactive (w : @world rng_state) out w' :
  (forall sp, I (turn_start sp)) ->
  (forall sp (w1 : @world rng_state),
     w_player w1 = w_player w ->
     turn_loop fuel interactive (turn_start sp) w1 = Ok (out, w') -> I (final out)) ->
  play_turn fuel interactive w = Ok (out, w') -> I (final out).
Proof.
  intros Hstart Hloop. unfold play_turn. rewrite bind_eq.
  destruct (draw_card w) as [[c w1]| |] eqn:Hd; [|done|done].
  apply draw_card_ok in Hd as (d & _ & _ & _ & Hpl & _).
  rewrite bind_eq.
  destruct (read_card c w1) as [[sp w2]| |] eqn:Hr; [|done|done].
  apply read_card_ok in Hr as (-> & _).
  destruct (no_dice sp).
  - rewrite bind_eq. unfold get_player. rewrite bind_eq.
    unfold when, _ack, ret.
    repeat case_match; intros; simplify_eq; apply Hstart.
  - intros H. by eapply Hloop.
Qed.

Lemma turn_loop_dice interactive fuel : forall t (w : @world rng_state) out w',
  is_ai (w_player w) || negb interactive = true ->
  dice_in_hand t ->
  turn_loop fuel interactive t w = Ok (out, w') ->
  dice_in_hand (final out).
Proof.
  induction fuel as [|k IH]; intros t w out w' Hauto Ht H; [done|].
  cbn [turn_loop] in H. rewrite bind_eq in H.
  destruct (loop_body interactive t w) as [[s w1]| |] eqn:Hbody; [|done|done].
  apply loop_body_post in Hbody.
  destruct Hbody as (_ & Hai & _ & _ & _ & _ & _ & rl & Hroll & Hs).
  cbv zeta in Hs.
  assert (Hlen : length rl = Z.to_nat (dice_left t)).
  { pose proof (roll_dice_length (Z.to_nat (dice_left t)) (rng (w_game w))) as Hl.
    by rewrite Hroll in Hl. }
  assert (Hkeep : fst (score_dice rl) <> 0 ->
            dice_in_hand (keep rl (fst (score_dice rl))
                            (Counter.total (snd (score_dice rl))) t)).
  { intros Hne. apply keep_dice_in_hand; [done|done|].
    pose proof (score_dice_used_pos rl Hne). pose proof (score_dice_total_le rl). lia. }
  destruct s as [t1|v t1 how].
  - destruct Hs as (_ & Hsc & Hk & _).
    apply (IH t1 w1 out w'); [by rewrite Hai| |done].
    destruct Hk as [(_ & Hh & Hi)|(ts & tc & -> & Hp)].
    + rewrite Hh, Hi in Hauto. discriminate.
    + destruct (Hp Hauto) as [-> ->]. by apply Hkeep.
  - unfold ret in H. simplify_eq. cbn [final].
    destruct how; try done.
    + by destruct Hs as (-> & _).
    + destruct Hs as (_ & Hsc & -> & _). by apply Hkeep.
    + destruct Hs as (Hh & Hi & _). rewrite Hh, Hi in Hauto. discriminate.
    + destruct Hs as (Hh & Hi & _). rewrite Hh, Hi in Hauto. discriminate.
Qed.

Lemma dice_in_hand_start sp : dice_in_hand (turn_start sp).
Proof. unfold dice_in_hand. cbn. split; [lia|constructor]. Qed.

(** X9. Under the automatic policy (an AI player, or any player of a
    non-interactive game) a finished turn holds between one and six dice,
    and every pick it made took at least one die and no more than the dice
    of its roll, which are at most six. *)
Theorem X9_automatic_dice_in_hand fuel interactive (w : @world rng_state) out w' :
  is_ai (w_player w) || negb interactive = true ->
  play_turn fuel interactive w = Ok (out, w') ->
  1 <= dice_left (final out) <= 6
  /\ Forall (fun pk => 1 <= pk_count pk <= Z.of_nat (length (pk_roll pk))
                       /\ Z.of_nat (length (pk_roll pk)) <= 6)
            (picks (final out)).
Proof.
  intros Hauto H.
  apply (play_turn_final dice_in_hand fuel interactive w out w');
    [apply dice_in_hand_start| |done].
  intros sp w1 Hpl Hl.
  apply (turn_loop_dice interactive fuel (turn_start sp) w1 out w');
    [by rewrite Hpl|apply dice_in_hand_start|done].
Qed.

End TurnDice.

(** ** The prompt loops *)

Section Prompts.
Context {rng_state : Type} `{RS : !RandomSource rng_state}.

Lemma ack_lines_Some ls rest :
  ack_lines ls = Some rest ->
  exists pre l,
    ls = pre ++ l :: rest
    /\ Forall (fun x => Py.lower (Py.strip x) <> "y") pre
    /\ Py.lower (Py.strip l) = "y".
Proof.
  induction ls as [|x ls IH]; cbn [ack_lines]; [done|].
  destruct (String.eqb_spec (Py.lower (Py.strip x)) "y") as [E|E].
  - intros [= ->]. exists [], x. by repeat split.
  - intros H. destruct (IH H) as (pre & l & -> & Hpre & Hl).
    exists (x :: pre), l. repeat split; [|done]. by constructor.
Qed.

Lemma ack_lines_None ls :
  ack_lines ls = None -> Forall (fun x => Py.lower (Py.strip x) <> "y") ls.
Proof.
  induction ls as [|x ls IH]; cbn [ack_lines]; [by constructor|].
  destruct (String.eqb_spec (Py.lower (Py.strip x)) "y") as [E|E]; [done|].
  intros H. constructor; [done|by apply IH].
Qed.

(** X10. At the keyboard [_ack] discards lines up to the first one that
    reads [y] once stripped and lowered, consumes that line and nothing
    after it, and changes nothing else; when no line reads [y] it ends in
    [EOFError].  With dialogs it reads nothing. *)
Theorem X10_ack_reads_to_first_y (w : @world rng_state) :
  match _ack w with
  | Ok (_, w') =>
      w_game w' = w_game w /\ w_player w' = w_player w
      /\ if use_gui (w_game w) then w_stdin w' = w_stdin w
         else exists pre l,
                w_stdin w = pre ++ l :: w_stdin w'
                /\ Forall (fun x => Py.lower (Py.strip x) <> "y") pre
                /\ Py.lower (Py.strip l) = "y"
  | Raise e =>
      e = Py.EOFError /\ use_gui (w_game w) = false
      /\ Forall (fun x => Py.lower (Py.strip x) <> "y") (w_stdin w)
  | OutOfFuel => False
  end.
Proof.
  unfold _ack. destruct (use_gui (w_game w)); [done|].
  destruct (ack_lines (w_stdin w)) as [rest|] eqn:E.
  - cbn [w_game w_player w_stdin]. split; [done|]. split; [done|].
    by apply ack_lines_Some.
  - split; [done|]. split; [done|]. by apply ack_lines_None.
Qed.

Lemma in_allowed c allowed : existsb (String.eqb c) allowed = true <-> c ∈ allowed.
Proof.
  rewrite existsb_exists. split.
  - intros (x & Hx & E). apply String.eqb_eq in E as ->. by apply list_elem_of_In.
  - intros H. exists c. split; [by apply list_elem_of_In|apply String.eqb_refl].
Qed.

Lemma choice_lines_Some allowed ls c rest :
  choice_lines allowed ls = Some (c, rest) ->
  exists pre l,
    ls = pre ++ l :: rest
    /\ Forall (fun x => Py.lower (Py.strip x) ∉ allowed) pre
    /\ c = Py.lower (Py.strip l) /\ c ∈ allowed.
Proof.
  induction ls as [|x ls IH]; cbn [choice_lines]; [done|].
  destruct (existsb (String.eqb (Py.lower (Py.strip x))) allowed) eqn:E.
  - intros [= <- <-]. exists [], x. apply in_allowed in E. by repeat split.
  - intros H. destruct (IH H) as (pre & l & -> & Hpre & Hl).
    exists (x :: pre), l. repeat split; try apply Hl. constructor; [|done].
    intros Hin. apply in_allowed in Hin. congruence.
Qed.

Lemma choice_lines_None allowed ls :
  choice_lines allowed ls = None ->
  Forall (fun x => Py.lower (Py.strip x) ∉ allowed) ls.
Proof.
  induction ls as [|x ls IH]; cbn [choice_lines]; [by constructor|].
  destruct (existsb (String.eqb (Py.lower (Py.strip x))) allowed) eqn:E; [done|].
  intros H. constructor; [|by apply IH].
  intros Hin. apply in_allowed in Hin. congruence.
Qed.

(** X11. The menu prompts repeat until an answer, stripped and lowered, is
    one of the allowed letters: the lines before it are discarded whatever
    they hold, the answer returned is the lowered one, nothing after it is
    read; when no line is an allowed answer the prompt ends in
    [EOFError]. *)
Theorem X11_choice_reads_to_first_allowed allowed (w : @world rng_state) :
  match read_choice allowed w with
  | Ok (c, w') =>
      w_game w' = w_game w /\ w_player w' = w_player w
      /\ c ∈ allowed
      /\ exists pre l,
           w_stdin w = pre ++ l :: w_stdin w'
           /\ Forall (fun x => Py.lower (Py.strip x) ∉ allowed) pre
           /\ c = Py.lower (Py.strip l)
  | Raise e =>
      e = Py.EOFError
      /\ Forall (fun x => Py.lower (Py.strip x) ∉ allowed) (w_stdin w)
  | OutOfFuel => False
  end.
Proof.
  unfold read_choice.
  destruct (choice_lines allowed (w_stdin w)) as [[c rest]|] eqn:E.
  - cbn [w_game w_player w_stdin]. split; [done|]. split; [done|].
    apply choice_lines_Some in E as (pre & l & E & Hpre & Hc & Hin).
    split; [done|]. by exists pre, l.
  - split; [done|]. by apply choice_lines_None.
Qed.

End Prompts.

(** ** Matches *)

Section Matches.
Context {rng_state : Type} `{RS : !RandomSource rng_state}.

(** X12. With an empty list of players [run] never returns: each pass of
    [while True] runs the [for] loop over nothing and starts again, so no
    number of rounds is enough. *)
Theorem X12_no_players_never_returns rounds fuel interactive
    (g : @Game rng_state) stdin :
  players g = [] -> run rounds fuel interactive g stdin = OutOfFuel.
Proof.
  intros Hps. induction rounds as [|r IH]; cbn [run]; [done|].
  rewrite Hps. cbn [length seq play_round]. exact IH.
Qed.

Lemma play_round_winner interactive fuel todo :
  forall (g : @Game rng_state) s r g1 s',
  Forall (fun q => points q < points_to_win g) (players g) ->
  play_round fuel interactive todo g s = Ok (r, g1, s') ->
  points_to_win g1 = points_to_win g
  /\ (name <$> players g1) = (name <$> players g)
  /\ match r with
     | None => Forall (fun q => points q < points_to_win g) (players g1)
     | Some p =>
         points_to_win g <= points p
         /\ exists i, players g1 !! i = Some p
              /\ forall j q, players g1 !! j = Some q -> j <> i ->
                   points q < points_to_win g
     end.
Proof.
  induction todo as [|i todo IH]; intros g s r g1 s' Hlow H; cbn [play_round] in H.
  - by simplify_eq.
  - destruct (players g !! i) as [p|] eqn:Hp; [|by simplify_eq].
    destruct (play_turn fuel interactive {| w_game := g; w_player := p; w_stdin := s |})
      as [[o w]| |] eqn:Ht; [|done|done].
    apply play_turn_post in Ht as (_ & _ & _ & _ & _ & _ & _ & _ & _ & _ & _ & Hseat & _).
    destruct Hseat as (Hnm & _ & Hps & Hptw & _). cbn [w_game w_player] in *.
    assert (Hnames : name <$> <[i := w_player w]> (players (w_game w)) = name <$> players g).
    { rewrite Hps, list_fmap_insert, Hnm. apply list_insert_id.
      by rewrite list_lookup_fmap, Hp. }
    cbn [set_players points_to_win] in H.
    destruct (Z.leb_spec (points_to_win (w_game w)) (points (w_player w))) as [Hge|Hlt].
    + simplify_eq. cbn [set_players players points_to_win].
      split; [done|]. split; [done|]. split; [lia|].
      exists i. rewrite Hps. split.
      * apply list_lookup_insert_eq. by eapply lookup_lt_Some.
      * intros j q Hq Hne. rewrite list_lookup_insert_ne in Hq by done.
        by eapply (Forall_lookup_1 _ _ _ _ Hlow).
    + apply IH in H.
      * cbn [set_players players points_to_win] in H.
        destruct H as (-> & -> & Hr). split; [done|]. split; [done|].
        by rewrite Hptw in Hr.
      * cbn [set_players players points_to_win]. rewrite Hps, Hptw.
        apply Forall_insert; [done|lia].
Qed.

(** X13. In a match between players of pairwise distinct names, so that
    no player sits at two seats, that starts with every player below the
    target, the player [run] returns has reached the target and is the
    only one who has: the match stops at the first turn that reaches it.
    The target and the names at the table are those of the start. *)
Theorem X13_winner_alone_at_target rounds fuel interactive
    (g : @Game rng_state) stdin p g1 stdin1 :
  NoDup (name <$> players g) ->
  Forall (fun q => points q < points_to_win g) (players g) ->
  run rounds fuel interactive g stdin = Ok (p, g1, stdin1) ->
  points_to_win g <= points p
  /\ points_to_win g1 = points_to_win g
  /\ (name <$> players g1) = (name <$> players g)
  /\ exists i, players g1 !! i = Some p
       /\ forall j q, players g1 !! j = Some q -> j <> i ->
            points q < points_to_win g.
Proof.
  intros _. revert g stdin.
  induction rounds as [|r IH]; intros g stdin Hlow H; [done|].
  cbn [run] in H.
  destruct (play_round fuel interactive (seq 0 (length (players g))) g stdin)
    as [[[res g2] stdin2]| |] eqn:Hr; [|done|done].
  apply play_round_winner in Hr as (Hptw & Hnames & Hres); [|done].
  destruct res as [q|].
  - simplify_eq. tauto.
  - apply IH in H; [|by rewrite Hptw].
    rewrite Hptw, Hnames in H. exact H.
Qed.

Lemma play_round_no_raise interactive fuel todo :
  forall (g : @Game rng_state) s,
  good_deck (card_deck g) ->
  automatic interactive (players g) ->
  match play_round fuel interactive todo g s with
  | Ok (_, g1, _) => good_deck (card_deck g1) /\ automatic interactive (players g1)
  | Raise _ => False
  | OutOfFuel => True
  end.
Proof.
  induction todo as [|i todo IH]; intros g s Hgood Hauto; cbn [play_round]; [done|].
  destruct (players g !! i) as [p|] eqn:Hp; [|done].
  assert (Hq : is_ai p || negb interactive = true)
    by (by eapply (Forall_lookup_1 _ _ _ _ Hauto)).
  destruct (play_turn fuel interactive {| w_game := g; w_player := p; w_stdin := s |})
    as [[o w]|e|] eqn:Ht; [| |done].
  - apply play_turn_post in Ht
      as (c & d & _ & _ & Hd & Hdeck & _ & _ & _ & _ & _ & Hseat & _).
    destruct Hseat as (_ & Hai & Hps & _). cbn [w_game w_player] in *.
    destruct (draw_total (card_deck g)) as (c' & d' & Hd' & _ & Hc).
    rewrite Hd in Hd'. injection Hd' as <- <-.
    destruct (Hc Hgood) as [_ Hgood'].
    assert (Hauto1 : automatic interactive (<[i := w_player w]> (players (w_game w)))).
    { rewrite Hps. apply Forall_insert; [done|]. by rewrite Hai. }
    destruct (points_to_win _ <=? points (w_player w)).
    + cbn [set_players card_deck players]. by rewrite Hdeck.
    + apply IH; cbn [set_players card_deck players]; [by rewrite Hdeck|done].
  - apply play_turn_raises in Ht as (_ & Hh & Hi); [|done].
    cbn [w_player] in Hh. rewrite Hh, Hi in Hq. discriminate.
Qed.

Lemma run_no_raise rounds fuel interactive (g : @Game rng_state) stdin e :
  good_deck (card_deck g) ->
  automatic interactive (players g) ->
  run rounds fuel interactive g stdin <> Raise e.
Proof.
  revert g stdin. induction rounds as [|r IH]; intros g stdin Hgood Hauto; [done|].
  cbn [run].
  pose proof (play_round_no_raise interactive fuel (seq 0 (length (players g)))
                g stdin Hgood Hauto) as Hr.
  destruct (play_round fuel interactive (seq 0 (length (players g))) g stdin)
    as [[[res g2] stdin2]| |]; [|done|done].
  destruct res as [q|]; [done|]. destruct Hr as [Hg2 Ha2]. by apply IH.
Qed.

(** X14. A match in which every turn is automatic (all players are AI, or
    the game is not interactive, as under [--simulate]) never raises an
    exception when it starts from a deck of known cards: it returns a
    winner or goes on playing. *)
Theorem X14_automatic_match_never_raises rounds fuel interactive
    (g : @Game rng_state) stdin e :
  good_deck (card_deck g) ->
  automatic interactive (players g) ->
  run rounds fuel interactive g stdin <> Raise e.
Proof. apply run_no_raise. Qed.

End Matches.

(** ** The table *)

Section Table.
Context {rng_state : Type} `{RS : !RandomSource rng_state}.

Lemma make_players_lookup n ai_count k :
  (k < Z.to_nat n)%nat ->
  make_players n ai_count !! k
  = Some {| name := ("P" ++ pretty (Z.of_nat k + 1))%string;
            is_ai := if 0 <? ai_count then n - ai_count <? Z.of_nat k + 1 else false;
            points := 0 |}.
Proof.
  intros Hk. unfold make_players, Py.range.
  rewrite !list_lookup_fmap, lookup_seq_lt by done. reflexivity.
Qed.

Lemma make_players_length n ai_count :
  length (make_players n ai_count) = Z.to_nat n.
Proof. unfold make_players, Py.range. by rewrite !length_fmap, length_seq. Qed.

Lemma make_players_names n ai_count : NoDup (name <$> make_players n ai_count).
Proof.
  unfold make_players, Py.range. rewrite <- !list_fmap_compose.
  apply NoDup_fmap_2; [|apply NoDup_seq].
  intros x y. cbn. intros [= H]. apply pretty_Z_inj in H. lia.
Qed.

(** X15. [make_players(n, ai_count)] seats [n] players (none when [n] is
    not positive) under distinct names, all at 0 points; the AI players are
    the last [ai_count] of them, all of them when [ai_count] exceeds [n],
    none when it is not positive. *)
Theorem X15_make_players_roster (n ai_count : Z) :
  length (make_players n ai_count) = Z.to_nat n
  /\ NoDup (name <$> make_players n ai_count)
  /\ Forall (fun p => points p = 0) (make_players n ai_count)
  /\ (is_ai <$> make_players n ai_count)
     = replicate (Z.to_nat (n - Z.max ai_count 0)) false
       ++ replicate (Z.to_nat (Z.min n (Z.max ai_count 0))) true.
Proof.
  split; [apply make_players_length|]. split; [|split].
  - apply make_players_names.
  - apply Forall_lookup. intros k p Hp.
    assert (Hk : (k < Z.to_nat n)%nat).
    { rewrite <- (make_players_length n ai_count). by eapply lookup_lt_Some. }
    rewrite make_players_lookup in Hp by done. by simplify_eq.
  - apply list_eq. intros k. rewrite list_lookup_fmap.
    destruct (decide (k < Z.to_nat n)%nat) as [Hk|Hk].
    + rewrite make_players_lookup by done. cbn [fmap option_fmap option_map is_ai].
      destruct (decide (k < Z.to_nat (n - Z.max ai_count 0))%nat) as [Hh|Hh].
      * rewrite lookup_app_l by (rewrite length_replicate; lia).
        rewrite lookup_replicate_2 by done. f_equal.
        destruct (Z.ltb_spec 0 ai_count); [|done].
        destruct (Z.ltb_spec (n - ai_count) (Z.of_nat k + 1)); [lia|done].
      * rewrite lookup_app_r by (rewrite length_replicate; lia).
        rewrite length_replicate, lookup_replicate_2 by lia. f_equal.
        destruct (Z.ltb_spec 0 ai_count); [|lia].
        destruct (Z.ltb_spec (n - ai_count) (Z.of_nat k + 1)); [done|lia].
    + rewrite (proj2 (lookup_ge_None _ _)) by (rewrite make_players_length; lia).
      symmetry. apply lookup_ge_None. rewrite length_app, !length_replicate. lia.
Qed.

End Table.

(** ** More bounds on the score *)

Lemma face_points_multiple face c :
  1 <= face <= 6 -> 0 <= c -> exists k, ScoreSpec.face_points face c = 50 * k.
Proof.
  intros Hf Hc.
  unfold ScoreSpec.face_points, ScoreSpec.three_worth, ScoreSpec.single_worth.
  assert (Hc6 : face = 1 \/ face = 2 \/ face = 3 \/ face = 4 \/ face = 5 \/ face = 6)
    by lia.
  destruct (3 <=? c); destruct Hc6 as [->|[->|[->|[->|[->| ->]]]]]; cbn [Z.eqb Pos.eqb];
    eexists; [instantiate (1 := 20 + (c - 3) * 2)|instantiate (1 := 4)
             |instantiate (1 := 6)|instantiate (1 := 8)
             |instantiate (1 := 10 + (c - 3))|instantiate (1 := 12)
             |instantiate (1 := c * 2)|instantiate (1 := 0)
             |instantiate (1 := 0)|instantiate (1 := 0)
             |instantiate (1 := c)|instantiate (1 := 0)]; lia.
Qed.

(** X16. Every score is a multiple of 50; a roll that scores is worth at
    least 50. *)
Theorem X16_score_multiple_of_50 (dice : list Z) :
  (exists k, fst (score_dice dice) = 50 * k)
  /\ (fst (score_dice dice) <> 0 -> 50 <= fst (score_dice dice)).
Proof.
  assert (Hk : exists k, fst (score_dice dice) = 50 * k).
  { rewrite score_dice_points. unfold ScoreSpec.points. cbn [fmap list_fmap foldr].
    destruct (face_points_multiple 1 _ ltac:(lia) (occurrences_nonneg 1 dice)) as [k1 ->].
    destruct (face_points_multiple 2 _ ltac:(lia) (occurrences_nonneg 2 dice)) as [k2 ->].
    destruct (face_points_multiple 3 _ ltac:(lia) (occurrences_nonneg 3 dice)) as [k3 ->].
    destruct (face_points_multiple 4 _ ltac:(lia) (occurrences_nonneg 4 dice)) as [k4 ->].
    destruct (face_points_multiple 5 _ ltac:(lia) (occurrences_nonneg 5 dice)) as [k5 ->].
    destruct (face_points_multiple 6 _ ltac:(lia) (occurrences_nonneg 6 dice)) as [k6 ->].
    exists (k1 + k2 + k3 + k4 + k5 + k6). lia. }
  split; [exact Hk|]. destruct Hk as [k Hk].
  pose proof (score_dice_nonneg dice). lia.
Qed.

(** X17. A roll of at most six dice is worth at most 1600 points, the
    value of three 1s with three 6s. *)
Theorem X17_six_dice_at_most_1600 (dice : list Z) :
  (length dice <= 6)%nat -> fst (score_dice dice) <= 1600.
Proof.
  intros Hlen. rewrite score_dice_points.
  pose proof (occurrences_sum_le dice) as Hsum.
  unfold ScoreSpec.points. cbn [fmap list_fmap foldr] in *.
  pose proof (occurrences_nonneg 1 dice). pose proof (occurrences_nonneg 2 dice).
  pose proof (occurrences_nonneg 3 dice). pose proof (occurrences_nonneg 4 dice).
  pose proof (occurrences_nonneg 5 dice). pose proof (occurrences_nonneg 6 dice).
  unfold ScoreSpec.face_points, ScoreSpec.three_worth, ScoreSpec.single_worth.
  cbn [Z.eqb Pos.eqb].
  repeat match goal with
         | |- context [3 <=? ?c] => destruct (Z.leb_spec 3 c)
         end; lia.
Qed.

Lemma X17_six_dice_at_most_1600_witness :
  (length [1; 1; 1; 6; 6; 6]%Z <= 6)%nat /\ fst (score_dice [1; 1; 1; 6; 6; 6]) <= 1600.
Proof.
  assert (H : (length [1; 1; 1; 6; 6; 6]%Z <= 6)%nat) by (simpl; lia).
  split; [exact H|]. exact (X17_six_dice_at_most_1600 _ H).
Defined.

(** ** The scoring positions of a roll *)

Lemma range_S n : Py.range (Z.of_nat (S n)) = Py.range (Z.of_nat n) ++ [Z.of_nat n].
Proof. unfold Py.range. rewrite !Nat2Z.id, seq_S, fmap_app. reflexivity. Qed.

Lemma range_length n : length (Py.range (Z.of_nat n)) = n.
Proof. unfold Py.range. by rewrite length_fmap, length_seq, Nat2Z.id. Qed.

Lemma face_positions_snoc l x :
  face_positions (l ++ [x])
  = <[x := default [] (face_positions l !! x) ++ [Z.of_nat (length l)]]>
      (face_positions l).
Proof.
  unfold face_positions. rewrite length_app. cbn [length].
  replace (length l + 1)%nat with (S (length l)) by lia.
  rewrite range_S, zip_with_app by apply range_length.
  rewrite foldl_app. reflexivity.
Qed.

(** [face_positions] holds, for each face of the roll and no other key,
    the positions of that face in increasing order: entry [k] is the
    position with exactly [k] dice of the face before it. *)
Lemma face_positions_spec rl v :
  match face_positions rl !! v with
  | None => v ∉ rl
  | Some ps =>
      length ps = count_occ Z.eq_dec rl v
      /\ forall k i, ps !! k = Some i <->
           exists j, i = Z.of_nat j /\ rl !! j = Some v
                     /\ count_occ Z.eq_dec (take j rl) v = k
  end.
Proof.
  induction rl as [|x l IH] using rev_ind.
  - change (face_positions []) with (∅ : gmap Z (list Z)).
    rewrite lookup_empty. apply not_elem_of_nil.
  - rewrite face_positions_snoc.
    destruct (decide (v = x)) as [->|Hne].
    + rewrite lookup_insert_eq.
      set (ps0 := default [] (face_positions l !! x)).
      assert (Hps0 : length ps0 = count_occ Z.eq_dec l x
                /\ forall k i, ps0 !! k = Some i <->
                     exists j, i = Z.of_nat j /\ l !! j = Some x
                               /\ count_occ Z.eq_dec (take j l) x = k).
      { subst ps0. destruct (face_positions l !! x) as [ps|]; cbn [default]; [done|].
        split.
        - symmetry. apply count_occ_not_In. by rewrite <- list_elem_of_In.
        - intros k i. split; [done|]. intros (j & _ & Hj & _).
          destruct IH. by eapply list_elem_of_lookup_2. }
      clearbody ps0. destruct Hps0 as [Hlen Hspec]. split.
      * rewrite length_app, count_occ_app. cbn [length count_occ].
        destruct (Z.eq_dec x x); [lia|done].
      * intros k i. rewrite lookup_snoc_Some. split.
        -- intros [[Hk Hps]|[-> <-]].
           ++ apply Hspec in Hps as (j & -> & Hj & Hc). exists j.
              pose proof (lookup_lt_Some _ _ _ Hj) as Hlt.
              split; [done|]. split; [by rewrite lookup_app_l|].
              by rewrite take_app_le by lia.
           ++ exists (length l). split; [done|].
              split; [by apply list_lookup_middle|].
              by rewrite take_app_length.
        -- intros (j & -> & Hj & Hc).
           apply lookup_snoc_Some in Hj as [[Hlt Hj]|[-> _]].
           ++ left. rewrite take_app_le in Hc by lia.
              assert (Hps : ps0 !! k = Some (Z.of_nat j)) by (apply Hspec; eauto).
              split; [by eapply lookup_lt_Some|done].
           ++ right. rewrite take_app_length in Hc. split; [lia|done].
    + rewrite lookup_insert_ne by done.
      destruct (face_positions l !! v) as [ps|].
      * destruct IH as [Hlen Hspec]. split.
        -- rewrite count_occ_app. cbn [count_occ].
           destruct (Z.eq_dec x v); [congruence|lia].
        -- intros k i. rewrite Hspec. split.
           ++ intros (j & -> & Hj & Hc). exists j.
              pose proof (lookup_lt_Some _ _ _ Hj) as Hlt.
              split; [done|]. split; [by rewrite lookup_app_l|].
              by rewrite take_app_le by lia.
           ++ intros (j & -> & Hj & Hc). exists j.
              apply lookup_snoc_Some in Hj as [[Hlt Hj]|[_ ?]]; [|congruence].
              split; [done|]. split; [done|].
              by rewrite take_app_le in Hc by lia.
      * rewrite elem_of_app, list_elem_of_singleton. intros [?|?]; [done|congruence].
Qed.

Lemma scoring_indices_elem rl i :
  i ∈ scoring_indices rl <->
  exists face ps,
    face_positions rl !! face = Some ps
    /\ if (3 <=? length ps)%nat
       then i ∈ take 3 ps
            \/ (one_or_five face && (3 <? length ps)%nat = true /\ i ∈ drop 3 ps)
       else one_or_five face = true /\ i ∈ ps.
Proof.
  unfold scoring_indices. generalize (face_positions rl).
  apply (map_fold_weak_ind (fun (r : gset Z) (m : gmap Z (list Z)) =>
    i ∈ r <->
    exists face ps,
      m !! face = Some ps
      /\ if (3 <=? length ps)%nat
         then i ∈ take 3 ps
              \/ (one_or_five face && (3 <? length ps)%nat = true /\ i ∈ drop 3 ps)
         else one_or_five face = true /\ i ∈ ps)).
  - split; [intros H; by apply not_elem_of_empty in H|].
    intros (f & ps & H & _). by rewrite lookup_empty in H.
  - intros face ps m r Hnone IH.
    assert (Hstep : i ∈ (if (3 <=? length ps)%nat then
                           if one_or_five face && (3 <? length ps)%nat
                           then r ∪ list_to_set (take 3 ps) ∪ list_to_set (drop 3 ps)
                           else r ∪ list_to_set (take 3 ps)
                         else if one_or_five face then r ∪ list_to_set ps else r)
              <-> i ∈ r
                  \/ if (3 <=? length ps)%nat
                     then i ∈ take 3 ps
                          \/ (one_or_five face && (3 <? length ps)%nat = true
                              /\ i ∈ drop 3 ps)
                     else one_or_five face = true /\ i ∈ ps).
    { destruct (3 <=? length ps)%nat;
        [destruct (one_or_five face && (3 <? length ps)%nat)|destruct (one_or_five face)];
        rewrite ?elem_of_union, ?elem_of_list_to_set; intuition discriminate. }
    cbv zeta. rewrite Hstep, IH. clear Hstep IH. split.
    + intros [(f & qs & Hf & Hc)|Hc].
      * exists f, qs. split; [|done].
        rewrite lookup_insert_ne; [done|]. intros <-. congruence.
      * exists face, ps. by rewrite lookup_insert_eq.
    + intros (f & qs & Hf & Hc).
      destruct (decide (f = face)) as [->|Hne].
      * rewrite lookup_insert_eq in Hf. injection Hf as <-. by right.
      * rewrite lookup_insert_ne in Hf by done. left. by exists f, qs.
Qed.

Lemma scoring_position_spec rl i :
  i ∈ scoring_indices rl <->
  exists j v,
    i = Z.of_nat j /\ rl !! j = Some v
    /\ (one_or_five v = true
        \/ (3 <= ScoreSpec.occurrences v rl
            /\ ScoreSpec.occurrences v (take j rl) < 3)).
Proof.
  rewrite scoring_indices_elem. unfold ScoreSpec.occurrences. split.
  - intros (face & ps & Hf & Hc).
    pose proof (face_positions_spec rl face) as Hspec. rewrite Hf in Hspec.
    destruct Hspec as [Hlen Hspec].
    assert (Hin : forall k, ps !! k = Some i ->
              exists j, i = Z.of_nat j /\ rl !! j = Some face
                        /\ count_occ Z.eq_dec (take j rl) face = k)
      by (intros k; apply Hspec).
    destruct (Nat.leb_spec 3 (length ps)) as [H3|H3].
    + destruct Hc as [Hc|[Hb Hc]].
      * apply list_elem_of_lookup in Hc as [k Hk].
        apply lookup_take_Some in Hk as [Hk Hlt].
        destruct (Hin k Hk) as (j & -> & Hj & Hcount).
        exists j, face. split; [done|]. split; [done|]. right. lia.
      * apply andb_prop in Hb as [Hb _].
        apply list_elem_of_lookup in Hc as [k Hk]. rewrite lookup_drop in Hk.
        destruct (Hin _ Hk) as (j & -> & Hj & _).
        exists j, face. by repeat split; [|left].
    + destruct Hc as [Hb Hc]. apply list_elem_of_lookup in Hc as [k Hk].
      destruct (Hin _ Hk) as (j & -> & Hj & _).
      exists j, face. by repeat split; [|left].
  - intros (j & v & -> & Hj & Hc).
    pose proof (face_positions_spec rl v) as Hspec.
    destruct (face_positions rl !! v) as [ps|] eqn:Hf;
      [|destruct Hspec; by eapply list_elem_of_lookup_2].
    destruct Hspec as [Hlen Hspec]. exists v, ps. split; [done|].
    set (k := count_occ Z.eq_dec (take j rl) v).
    assert (Hk : ps !! k = Some (Z.of_nat j)) by (apply Hspec; eauto).
    pose proof (lookup_lt_Some _ _ _ Hk) as Hklt.
    destruct (Nat.leb_spec 3 (length ps)) as [H3|H3].
    + destruct (decide (k < 3)%nat) as [Hk3|Hk3].
      * left. apply list_elem_of_lookup. exists k. by apply lookup_take_Some.
      * destruct Hc as [Hb|[_ Hlt]]; [|lia]. right. split.
        -- rewrite Hb. cbn [andb]. apply Nat.ltb_lt. lia.
        -- apply list_elem_of_lookup. exists (k - 3)%nat. rewrite lookup_drop.
           by replace (3 + (k - 3))%nat with k by lia.
    + destruct Hc as [Hb|[Hge _]]; [|lia]. split; [done|].
      by eapply list_elem_of_lookup_2.
Qed.

(** X18. The positions [play_turn] lets the player choose from are those
    of the 1s and the 5s, and the first three positions of any face the
    roll holds at least three times; they are positions of the roll,
    counted from 0. *)
Theorem X18_scoring_indices_spec (rl : list Z) (i : Z) :
  i ∈ scoring_indices rl <->
  exists j v,
    i = Z.of_nat j /\ rl !! j = Some v
    /\ (one_or_five v = true
        \/ (3 <= ScoreSpec.occurrences v rl
            /\ ScoreSpec.occurrences v (take j rl) < 3)).
Proof. apply scoring_position_spec. Qed.

Lemma first_occurrence (v : Z) (l : list Z) :
  v ∈ l -> exists j, l !! j = Some v /\ count_occ Z.eq_dec (take j l) v = 0%nat.
Proof.
  induction l as [|x l IH]; [by intros H; apply elem_of_nil in H|].
  destruct (decide (x = v)) as [->|Hne].
  - intros _. by exists 0%nat.
  - intros H. apply elem_of_cons in H as [->|H]; [done|].
    destruct (IH H) as (j & Hj & Hc). exists (S j). split; [done|].
    cbn [take count_occ]. by destruct (Z.eq_dec x v).
Qed.

Lemma one_or_five_cases v : one_or_five v = true <-> v = 1 \/ v = 5.
Proof. unfold one_or_five. rewrite orb_true_iff, !Z.eqb_eq. tauto. Qed.

(** X19. On a roll of dice between 1 and 6 the menu has a position to
    offer exactly when the roll scores: [scoring_indices] is empty on a
    bust and on nothing else. *)
Theorem X19_positions_iff_scoring_roll (rl : list Z) :
  Forall (fun v => 1 <= v <= 6) rl ->
  (scoring_indices rl <> ∅ <-> is_scoring_roll rl = true).
Proof.
  intros Hrange. rewrite scoring_roll_cases. split.
  - intros Hne. apply set_choose_L in Hne as [i Hi].
    apply scoring_position_spec in Hi as (j & v & _ & Hj & Hc).
    assert (Hv : 1 <= v <= 6) by (by eapply (Forall_lookup_1 _ _ _ _ Hrange)).
    assert (Hin : v ∈ rl) by (by eapply list_elem_of_lookup_2).
    destruct Hc as [Hb|[H3 _]].
    + apply one_or_five_cases in Hb as [->| ->]; tauto.
    + right. right. by exists v.
  - intros Hc.
    assert (Hex : exists i, i ∈ scoring_indices rl).
    { destruct Hc as [H1|[H5|(face & Hf & H3)]].
      - apply list_elem_of_lookup in H1 as [j Hj]. exists (Z.of_nat j).
        apply scoring_position_spec. exists j, 1. by repeat split; [|left].
      - apply list_elem_of_lookup in H5 as [j Hj]. exists (Z.of_nat j).
        apply scoring_position_spec. exists j, 5. by repeat split; [|left].
      - assert (Hin : face ∈ rl) by (apply occurrences_pos_elem_of; lia).
        destruct (first_occurrence face rl Hin) as (j & Hj & H0).
        exists (Z.of_nat j). apply scoring_position_spec. exists j, face.
        split; [done|]. split; [done|]. right. split; [done|].
        unfold ScoreSpec.occurrences. rewrite H0. lia. }
    destruct Hex as [i Hi]. intros He. rewrite He in Hi.
    by apply not_elem_of_empty in Hi.
Qed.

Lemma X19_positions_iff_scoring_roll_witness :
  Forall (fun v => 1 <= v <= 6) [2; 3; 3; 4; 6; 3]
  /\ (scoring_indices [2; 3; 3; 4; 6; 3] <> ∅
      <-> is_scoring_roll [2; 3; 3; 4; 6; 3] = true).
Proof.
  assert (H : Forall (fun v => 1 <= v <= 6) [2; 3; 3; 4; 6; 3])
    by (repeat constructor; lia).
  split; [exact H|]. exact (X19_positions_iff_scoring_roll _ H).
Defined.

(** X20. The selection of indices never raises.  What it accepts is a
    line of numbers that each name a scoring position of the roll
    (counted from 1); the score taken is that of the dice named, and is
    positive; the count taken is the number of indices typed, at least one,
    and no more than the dice rolled when no index is typed twice. *)
Theorem X20_selection_accepted (rl : list Z) (line : string) :
  match choose_indices rl line with
  | Ok (Some (ts, tc)) =>
      exists ns chosen,
        mapM Py.int (Py.split (Py.strip line)) = Some ns
        /\ Forall (fun n => n - 1 ∈ scoring_indices rl) ns
        /\ Forall2 (fun n v => rl !! Z.to_nat (n - 1) = Some v) ns chosen
        /\ ts = fst (score_dice chosen) /\ 0 < ts
        /\ tc = Z.of_nat (length ns) /\ 1 <= tc
        /\ (NoDup ns -> tc <= Z.of_nat (length rl))
  | Ok None => True
  | Raise _ => False
  | OutOfFuel => False
  end.
Proof.
  unfold choose_indices.
  destruct (mapM Py.int (Py.split (Py.strip line))) as [ns|]; [|done].
  destruct (existsb _ _) eqn:Ebounds; [done|].
  destruct (forallb _ _) eqn:Escoring; cbn [negb]; [|done].
  destruct (mapM (fun i => rl !! Z.to_nat i) ((fun n => n - 1) <$> ns))
    as [chosen|] eqn:Em.
  2:{ apply mapM_None in Em. apply Exists_exists in Em as (i & Hi & Hnone).
      assert (Hb : (i <? 0) || (Z.of_nat (length rl) <=? i) = false).
      { apply not_true_is_false. intros Ht.
        assert (existsb (fun i => (i <? 0) || (Z.of_nat (length rl) <=? i))
                  ((fun n => n - 1) <$> ns) = true); [|congruence].
        apply existsb_exists. exists i. split; [by apply list_elem_of_In|done]. }
      apply orb_false_elim in Hb as [H1 H2].
      apply Z.ltb_ge in H1. apply Z.leb_gt in H2.
      apply lookup_ge_None in Hnone. lia. }
  destruct (Z.eqb_spec (fst (score_dice chosen)) 0) as [E0|Hne]; [done|].
  assert (Hts : 0 < fst (score_dice chosen))
    by (pose proof (score_dice_nonneg chosen); lia).
  assert (Htc : 1 <= Z.of_nat (length chosen)).
  { pose proof (score_dice_used_pos chosen Hne).
    pose proof (score_dice_total_le chosen). lia. }
  apply mapM_Some in Em. apply Forall2_fmap_l in Em.
  pose proof (Forall2_length _ _ _ Em) as Hlen.
  exists ns, chosen. split; [done|]. split.
  { apply Forall_forall. intros n Hn.
    rewrite forallb_forall in Escoring.
    assert (Hin : In (n - 1) ((fun n => n - 1) <$> ns)).
    { apply list_elem_of_In, list_elem_of_fmap. by exists n. }
    apply Escoring in Hin. by apply bool_decide_eq_true in Hin. }
  split; [done|]. split; [done|]. split; [done|].
  split; [by rewrite Hlen|]. split; [done|].
  intros Hnd. rewrite <- Hlen.
  assert (Hsub : ((fun n => n - 1) <$> ns) ⊆+ Py.range (Z.of_nat (length rl))).
  { apply NoDup_submseteq.
    - apply NoDup_fmap_2; [|done]. intros x y. lia.
    - intros i Hi. unfold Py.range. rewrite Nat2Z.id.
      apply list_elem_of_fmap. exists (Z.to_nat i).
      assert (Hb : (i <? 0) || (Z.of_nat (length rl) <=? i) = false).
      { apply not_true_is_false. intros Ht.
        assert (existsb (fun i => (i <? 0) || (Z.of_nat (length rl) <=? i))
                  ((fun n => n - 1) <$> ns) = true); [|congruence].
        apply existsb_exists. exists i. split; [by apply list_elem_of_In|done]. }
      apply orb_false_elim in Hb as [H1 H2].
      apply Z.ltb_ge in H1. apply Z.leb_gt in H2.
      split; [lia|]. apply elem_of_seq. lia. }
  apply submseteq_length in Hsub.
  rewrite length_fmap, range_length in Hsub. lia.
Qed.

(** ** The program *)

Section MainFacts.
Context {rng_state : Type} `{RS : !RandomSource rng_state}.

Lemma ask_names_spec k : forall (ps : list Player) stdin,
  (k <= length ps)%nat ->
  ask_names k ps stdin
  = if decide (k <= length stdin)%nat
    then Ok (zip_with rename (take k stdin) (take k ps) ++ drop k ps, drop k stdin)
    else Raise Py.EOFError.
Proof.
  induction k as [|k IH]; intros ps stdin Hk.
  - cbn [ask_names]. destruct (decide (0 <= length stdin)%nat); [|lia].
    by destruct ps.
  - destruct ps as [|p ps]; [cbn in Hk; lia|]. cbn [ask_names].
    destruct stdin as [|line stdin].
    + destruct (decide (S k <= length [])%nat) as [H|H]; [cbn in H; lia|done].
    + rewrite IH by (cbn in Hk; lia). cbn [length].
      destruct (decide (k <= length stdin)%nat);
        destruct (decide (S k <= S (length stdin))%nat); try lia; done.
Qed.

(** X21. When the number of AI players lies between 0 and [n], [main]
    puts the name prompt to the human players and to nobody else: they
    are the first [n - ai_count] of the table, each answer renames its
    player unless it is blank, the AI players keep their names, and the
    input must hold an answer for each human or the program ends in
    [EOFError]. *)
Theorem X21_names_asked_of_humans (n ai_count : Z) (stdin : list string) :
  0 <= ai_count <= n ->
  let ps := make_players n ai_count in
  let k := Z.to_nat (n - ai_count) in
  Forall (fun p => is_ai p = false) (take k ps)
  /\ Forall (fun p => is_ai p = true) (drop k ps)
  /\ name_prompts n ai_count stdin
     = if decide (k <= length stdin)%nat
       then Ok (zip_with rename (take k stdin) (take k ps) ++ drop k ps,
                drop k stdin)
       else Raise Py.EOFError.
Proof.
  intros Hai ps k. subst ps k. split; [|split].
  - apply Forall_lookup. intros j p Hj.
    apply lookup_take_Some in Hj as [Hj Hlt].
    rewrite make_players_lookup in Hj by lia. simplify_eq. cbn [is_ai].
    destruct (Z.ltb_spec 0 ai_count); [|done]. apply Z.ltb_ge. lia.
  - apply Forall_lookup. intros j p Hj. rewrite lookup_drop in Hj.
    pose proof (lookup_lt_Some _ _ _ Hj) as Hlt.
    rewrite make_players_length in Hlt.
    rewrite make_players_lookup in Hj by lia. simplify_eq. cbn [is_ai].
    destruct (Z.ltb_spec 0 ai_count); [apply Z.ltb_lt|]; lia.
  - unfold name_prompts, slice_to.
    destruct (Z.leb_spec 0 (n - ai_count)); [|lia].
    rewrite length_take, make_players_length.
    replace (Z.to_nat (n - ai_count) `min` Z.to_nat n)%nat
      with (Z.to_nat (n - ai_count)) by lia.
    apply ask_names_spec. rewrite make_players_length. lia.
Qed.

Lemma automatic_false (ps : list (@Player)) : automatic false ps.
Proof.
  unfold automatic. apply Forall_forall. intros p _. cbn [negb].
  apply orb_true_r.
Qed.

Lemma simulate_tally rounds fuel a stdin (p : Player) (g : @Game rng_state) n :
  run rounds fuel false
      (Game_init (make_players (a_players a) (ai_count_of a)) (a_points_to_win a)
         (a_ai_threshold_points a) (a_seed a) false) stdin
  = Ok (p, g, stdin) ->
  forall wins,
    simulate n rounds fuel a wins stdin
    = Ok (match n with
          | O => wins
          | S _ => <[name p := default 0 (wins !! name p) + Z.of_nat n]> wins
          end, stdin).
Proof.
  intros Hrun. induction n as [|n IH]; intros wins; [done|].
  cbn [simulate]. rewrite Hrun, IH. destruct n as [|n]; [done|].
  rewrite lookup_insert_eq. cbn [from_option id]. rewrite insert_insert_eq.
  do 2 f_equal. apply (f_equal (fun v => <[name p := v]> wins)). lia.
Qed.

(** X22. Under [--simulate N] every game is built anew from the same
    seed, so the [N] games are one game played [N] times: when that game
    ends, the tally holds its winner alone, with all [N] wins, and the
    input is untouched. *)
Theorem X22_simulation_repeats_one_game rounds fuel a stdin
    (p : Player) (g : @Game rng_state) s :
  0 < a_simulate a ->
  run rounds fuel false
      (Game_init (make_players (a_players a) (ai_count_of a)) (a_points_to_win a)
         (a_ai_threshold_points a) (a_seed a) false) stdin
  = Ok (p, g, s) ->
  main rounds fuel a stdin = Ok (Simulated {[name p := a_simulate a]}, stdin).
Proof.
  intros Hn Hrun.
  assert (Hs : s = stdin).
  { pose proof (run_quiet false fuel rounds _ stdin stdin
                  (automatic_false (players (Game_init
                     (make_players (a_players a) (ai_count_of a)) (a_points_to_win a)
                     (a_ai_threshold_points a) (a_seed a) false)))) as Hq.
    rewrite Hrun in Hq. cbn [replace_input] in Hq. congruence. }
  subst s. unfold main. rewrite (proj2 (Z.ltb_lt _ _) Hn).
  rewrite (simulate_tally rounds fuel a stdin p g _ Hrun).
  destruct (Z.to_nat (a_simulate a)) as [|m] eqn:Em; [lia|].
  rewrite lookup_empty. cbn [from_option id]. rewrite insert_empty, <- Em.
  do 3 f_equal. apply (f_equal (fun v => {[name p := v]})). lia.
Qed.

Lemma simulate_no_raise rounds fuel a e n : forall wins stdin,
  simulate (rng_state:=rng_state) n rounds fuel a wins stdin <> Raise e.
Proof.
  induction n as [|n IH]; intros wins stdin; [done|]. cbn [simulate].
  pose proof (run_no_raise rounds fuel false
                (Game_init (make_players (a_players a) (ai_count_of a))
                   (a_points_to_win a) (a_ai_threshold_points a) (a_seed a) false)
                stdin) as Hr.
  destruct (run rounds fuel false _ stdin) as [[[p g] s]|e'|]; [apply IH| |done].
  exfalso. apply (Hr e'); [apply init_good_deck|apply automatic_false|done].
Qed.

(** X23. Run with [--simulate], or with [--ai] so that every player is an
    AI, the program never raises an exception: no name is asked, no card
    or roll can fail, and the end of the input cannot be reached. *)
Theorem X23_automatic_program_never_raises rounds fuel a stdin e :
  0 < a_simulate a \/ a_ai a = true ->
  main (rng_state:=rng_state) rounds fuel a stdin <> Raise e.
Proof.
  intros Hmode. unfold main.
  destruct (Z.ltb_spec 0 (a_simulate a)) as [Hsim|Hsim].
  - pose proof (fun e' => simulate_no_raise rounds fuel a e'
                              (Z.to_nat (a_simulate a)) ∅ stdin) as Hs.
    destruct (simulate _ rounds fuel a ∅ stdin) as [[wins s]|e'|]; [done| |done].
    by destruct (Hs e').
  - destruct Hmode as [?|Hai]; [lia|].
    unfold ai_count_of, name_prompts, slice_to. rewrite Hai, Z.sub_diag.
    change (0 <=? 0) with true. cbv iota.
    change (Z.to_nat 0) with 0%nat. rewrite take_0. cbn [length ask_names].
    pose proof (fun e' => run_no_raise rounds fuel true
                  (Game_init (make_players (a_players a) (a_players a))
                     (a_points_to_win a) (a_ai_threshold_points a) (a_seed a)
                     (a_gui a)) stdin e' (init_good_deck _)) as Hr.
    destruct (run rounds fuel true _ stdin) as [[[p g] s]|e'|]; [done| |done].
    exfalso. apply (Hr e'); [|done].
    unfold automatic. cbn [Game_init players]. apply Forall_lookup. intros j q Hj.
    pose proof (lookup_lt_Some _ _ _ Hj) as Hlt. rewrite make_players_length in Hlt.
    rewrite make_players_lookup in Hj by done. simplify_eq. cbn [is_ai].
    destruct (Z.ltb_spec 0 (a_players a)); [|lia].
    destruct (Z.ltb_spec (a_players a - a_players a) (Z.of_nat j + 1)); [done|lia].
Qed.

End MainFacts.

(** ** What a turn leaves alone, and when it ends *)

Section TurnFrame.
Context {rng_state : Type} `{RS : !RandomSource rng_state}.

(** X24. A finished turn has drawn exactly one card; it leaves the
    player's name and kind, the list of players and the settings of the
    game as they were.  A turn skipped by NoDice rolls no die, returns 0
    and leaves the player's points alone. *)
Theorem X24_turn_frame fuel interactive (w : @world rng_state) out w' :
  play_turn fuel interactive w = Ok (out, w') ->
  (exists c, draw (card_deck (w_game w)) = Ok (c, card_deck (w_game w')))
  /\ same_seat w w'
  /\ (how_ended out = Skipped ->
      rng (w_game w') = rng (w_game w)
      /\ points (w_player w') = points (w_player w)
      /\ returned out = 0 /\ picks (final out) = []).
Proof.
  intros H. pose proof H as Hpost.
  apply play_turn_post in Hpost
    as (c & d & sp & w1 & Hd & Hdeck & _ & _ & Hskip & Hpost).
  destruct Hpost as (_ & _ & Hseat & Hpts & Hret & _).
  split; [exists c; by rewrite Hdeck|]. split; [done|].
  intros Hs. rewrite Hs in Hpts, Hret. cbn [credited returned_by] in Hpts, Hret.
  assert (Hskipped : rng (w_game w') = rng (w_game w) /\ picks (final out) = []).
  { revert H. unfold play_turn. rewrite bind_eq.
    destruct (draw_card w) as [[c' w2]| |] eqn:Hdc; [|done|done].
    apply draw_card_ok in Hdc as (d' & _ & _ & Hrng & _).
    rewrite bind_eq.
    destruct (read_card c' w2) as [[sp' w3]| |] eqn:Hr; [|done|done].
    apply read_card_ok in Hr as (-> & Hadd & _).
    destruct (no_dice sp').
    - rewrite bind_eq. unfold get_player. rewrite bind_eq.
      unfold when, _ack, ret.
      repeat case_match; intros; simplify_eq; done.
    - intros Hl.
      destruct (turn_loop_post _ _ _ _ _ _ Hl (bonus_once_start sp' Hadd))
        as (Hne & _); [intros; constructor|intros; constructor|done]. }
  destruct Hskipped as [Hrng Hpicks].
  split; [done|]. split; [lia|]. by split.
Qed.

Lemma choice_lines_shorter allowed ls c rest :
  choice_lines allowed ls = Some (c, rest) -> (length rest < length ls)%nat.
Proof.
  intros H. apply choice_lines_Some in H as (pre & l & -> & _).
  rewrite length_app. cbn [length]. lia.
Qed.

Ltac unfold_pass :=
  cbv beta iota zeta delta
    [loop_body bind ret raise roll get_player get_game when add_points
     read_choice _prompt _ack lift w_game w_player w_stdin
     rng players points_to_win ai_threshold_points card_deck use_gui
     name is_ai points].

#[local] Opaque keep score_dice choose_indices.

(** A pass of the loop that sends a human player to the next roll has
    read at least one line. *)
Lemma loop_body_reads t (w : @world rng_state) :
  is_ai (w_player w) = false ->
  match loop_body true t w with
  | Ok (Continue _, w') =>
      is_ai (w_player w') = false
      /\ (length (w_stdin w') < length (w_stdin w))%nat
  | Ok (Return _ _ _, _) => True
  | Raise _ => True
  | OutOfFuel => False
  end.
Proof.
  destruct w as [g p stdin]. destruct g as [ps ptw thr r d gui].
  destruct p as [nm ai pts]. cbn [w_player is_ai]. intros ->. unfold_pass.
  destruct (roll_dice (Z.to_nat (dice_left t)) r) as [rl r'].
  destruct (score_dice rl) as [score used].
  destruct (score =? 0).
  - destruct (must_bust (special t)); cbv beta iota; cbn [andb negb]; cbv beta iota;
      destruct gui; cbv beta iota; try done;
      destruct (ack_lines stdin); cbv beta iota; done.
  - cbn [orb negb]. cbv beta iota.
    destruct (choice_lines ["k"; "b"; "c"] stdin) as [[c stdin1]|] eqn:E1;
      cbv beta iota; [|done].
    apply choice_lines_shorter in E1.
    destruct (String.eqb c "b"); cbv beta iota.
    { destruct (double_trouble (special t) && (fills t <? 2)); cbv beta iota;
        [split; [done|lia]|done]. }
    destruct (String.eqb c "k"); cbv beta iota.
    { destruct (choice_lines ["r"; "b"] stdin1) as [[c2 stdin2]|] eqn:E2;
        cbv beta iota; [|done].
      apply choice_lines_shorter in E2.
      destruct (String.eqb c2 "b"); cbv beta iota; [done|split; [done|lia]]. }
    destruct stdin1 as [|line stdin2]; cbv beta iota; [done|].
    cbn [length] in E1.
    destruct (choose_indices_ok rl line) as (o & -> & _). cbv beta iota.
    destruct o as [[ts tc]|]; cbv beta iota; [|split; [done|lia]].
    destruct (choice_lines ["r"; "b"] stdin2) as [[c2 stdin3]|] eqn:E3;
      cbv beta iota; [|done].
    apply choice_lines_shorter in E3.
    destruct (String.eqb c2 "b"); cbv beta iota; [done|split; [done|lia]].
Qed.

#[local] Transparent keep score_dice choose_indices.

Lemma turn_loop_ends fuel : forall t (w : @world rng_state),
  is_ai (w_player w) = false ->
  (length (w_stdin w) < fuel)%nat ->
  turn_loop fuel true t w <> OutOfFuel.
Proof.
  induction fuel as [|k IH]; intros t w Hh Hlen; [lia|].
  cbn [turn_loop]. rewrite bind_eq.
  pose proof (loop_body_reads t w Hh) as Hr.
  destruct (loop_body true t w) as [[s w1]| |]; [|done|done].
  destruct s as [t1|v t1 how]; [|done].
  destruct Hr as [Hh1 Hlt]. apply IH; [done|lia].
Qed.

(** X25. The turn of a human player at the keyboard ends: every pass of
    its loop that goes on to another roll has read a line, so with one
    more pass than there are lines of input the turn returns or raises,
    and is never still running.  (With dialogs there is no end of input,
    and a player who cancels every dialog keeps the menu coming back.) *)
Theorem X25_human_turn_ends fuel (w : @world rng_state) :
  use_gui (w_game w) = false ->
  is_ai (w_player w) = false ->
  (length (w_stdin w) < fuel)%nat ->
  play_turn fuel true w <> OutOfFuel.
Proof.
  intros _ Hh Hlen. unfold play_turn. rewrite bind_eq.
  destruct (draw_card w) as [[c w1]| |] eqn:Hd.
  - apply draw_card_ok in Hd as (d & _ & _ & _ & Hpl & Hin & _).
    rewrite bind_eq.
    destruct (read_card c w1) as [[sp w2]| |] eqn:Hr.
    + apply read_card_ok in Hr as (-> & _).
      destruct (no_dice sp).
      * rewrite bind_eq. unfold get_player. rewrite bind_eq.
        unfold when, _ack, ret. repeat case_match; done.
      * apply turn_loop_ends; [by rewrite Hpl|by rewrite Hin].
    + done.
    + exfalso. revert Hr. unfold read_card, ret, raise. repeat case_match; done.
  - done.
  - exfalso. revert Hd. unfold draw_card, draw. repeat case_match; done.
Qed.

Lemma play_round_grows interactive fuel todo :
  forall (g : @Game rng_state) s r g1 s',
  good_deck (card_deck g) ->
  play_round fuel interactive todo g s = Ok (r, g1, s') ->
  good_deck (card_deck g1)
  /\ Forall2 (fun q q' => name q' = name q /\ is_ai q' = is_ai q
                          /\ points q <= points q')
             (players g) (players g1).
Proof.
  induction todo as [|i todo IH]; intros g s r g1 s' Hgood H; cbn [play_round] in H.
  - simplify_eq. split; [done|]. apply Forall_Forall2_diag, Forall_forall.
    intros; split; [done|split; [done|lia]].
  - destruct (players g !! i) as [p|] eqn:Hp.
    2:{ simplify_eq. split; [done|]. apply Forall_Forall2_diag, Forall_forall.
        intros; split; [done|split; [done|lia]]. }
    destruct (play_turn fuel interactive {| w_game := g; w_player := p; w_stdin := s |})
      as [[o w]| |] eqn:Ht; [|done|done].
    pose proof (play_turn_points fuel interactive
                  {| w_game := g; w_player := p; w_stdin := s |} o w Hgood Ht)
      as (Hmono & _).
    apply play_turn_post in Ht
      as (c & d & _ & _ & Hd & Hdeck & _ & _ & _ & _ & _ & Hseat & _).
    destruct Hseat as (Hnm & Hai & Hps & _). cbn [w_game w_player] in *.
    destruct (draw_total (card_deck g)) as (c' & d' & Hd' & _ & Hc).
    rewrite Hd in Hd'. injection Hd' as <- <-.
    destruct (Hc Hgood) as [_ Hgood'].
    assert (Hstep : Forall2 (fun q q' => name q' = name q /\ is_ai q' = is_ai q
                                         /\ points q <= points q')
                      (players g) (<[i := w_player w]> (players (w_game w)))).
    { rewrite Hps. rewrite <- (list_insert_id (players g) i p Hp) at 1.
      apply Forall2_insert; [|done].
      apply Forall_Forall2_diag, Forall_forall.
      intros; split; [done|split; [done|lia]]. }
    rewrite <- Hdeck in Hgood'.
    destruct (points_to_win _ <=? points (w_player w)).
    + injection H as <- <- <-. cbn [set_players card_deck players]. by split.
    + apply IH in H; [|done].
      destruct H as [Hg1 Hrest]. split; [done|].
      cbn [set_players players] in Hrest.
      eapply Forall2_trans; [|exact Hstep|exact Hrest].
      intros x y z (-> & -> & ?) (-> & -> & ?). split; [done|split; [done|lia]].
Qed.

(** X26. Through a match that starts from a deck of known cards no score
    ever goes down: when [run] returns, every seat holds the player it
    held at the start, with the same name and kind and at least as many
    points. *)
Theorem X26_scores_never_decrease rounds fuel interactive
    (g : @Game rng_state) stdin p g1 stdin1 :
  good_deck (card_deck g) ->
  run rounds fuel interactive g stdin = Ok (p, g1, stdin1) ->
  Forall2 (fun q q' => name q' = name q /\ is_ai q' = is_ai q
                       /\ points q <= points q')
          (players g) (players g1).
Proof.
  revert g stdin. induction rounds as [|r IH]; intros g stdin Hgood H; [done|].
  cbn [run] in H.
  destruct (play_round fuel interactive (seq 0 (length (players g))) g stdin)
    as [[[res g2] stdin2]| |] eqn:Hr; [|done|done].
  apply play_round_grows in Hr as [Hg2 Hstep]; [|done].
  destruct res as [q|].
  - by simplify_eq.
  - apply IH in H; [|done].
    eapply Forall2_trans; [|exact Hstep|exact H].
    intros x y z (-> & -> & ?) (-> & -> & ?). split; [done|split; [done|lia]].
Qed.

End TurnFrame.

(** ** Replays of the further properties *)

Lemma eof_turn_eq : play_turn 10 true (Lcg.seat 500 1 false []) = Raise Py.EOFError.
Proof. vm_compute. reflexivity. Qed.

Lemma ai_match_eq :
  run 50 50 false (Game_init (make_players 2 2) 2000 500 1 false) []
  = Ok (fst (fst Lcg.ai_match), snd (fst Lcg.ai_match), snd Lcg.ai_match).
Proof. vm_compute. reflexivity. Qed.

Lemma X7_turn_raises_only_eof_witness :
  good_deck (card_deck (w_game (Lcg.seat 500 1 false [])))
  /\ play_turn 10 true (Lcg.seat 500 1 false []) = Raise Py.EOFError
  /\ is_ai (w_player (Lcg.seat 500 1 false [])) = false.
Proof.
  assert (Hgood : good_deck (card_deck (w_game (Lcg.seat 500 1 false []))))
    by exact (init_good_deck 1).
  split; [exact Hgood|]. split; [exact eof_turn_eq|].
  exact (proj1 (proj2 (X7_turn_raises_only_eof 10 true (Lcg.seat 500 1 false [])
                         Py.EOFError Hgood eof_turn_eq))).
Defined.

Lemma X8_turn_never_loses_points_witness :
  good_deck (card_deck (w_game (Lcg.seat 500 9 true [])))
  /\ play_turn 10 false (Lcg.seat 500 9 true [])
     = Ok (fst Lcg.filled_turn, snd Lcg.filled_turn)
  /\ points (w_player (Lcg.seat 500 9 true []))
     <= points (w_player (snd Lcg.filled_turn))
  /\ 0 <= turn_points (final (fst Lcg.filled_turn))
  /\ 0 <= returned (fst Lcg.filled_turn).
Proof.
  assert (Hgood : good_deck (card_deck (w_game (Lcg.seat 500 9 true []))))
    by exact (init_good_deck 9).
  split; [exact Hgood|]. split; [exact filled_turn_eq|].
  exact (X8_turn_never_loses_points 10 false (Lcg.seat 500 9 true [])
           (fst Lcg.filled_turn) (snd Lcg.filled_turn) Hgood filled_turn_eq).
Defined.

Lemma X9_automatic_dice_in_hand_witness :
  is_ai (w_player (Lcg.seat 500 9 true [])) || negb false = true
  /\ play_turn 10 false (Lcg.seat 500 9 true [])
     = Ok (fst Lcg.filled_turn, snd Lcg.filled_turn)
  /\ 1 <= dice_left (final (fst Lcg.filled_turn)) <= 6.
Proof.
  split; [reflexivity|]. split; [exact filled_turn_eq|].
  exact (proj1 (X9_automatic_dice_in_hand 10 false (Lcg.seat 500 9 true [])
                  (fst Lcg.filled_turn) (snd Lcg.filled_turn)
                  eq_refl filled_turn_eq)).
Defined.

Lemma X12_no_players_never_returns_witness :
  players (Game_init (make_players 0 0) 2000 500 1 false) = []
  /\ run 7 10 false (Game_init (make_players 0 0) 2000 500 1 false) [] = OutOfFuel.
Proof.
  split; [reflexivity|].
  exact (X12_no_players_never_returns 7 10 false
           (Game_init (make_players 0 0) 2000 500 1 false) [] eq_refl).
Defined.

Lemma X13_winner_alone_at_target_witness :
  NoDup (name <$> make_players 2 2)
  /\ Forall (fun q => points q < 2000) (make_players 2 2)
  /\ run 50 50 false (Game_init (make_players 2 2) 2000 500 1 false) []
     = Ok (fst (fst Lcg.ai_match), snd (fst Lcg.ai_match), snd Lcg.ai_match)
  /\ 2000 <= points (fst (fst Lcg.ai_match))
  /\ (points <$> players (snd (fst Lcg.ai_match))) = [2250; 1400].
Proof.
  assert (H : Forall (fun q => points q < 2000) (make_players 2 2))
    by (vm_compute; repeat constructor).
  split; [exact (make_players_names 2 2)|].
  split; [exact H|]. split; [exact ai_match_eq|].
  split; [|reflexivity].
  exact (proj1 (X13_winner_alone_at_target 50 50 false
                  (Game_init (make_players 2 2) 2000 500 1 false) []
                  (fst (fst Lcg.ai_match)) (snd (fst Lcg.ai_match))
                  (snd Lcg.ai_match) (make_players_names 2 2) H ai_match_eq)).
Defined.

Lemma X14_automatic_match_never_raises_witness :
  good_deck (card_deck (Game_init (make_players 2 2) 2000 500 1 false))
  /\ automatic false (players (Game_init (make_players 2 2) 2000 500 1 false))
  /\ run 50 50 false (Game_init (make_players 2 2) 2000 500 1 false) []
     <> Raise Py.IndexError.
Proof.
  assert (Hgood : good_deck (card_deck (Game_init (make_players 2 2) 2000 500 1 false)))
    by exact (init_good_deck 1).
  assert (Hauto : automatic false
                    (players (Game_init (make_players 2 2) 2000 500 1 false)))
    by (vm_compute; repeat constructor).
  split; [exact Hgood|]. split; [exact Hauto|].
  exact (X14_automatic_match_never_raises 50 50 false
           (Game_init (make_players 2 2) 2000 500 1 false) [] Py.IndexError
           Hgood Hauto).
Defined.

Lemma X21_names_asked_of_humans_witness :
  0 <= 1 <= 2
  /\ Forall (fun p => is_ai p = false) (take (Z.to_nat (2 - 1)) (make_players 2 1))
  /\ Forall (fun p => is_ai p = true) (drop (Z.to_nat (2 - 1)) (make_players 2 1)).
Proof.
  assert (H : 0 <= 1 <= 2) by lia.
  split; [exact H|].
  pose proof (X21_names_asked_of_humans 2 1 ["  Ann "; "k"] H) as (H1 & H2 & _).
  split; [exact H1|exact H2].
Defined.

Lemma X22_simulation_repeats_one_game_witness :
  0 < a_simulate Lcg.simulation
  /\ main 50 50 Lcg.simulation []
     = Ok (Simulated {[name (fst (fst Lcg.ai_match)) := 3]}, []).
Proof.
  assert (H : 0 < a_simulate Lcg.simulation) by reflexivity.
  split; [exact H|].
  exact (X22_simulation_repeats_one_game 50 50 Lcg.simulation []
           (fst (fst Lcg.ai_match)) (snd (fst Lcg.ai_match)) (snd Lcg.ai_match)
           H ai_match_eq).
Defined.

Lemma X23_automatic_program_never_raises_witness :
  (0 < a_simulate Lcg.simulation \/ a_ai Lcg.simulation = true)
  /\ main 50 50 Lcg.simulation [] <> Raise Py.EOFError.
Proof.
  assert (H : 0 < a_simulate Lcg.simulation \/ a_ai Lcg.simulation = true)
    by (right; reflexivity).
  split; [exact H|].
  exact (X23_automatic_program_never_raises 50 50 Lcg.simulation [] Py.EOFError H).
Defined.

Lemma X24_turn_frame_witness :
  play_turn 10 false (Lcg.seat 500 9 true [])
  = Ok (fst Lcg.filled_turn, snd Lcg.filled_turn)
  /\ same_seat (Lcg.seat 500 9 true []) (snd Lcg.filled_turn).
Proof.
  split; [exact filled_turn_eq|].
  exact (proj1 (proj2 (X24_turn_frame 10 false (Lcg.seat 500 9 true [])
                         (fst Lcg.filled_turn) (snd Lcg.filled_turn)
                         filled_turn_eq))).
Defined.

Lemma X25_human_turn_ends_witness :
  use_gui (w_game (Lcg.seat 500 30 false ["k"; "b"])) = false
  /\ is_ai (w_player (Lcg.seat 500 30 false ["k"; "b"])) = false
  /\ (length (w_stdin (Lcg.seat 500 30 false ["k"; "b"])) < 10)%nat
  /\ play_turn 10 true (Lcg.seat 500 30 false ["k"; "b"]) <> OutOfFuel.
Proof.
  assert (Hlen : (length (w_stdin (Lcg.seat 500 30 false ["k"; "b"])) < 10)%nat)
    by (simpl; lia).
  split; [reflexivity|]. split; [reflexivity|]. split; [exact Hlen|].
  exact (X25_human_turn_ends 10 (Lcg.seat 500 30 false ["k"; "b"])
           eq_refl eq_refl Hlen).
Defined.

Lemma X26_scores_never_decrease_witness :
  good_deck (card_deck (Game_init (make_players 2 2) 2000 500 1 false))
  /\ run 50 50 false (Game_init (make_players 2 2) 2000 500 1 false) []
     = Ok (fst (fst Lcg.ai_match), snd (fst Lcg.ai_match), snd Lcg.ai_match)
  /\ Forall2 (fun q q' => name q' = name q /\ is_ai q' = is_ai q
                          /\ points q <= points q')
             (players (Game_init (make_players 2 2) 2000 500 1 false))
             (players (snd (fst Lcg.ai_match))).
Proof.
  assert (Hgood : good_deck (card_deck (Game_init (make_players 2 2) 2000 500 1 false)))
    by exact (init_good_deck 1).
  split; [exact Hgood|]. split; [exact ai_match_eq|].
  exact (X26_scores_never_decrease 50 50 false
           (Game_init (make_players 2 2) 2000 500 1 false) []
           (fst (fst Lcg.ai_match)) (snd (fst Lcg.ai_match)) (snd Lcg.ai_match)
           Hgood ai_match_eq).
Defined.
